(** * Direction construction for loss-landscape plots: a shallow embedding

    This development embeds [torch_landscape/directions.py] and proves (or
    refutes) statements of its natural-language specification.

    Conventions of the embedding:
    - a tensor is its shape together with its contiguous row-major data;
    - tensor arithmetic is exact: rational numbers for the linear-algebra
      plumbing, real numbers where a square root is taken; rounding is not
      modelled;
    - a Python exception is a value [Raise e] of the type [outcome];
    - calls into the tensor library made by the builders are recorded in a
      trace, so that "before any tensor computation" is a statement about
      the trace being empty;
    - the numeric kernels the code delegates to (eigensolvers, truncated SVD,
      one optimisation step of the autoencoder) are fields of a record
      [backend]; nothing is assumed about them except where a theorem lists
      a hypothesis. *)

From Stdlib Require Import List ZArith QArith Qabs Reals Lra Lia Bool Arith.
From Stdlib Require Import Sorting.Permutation Sorting.Sorted.
Import ListNotations.

Set Implicit Arguments.

(** ** Python outcomes *)

Inductive exn : Type :=
| ValueError
| AssertionError
| IndexError
| TypeError
| RuntimeError
| ZeroDivisionError.

Inductive outcome (A : Type) : Type :=
| Ok (a : A)
| Raise (e : exn).

Arguments Ok {A} a.
Arguments Raise {A} e.

Definition obind {A B} (m : outcome A) (f : A -> outcome B) : outcome B :=
  match m with
  | Ok a => f a
  | Raise e => Raise e
  end.

Fixpoint omap {A B} (f : A -> outcome B) (l : list A) : outcome (list B) :=
  match l with
  | [] => Ok []
  | x :: xs =>
      obind (f x) (fun y => obind (omap f xs) (fun ys => Ok (y :: ys)))
  end.

(** ** Tensors *)

Record tensor (A : Type) : Type := mkTensor {
  shape : list nat;
  data : list A
}.

Definition prod (l : list nat) : nat := fold_right Nat.mul 1%nat l.

Definition numel {A} (t : tensor A) : nat := prod (shape t).

Definition dim {A} (t : tensor A) : nat := length (shape t).

(** The data of a tensor fills its shape. *)
Definition well_formed {A} (t : tensor A) : Prop :=
  length (data t) = numel t.

(** [chunks count k l] cuts [l] into [count] consecutive pieces of [k]
    elements: the row-major view of a leading dimension. *)
Fixpoint chunks {A} (count k : nat) (l : list A) : list (list A) :=
  match count with
  | O => []
  | S c => firstn k l :: chunks c k (skipn k l)
  end.

(** With respect to a dimension [d], a tensor is [outer_count] blocks of
    [axis_len] rows of [inner_count] elements. A 0-dimensional tensor
    accepts [d = 0] and is one block of one row of one element. *)
Definition outer_count {A} (d : nat) (t : tensor A) : nat :=
  prod (firstn d (shape t)).

Definition axis_len {A} (d : nat) (t : tensor A) : nat :=
  nth d (shape t) 1%nat.

Definition inner_count {A} (d : nat) (t : tensor A) : nat :=
  prod (skipn (S d) (shape t)).

Definition view3 {A} (d : nat) (t : tensor A) : list (list (list A)) :=
  map (chunks (axis_len d t) (inner_count d t))
      (chunks (outer_count d t) (axis_len d t * inner_count d t) (data t)).

(** The shape a reduction along [d] keeps under [keepdim=True]. *)
Fixpoint keepdim_shape (d : nat) (s : list nat) : list nat :=
  match s, d with
  | [], _ => []
  | _ :: s', O => 1%nat :: s'
  | n :: s', S d' => n :: keepdim_shape d' s'
  end.

(** ** normalize_direction *)

Module Normalizer.

Open Scope R_scope.

Definition eps : R := 1 / 10 ^ 10.

Definition sum_squares (j : nat) (block : list (list R)) : R :=
  fold_right (fun row acc => nth j row 0 * nth j row 0 + acc) 0 block.

(** The Euclidean norms of a block along its rows: one value for each of
    the [inner] positions. *)
Definition column_norms (inner : nat) (block : list (list R)) : list R :=
  map (fun j => sqrt (sum_squares j block)) (seq 0 inner).

(** The norms along [d], block by block. *)
Definition norm_blocks (d : nat) (t : tensor R) : list (list R) :=
  map (column_norms (inner_count d t)) (view3 d t).

(** [t.norm(dim=d, keepdim=True)] *)
Definition norm (t : tensor R) (d : nat) : tensor R :=
  {| shape := keepdim_shape d (shape t);
     data := concat (norm_blocks d t) |}.

(** A quotient exists only for a non-zero denominator. The floating-point
    code would produce an infinity or a nan where the model raises. *)
Definition checked_div (x y : R) : outcome R :=
  if Req_dec_T y 0 then Raise ZeroDivisionError else Ok (x / y).

Definition zip_with {A B C} (f : A -> B -> C) (l1 : list A) (l2 : list B)
  : list C :=
  map (fun p => f (fst p) (snd p)) (combine l1 l2).

Definition div_eps (x y : R) : R := x / (y + eps).

(** [norm_parameters / (norm_direction + 1e-10)] on two tensors of one
    shape. *)
Definition scaling_factor (norm_parameters norm_direction : tensor R)
  : outcome (tensor R) :=
  obind (omap (fun p => checked_div (fst p) (snd p + eps))
              (combine (data norm_parameters) (data norm_direction)))
        (fun q => Ok {| shape := shape norm_parameters; data := q |}).

Definition scale_block (block : list (list R)) (s : list R)
  : list (list R) :=
  map (fun row => zip_with Rmult row s) block.

(** [direction *= factor], the factor having extent 1 along [d] and being
    broadcast there. *)
Definition mul_broadcast (direction factor : tensor R) (d : nat)
  : tensor R :=
  {| shape := shape direction;
     data :=
       concat
         (map (fun p => concat (scale_block (fst p) (snd p)))
              (combine (view3 d direction)
                       (chunks (outer_count d direction)
                               (inner_count d direction) (data factor)))) |}.

Definition norm_dimensions (parameters : tensor R) : nat :=
  if (1 <? dim parameters)%nat then 1%nat else 0%nat.

(** The function mutates [direction] in place; the embedding returns the
    new value of [direction]. It covers the calls the repository makes,
    where both tensors have one shape; other shapes (which the library
    would broadcast or reject) are answered with [RuntimeError]. *)
Definition normalize_direction (direction parameters : tensor R)
  : outcome (tensor R) :=
  if list_eq_dec Nat.eq_dec (shape direction) (shape parameters) then
    let d := norm_dimensions parameters in
    let norm_direction := norm direction d in
    let norm_parameters := norm parameters d in
    obind (scaling_factor norm_parameters norm_direction)
          (fun factor => Ok (mul_broadcast direction factor d))
  else Raise RuntimeError.

(** [normalize_direction_using_params]: the assertion on the lengths, then
    the tensors pairwise. *)
Definition normalize_direction_using_params
  (direction parameters : list (tensor R)) : outcome (list (tensor R)) :=
  if (length direction =? length parameters)%nat then
    omap (fun p => normalize_direction (fst p) (snd p))
         (combine direction parameters)
  else Raise AssertionError.

(** The norm of each slice along the first dimension, taken over all the
    other dimensions (the whole tensor when it has at most one dimension):
    the slicing the specification describes. *)
Definition slice_norm (l : list R) : R :=
  sqrt (fold_right (fun x acc => x * x + acc) 0 l).

Definition per_unit_norms (t : tensor R) : list R :=
  if (1 <? dim t)%nat then
    map slice_norm
        (chunks (nth 0 (shape t) 1%nat) (prod (skipn 1 (shape t))) (data t))
  else [slice_norm (data t)].

End Normalizer.

(** ** Traced computations

    A builder's run is the list of calls it made into the tensor library,
    in order, and its outcome. *)

Inductive torch_call : Type :=
| parameters_to_vector_call
| sub_call
| to_device_call
| to_dtype_call
| stack_call
| transpose_call
| reshape_call
| cov_call
| eigh_call
| lobpcg_call
| sort_call
| sum_call
| select_call
| svd_lowrank_call
| clone_parameters_call
| vector_to_parameters_call
| Tensor_call
| kaiming_uniform_call
| Adam_call
| train_epochs_call
| load_state_dict_call.

Definition traced (A : Type) : Type := (list torch_call * outcome A)%type.

Definition ret {A} (a : A) : traced A := ([], Ok a).

Definition raise {A} (e : exn) : traced A := ([], Raise e).

Definition bind {A B} (m : traced A) (f : A -> traced B) : traced B :=
  match m with
  | (t, Ok a) => let (t', r) := f a in (t ++ t', r)
  | (t, Raise e) => (t, Raise e)
  end.

(** One call into the tensor library, with what it returned. *)
Definition torch {A} (c : torch_call) (r : outcome A) : traced A := ([c], r).

Notation "x <- m ;; k" := (bind m (fun x => k))
  (at level 61, m at next level, right associativity).
Notation "' pat <- m ;; k" := (bind m (fun x => match x with pat => k end))
  (at level 61, pat pattern, m at next level, right associativity).

Fixpoint for_each {A B} (f : A -> traced B) (l : list A) : traced (list B) :=
  match l with
  | [] => ret []
  | x :: xs => y <- f x ;; ys <- for_each f xs ;; ret (y :: ys)
  end.

Definition trace {A} (m : traced A) : list torch_call := fst m.
Definition result {A} (m : traced A) : outcome A := snd m.

(** ** Floating-point values as the training loop sees them

    The loop only compares losses, so a loss is a rational number, an
    infinity or a nan, with the comparison of IEEE 754: every comparison
    with a nan is false. *)

Inductive float : Type :=
| Fin (q : Q)
| PInf
| NInf
| NaN.

Definition flt (x y : float) : bool :=
  match x, y with
  | NaN, _ | _, NaN => false
  | Fin a, Fin b => negb (Qle_bool b a)
  | Fin _, PInf => true
  | Fin _, NInf => false
  | PInf, _ => false
  | NInf, NInf => false
  | NInf, _ => true
  end.

Definition fadd (x y : float) : float :=
  match x, y with
  | NaN, _ | _, NaN => NaN
  | Fin a, Fin b => Fin (a + b)
  | PInf, NInf | NInf, PInf => NaN
  | PInf, _ | _, PInf => PInf
  | NInf, _ | _, NInf => NInf
  end.

(** ** Parameter sets and their vector form *)

Definition vector : Type := list Q.
Definition matrix : Type := list (list Q).
Definition ParameterSet : Type := list (tensor Q).

(** [torch.nn.utils.parameters_to_vector]: [torch.cat] of the flat views;
    [torch.cat] refuses an empty list of tensors with [ValueError]. *)
Definition parameters_to_vector (parameters : ParameterSet) : outcome vector :=
  match parameters with
  | [] => Raise ValueError
  | _ => Ok (concat (map (@data Q) parameters))
  end.

(** [torch.nn.utils.vector_to_parameters]: each parameter receives the next
    [numel] elements, viewed in its own shape; a slice that is too short
    cannot be viewed. The embedding returns the parameters written. *)
Fixpoint vector_to_parameters (vec : vector) (parameters : ParameterSet)
  : outcome ParameterSet :=
  match parameters with
  | [] => Ok []
  | param :: rest =>
      let num_param := numel param in
      let slice := firstn num_param vec in
      if (length slice =? num_param)%nat then
        obind (vector_to_parameters (skipn num_param vec) rest)
              (fun ps => Ok ({| shape := shape param; data := slice |} :: ps))
      else Raise RuntimeError
  end.

(** Modelled from the spec: [clone_parameters] of [torch_landscape.utils],
    which "deep-copies a ParameterSet's tensors, detached from any existing
    gradient-tracking graph, for use as a mutable output buffer". A copy
    has the shapes and the values of the original. *)
Definition clone_parameters (parameters : ParameterSet) : ParameterSet :=
  map (fun p => {| shape := shape p; data := data p |}) parameters.

(** Element-wise difference of two vectors, with the library's
    broadcasting of a one-element operand. *)
Definition vsub (a b : vector) : outcome vector :=
  if (length a =? length b)%nat then
    Ok (map (fun p => fst p - snd p) (combine a b))
  else if (length b =? 1)%nat then
    Ok (map (fun x => x - nth 0 b 0) a)
  else if (length a =? 1)%nat then
    Ok (map (fun y => nth 0 a 0 - y) b)
  else Raise RuntimeError.

Definition same_lengths (x : list vector) : bool :=
  match x with
  | [] => true
  | v :: vs => forallb (fun w => (length w =? length v)%nat) vs
  end.

(** [stack(x)]: the vectors as the rows of a matrix. *)
Definition stack (x : list vector) : outcome matrix :=
  match x with
  | [] => Raise RuntimeError
  | _ => if same_lengths x then Ok x else Raise RuntimeError
  end.

Definition column (j : nat) (m : matrix) : vector :=
  map (fun row => nth j row 0) m.

Definition transpose (columns : nat) (m : matrix) : matrix :=
  map (fun j => column j m) (seq 0 columns).

(** [stack(x, dim=1)]: the vectors as the columns of a matrix. *)
Definition stack_dim1 (x : list vector) : outcome matrix :=
  match x with
  | [] => Raise RuntimeError
  | v :: _ =>
      if same_lengths x then Ok (transpose (length v) x)
      else Raise RuntimeError
  end.

(** Element [i] of a Python sequence. *)
Definition item {A} (l : list A) (i : nat) : outcome A :=
  match nth_error l i with
  | Some a => Ok a
  | None => Raise IndexError
  end.

(** [m[:, j]] *)
Definition select_column (m : matrix) (j : nat) : outcome vector :=
  omap (fun row => item row j) m.

(** ** torch.cov

    Rows are variables and columns are observations; the default
    correction is 1, so that the products of the centred rows are divided
    by the number of observations minus one. With a single observation
    the library divides zero by zero and every entry is a nan. The result
    is squeezed: the covariance of a single variable is a 0-dimensional
    tensor, not a matrix of one row. *)

Definition qsum (l : list Q) : Q := fold_right Qplus 0 l.

Definition mean (row : list Q) : Q :=
  qsum row / inject_Z (Z.of_nat (length row)).

Definition center (row : list Q) : list Q :=
  map (fun x => x - mean row) row.

Definition dot (a b : list Q) : Q :=
  qsum (map (fun p => fst p * snd p) (combine a b)).

Definition observations (m : matrix) : nat :=
  match m with
  | [] => 0%nat
  | row :: _ => length row
  end.

Definition fmatrix : Type := list (list float).

(** What [torch.cov] returns: a 0-dimensional tensor or a matrix. *)
Inductive covariance : Type :=
| zero_dim (x : float)
| two_dim (rows : fmatrix).

Definition cov_entries (m : matrix) : fmatrix :=
  let c := map center m in
  let n := observations m in
  map (fun ri =>
         map (fun rj =>
                if (n <=? 1)%nat then NaN
                else Fin (dot ri rj / inject_Z (Z.of_nat n - 1)))
             c)
      c.

(** [squeeze]: a matrix of one row and one column loses both dimensions. *)
Definition squeeze (rows : fmatrix) : covariance :=
  match rows with
  | [[x]] => zero_dim x
  | _ => two_dim rows
  end.

Definition cov (m : matrix) : covariance := squeeze (cov_entries m).

(** [covariance_matrix.size(dim=0)]: a 0-dimensional tensor has no
    dimension 0. *)
Definition size0 (c : covariance) : outcome nat :=
  match c with
  | zero_dim _ => Raise IndexError
  | two_dim rows => Ok (length rows)
  end.

(** ** torch.sort(descending=True), as the indices it returns

    Any sorting algorithm returns a permutation of the positions along
    which the values decrease; the model is a stable insertion sort. *)

Fixpoint insert_desc (p : Q * nat) (l : list (Q * nat)) : list (Q * nat) :=
  match l with
  | [] => [p]
  | q :: l' =>
      if Qle_bool (fst q) (fst p) then p :: q :: l'
      else q :: insert_desc p l'
  end.

Definition sort_desc (values : list Q) : list (Q * nat) :=
  fold_right insert_desc []
             (combine values (seq 0 (length values))).

Definition sort_indices (values : list Q) : list nat :=
  map snd (sort_desc values).

(** ** The numeric kernels

    The eigensolvers, the truncated SVD, the cast to single precision and
    the gradient machinery of the autoencoder belong to the tensor library.
    They are functions of their arguments (the state of the random
    generator some of them draw from is fixed for a run) and may fail. A
    [net] is the autoencoder together with its optimizer. *)

Inductive reduction : Type := reduction_sum | reduction_mean.

Inductive variant : Type := linear_chain | nonlinear_subspace.

Record backend : Type := {
  (** [torch.linalg.eigh]: eigenvalues and a matrix whose columns are the
      eigenvectors *)
  eigh : covariance -> outcome (list Q * matrix);
  (** [torch.lobpcg(A, largest, k)] *)
  lobpcg : covariance -> bool -> nat -> outcome (list Q * matrix);
  (** [torch.svd_lowrank(A, q)]: [U], [S] and [V] *)
  svd_lowrank : matrix -> nat -> outcome (matrix * list Q * matrix);
  to_float32 : Q -> Q;
  net : Type;
  (** a fresh autoencoder of the given layer shapes, initialised with
      [kaiming_uniform_], and an [Adam] optimizer with the learning rate *)
  new_net : variant -> list (nat * nat) -> Q -> net;
  (** one epoch: [zero_grad], forward pass, criterion, [backward],
      [optimizer.step()]; returns the updated net and [loss.item()] *)
  train_epoch : net -> matrix -> reduction -> net * float;
  state_dict : net -> list matrix;
  load_state_dict : net -> list matrix -> net;
  weights : net -> list matrix
}.

Inductive device : Type := cpu | cuda.

(** A trajectory as a caller may supply it: snapshots alone, or snapshots
    paired with a loss. *)
Inductive trajectory : Type :=
| Snapshots (l : list ParameterSet)
| SnapshotsWithLoss (l : list (ParameterSet * float)).

Definition len (t : trajectory) : nat :=
  match t with
  | Snapshots l => length l
  | SnapshotsWithLoss l => length l
  end.

(** The test [isinstance(intermediate_parameters[0], tuple)] and the
    comprehension that drops the losses; shared by the four constructors. *)
Definition drop_loss (t : trajectory) : list ParameterSet :=
  match t with
  | SnapshotsWithLoss l =>
      map (fun entry : ParameterSet * float =>
             let (parameters, loss) := entry in parameters) l
  | Snapshots l => l
  end.

Definition lift {A} (o : outcome A) : traced A := ([], o).

(** The centred trajectory: [parameters_to_vector(result) - parameters_vector],
    moved to a device. *)
Definition centred (parameters_vector : vector) (to_device : bool)
  (intermediate_results : list ParameterSet) : traced (list vector) :=
  for_each (fun result =>
              v <- torch parameters_to_vector_call (parameters_to_vector result) ;;
              r <- torch sub_call (vsub v parameters_vector) ;;
              if to_device then torch to_device_call (Ok r) else ret r)
           intermediate_results.

(** ** PcaDirections *)

Module PcaDirections.

Record t : Type := {
  _optimized_parameters : ParameterSet;
  _intermediate_parameters : list ParameterSet;
  _covariance_device : device
}.

Definition init (optimized_parameters : ParameterSet)
  (intermediate_parameters : trajectory) (covariance_device : device)
  : traced t :=
  if (len intermediate_parameters =? 0)%nat then raise ValueError
  else ret {| _optimized_parameters := optimized_parameters;
              _intermediate_parameters := drop_loss intermediate_parameters;
              _covariance_device := covariance_device |}.

Definition calculate_covariance_matrix (samples : list vector)
  : traced covariance :=
  m <- torch stack_call (stack_dim1 samples) ;;
  torch cov_call (Ok (cov m)).

Section Kernels.

Variable B : backend.

Definition _calculate_eigenpairs (covariance_matrix : covariance)
  : traced (list Q * matrix) :=
  rows <- lift (size0 covariance_matrix) ;;
  if (3 * 2 <? rows)%nat then
    torch lobpcg_call (lobpcg B covariance_matrix true 2)
  else
    torch eigh_call (eigh B covariance_matrix).

(** The part of [create_pca_directions] after the eigenpairs are known.
    The two log messages are not modelled beyond the elements they read. *)
Definition select_directions (eigen_values : list Q) (eigen_vectors : matrix)
  (parameters : ParameterSet) : traced (vector * vector) :=
  indices <- torch sort_call (Ok (sort_indices eigen_values)) ;;
  eigen_values_sum <- torch sum_call (Ok (qsum eigen_values)) ;;
  i0 <- lift (item indices 0) ;;
  _ <- lift (item eigen_values i0) ;;
  i1 <- lift (item indices 1) ;;
  _ <- lift (item eigen_values i1) ;;
  _ <- lift (item parameters 0) ;;
  b1 <- torch select_call (select_column eigen_vectors i0) ;;
  b2 <- torch select_call (select_column eigen_vectors i1) ;;
  ret (b1, b2).

Definition create_pca_directions (intermediate_results : list ParameterSet)
  (parameters : ParameterSet) (pca_device : device)
  : traced (vector * vector) :=
  if (length intermediate_results =? 0)%nat then raise ValueError
  else
    parameters_vector <-
      torch parameters_to_vector_call (parameters_to_vector parameters) ;;
    results <- centred parameters_vector true intermediate_results ;;
    covariance_matrix <- calculate_covariance_matrix results ;;
    ' (eigen_values, eigen_vectors) <- _calculate_eigenpairs covariance_matrix ;;
    select_directions eigen_values eigen_vectors parameters.

Definition calculate_directions (self : t)
  : traced (ParameterSet * ParameterSet) :=
  ' (b1, b2) <- create_pca_directions (_intermediate_parameters self)
                  (_optimized_parameters self) (_covariance_device self) ;;
  b1_param <- torch clone_parameters_call
                (Ok (clone_parameters (_optimized_parameters self))) ;;
  b2_param <- torch clone_parameters_call
                (Ok (clone_parameters (_optimized_parameters self))) ;;
  b1_param <- torch vector_to_parameters_call (vector_to_parameters b1 b1_param) ;;
  b2_param <- torch vector_to_parameters_call (vector_to_parameters b2 b2_param) ;;
  ret (b1_param, b2_param).

End Kernels.

End PcaDirections.

(** ** SvdDirections *)

Module SvdDirections.

Record t : Type := {
  _optimized_parameters : ParameterSet;
  _intermediate_parameters : list ParameterSet
}.

Definition init (optimized_parameters : ParameterSet)
  (intermediate_parameters : trajectory) : traced t :=
  if (len intermediate_parameters =? 0)%nat then raise ValueError
  else ret {| _optimized_parameters := optimized_parameters;
              _intermediate_parameters := drop_loss intermediate_parameters |}.

Section Kernels.

Variable B : backend.

(** The matrix handed to the decomposition: the centred snapshots as rows,
    in single precision. *)
Definition dataset_of (x : list vector) : traced matrix :=
  m <- torch stack_call (stack x) ;;
  torch to_dtype_call (Ok (map (map (to_float32 B)) m)).

Definition create_learnable_directions
  (intermediate_results : list ParameterSet) (parameters : ParameterSet)
  : traced (vector * vector) :=
  if (length intermediate_results =? 0)%nat then raise ValueError
  else
    optimized_parameters_vector <-
      torch parameters_to_vector_call (parameters_to_vector parameters) ;;
    x <- centred optimized_parameters_vector false intermediate_results ;;
    dataset <- dataset_of x ;;
    ' (U, Sigma, V) <- torch svd_lowrank_call (svd_lowrank B dataset 2) ;;
    b1 <- torch select_call (select_column V 0) ;;
    b2 <- torch select_call (select_column V 1) ;;
    ret (b1, b2).

Definition calculate_directions (self : t)
  : traced (ParameterSet * ParameterSet) :=
  ' (b1, b2) <- create_learnable_directions (_intermediate_parameters self)
                  (_optimized_parameters self) ;;
  b1_param <- torch clone_parameters_call
                (Ok (clone_parameters (_optimized_parameters self))) ;;
  b2_param <- torch clone_parameters_call
                (Ok (clone_parameters (_optimized_parameters self))) ;;
  b1_param <- torch vector_to_parameters_call (vector_to_parameters b1 b1_param) ;;
  b2_param <- torch vector_to_parameters_call (vector_to_parameters b2 b2_param) ;;
  ret (b1_param, b2_param).

End Kernels.

End SvdDirections.

(** ** The training loop of the learnable builders

    Both builders run the same loop: lines 414-437 of the linear-chain
    builder and lines 618-641 of the nonlinear one differ only in the
    criterion's reduction. *)

Definition range (n : Z) : list Z := map Z.of_nat (seq 0 (Z.to_nat n)).

Inductive loop_exit : Type :=
| Exhausted
| Break (epoch : Z).

Section Training.

Variable B : backend.

Record progress : Type := {
  model : net B;
  best_epoch : Z;
  best_loss : float;
  best_model_state_dict : option (list matrix)
}.

Definition start (m : net B) : progress :=
  {| model := m; best_epoch := 0; best_loss := PInf;
     best_model_state_dict := None |}.

(** The body of the loop up to the early-stopping test. *)
Definition run_epoch (dataset : matrix) (criterion : reduction) (epoch : Z)
  (p : progress) : progress :=
  let (m, loss) := train_epoch B (model p) dataset criterion in
  let epoch_loss := fadd (Fin 0) loss in
  if flt epoch_loss (best_loss p) then
    {| model := m; best_epoch := epoch; best_loss := epoch_loss;
       best_model_state_dict := Some (state_dict B m) |}
  else
    {| model := m; best_epoch := best_epoch p; best_loss := best_loss p;
       best_model_state_dict := best_model_state_dict p |}.

Fixpoint for_epochs (early_stopping_epochs : Z) (dataset : matrix)
  (criterion : reduction) (epochs : list Z) (p : progress)
  : progress * loop_exit :=
  match epochs with
  | [] => (p, Exhausted)
  | epoch :: rest =>
      let p' := run_epoch dataset criterion epoch p in
      if (epoch - best_epoch p' >=? early_stopping_epochs)%Z
      then (p', Break epoch)
      else for_epochs early_stopping_epochs dataset criterion rest p'
  end.

(** How many epochs were run, from the way the loop was left. *)
Definition epochs_run (training_epochs : Z) (e : loop_exit) : nat :=
  match e with
  | Exhausted => Z.to_nat training_epochs
  | Break epoch => S (Z.to_nat epoch)
  end.

(** [model.load_state_dict(best_model_state_dict)]: there is nothing to
    load from [None]. *)
Definition reload (p : progress) : outcome (net B) :=
  match best_model_state_dict p with
  | None => Raise TypeError
  | Some sd => Ok (load_state_dict B (model p) sd)
  end.

Definition fit (m : net B) (dataset : matrix) (criterion : reduction)
  (training_epochs early_stopping_epochs : Z) : traced (net B) :=
  let (p, e) := for_epochs early_stopping_epochs dataset criterion
                  (range training_epochs) (start m) in
  _ <- (repeat train_epochs_call (epochs_run training_epochs e), Ok tt) ;;
  torch load_state_dict_call (reload p).

End Training.

(** ** LearnableDirections *)

Module LearnableDirections.

Record t : Type := {
  _optimized_parameters : ParameterSet;
  _intermediate_parameters : list ParameterSet;
  learnable_model_device : device;
  number_of_layers : Z;
  autoencoder_lr : Q;
  training_epochs : Z;
  early_stopping_epochs : Z;
  intermediate_basis_count : list nat;
  activation : Q -> Q
}.

Definition init (optimized_parameters : ParameterSet)
  (intermediate_parameters : trajectory) (learnable_model_device : device)
  (number_of_layers : Z) (autoencoder_lr : Q)
  (training_epochs early_stopping_epochs : Z)
  (intermediate_basis_count : list nat) (activation : Q -> Q) : traced t :=
  if (len intermediate_parameters =? 0)%nat then raise ValueError
  else ret {| _optimized_parameters := optimized_parameters;
              _intermediate_parameters := drop_loss intermediate_parameters;
              learnable_model_device := learnable_model_device;
              number_of_layers := number_of_layers;
              autoencoder_lr := autoencoder_lr;
              training_epochs := training_epochs;
              early_stopping_epochs := early_stopping_epochs;
              intermediate_basis_count := intermediate_basis_count;
              activation := activation |}.

(** The shape of weight [i] in [LearnableAutoEncoder.__init__]. *)
Definition layer_shape (number_of_layers : Z)
  (intermediate_basis_count : list nat) (feature_dim : nat) (i : Z)
  : outcome (nat * nat) :=
  if (i =? 0)%Z then
    obind (item intermediate_basis_count (Z.to_nat i))
          (fun c => Ok (c, feature_dim))
  else if (i =? number_of_layers - 1)%Z then
    obind (item intermediate_basis_count (Z.to_nat (i - 1)))
          (fun c => Ok (2%nat, c))
  else
    obind (item intermediate_basis_count (Z.to_nat i))
          (fun a => obind (item intermediate_basis_count (Z.to_nat (i - 1)))
                          (fun b => Ok (a, b))).

(** [LearnableAutoEncoder.__init__]: the assertion, one [Tensor] per layer,
    then [reset_parameters]. Returns the shapes of the weights. *)
Definition LearnableAutoEncoder (number_of_layers : Z) (feature_dim : nat)
  (intermediate_basis_count : list nat) : traced (list (nat * nat)) :=
  if negb (Z.of_nat (length intermediate_basis_count) =? number_of_layers - 1)%Z
  then raise AssertionError
  else
    shapes <- for_each
                (fun i =>
                   s <- lift (layer_shape number_of_layers
                                intermediate_basis_count feature_dim i) ;;
                   torch Tensor_call (Ok s))
                (range number_of_layers) ;;
    _ <- for_each (fun _ => torch kaiming_uniform_call (Ok tt)) shapes ;;
    ret shapes.

Section Kernels.

Variable B : backend.

Definition create_learnable_directions
  (intermediate_results : list ParameterSet) (parameters : ParameterSet)
  (learnable_model_device : device) (early_stopping_epochs training_epochs : Z)
  (autoencoder_lr : Q) (number_of_layers : Z)
  (intermediate_basis_count : list nat) : traced (list matrix) :=
  if (length intermediate_results =? 0)%nat then raise ValueError
  else
    optimized_parameters_vector <-
      torch parameters_to_vector_call (parameters_to_vector parameters) ;;
    x <- centred optimized_parameters_vector true intermediate_results ;;
    dataset <- torch stack_call (stack x) ;;
    x0 <- lift (item x 0) ;;
    shapes <- LearnableAutoEncoder number_of_layers (length x0)
                intermediate_basis_count ;;
    _ <- torch to_device_call (Ok tt) ;;
    m <- torch Adam_call (Ok (new_net B linear_chain shapes autoencoder_lr)) ;;
    m <- fit B m dataset reduction_sum training_epochs early_stopping_epochs ;;
    ret (weights B m).

Definition calculate_directions (self : t) : traced (list matrix) :=
  create_learnable_directions (_intermediate_parameters self)
    (_optimized_parameters self) (learnable_model_device self)
    (early_stopping_epochs self) (training_epochs self) (autoencoder_lr self)
    (number_of_layers self) (intermediate_basis_count self).

End Kernels.

End LearnableDirections.

(** ** LearnableNonlinearDirections *)

(** What the nonlinear builder returns: the chain of weights and the origin
    held by the first layer. *)
Record Subspace : Type := {
  layers : list matrix;
  origin : vector
}.

Module LearnableNonlinearDirections.

Record t : Type := {
  _optimized_parameters : ParameterSet;
  _intermediate_parameters : list ParameterSet;
  learnable_model_device : device;
  number_of_layers : Z;
  autoencoder_lr : Q;
  training_epochs : Z;
  early_stopping_epochs : Z;
  intermediate_basis_count : list nat;
  activation : Q -> Q
}.

Definition init (optimized_parameters : ParameterSet)
  (intermediate_parameters : trajectory) (learnable_model_device : device)
  (number_of_layers : Z) (autoencoder_lr : Q)
  (training_epochs early_stopping_epochs : Z)
  (intermediate_basis_count : list nat) (activation : Q -> Q) : traced t :=
  if (len intermediate_parameters =? 0)%nat then raise ValueError
  else ret {| _optimized_parameters := optimized_parameters;
              _intermediate_parameters := drop_loss intermediate_parameters;
              learnable_model_device := learnable_model_device;
              number_of_layers := number_of_layers;
              autoencoder_lr := autoencoder_lr;
              training_epochs := training_epochs;
              early_stopping_epochs := early_stopping_epochs;
              intermediate_basis_count := intermediate_basis_count;
              activation := activation |}.

(** The loop of [LearnableAutoEncoder.__init__]: the input dimension of a
    layer is the output dimension of the one before. *)
Fixpoint layer_shapes (number_of_layers : Z)
  (intermediate_basis_count : list nat) (in_dimension : nat) (indices : list Z)
  : traced (list (nat * nat)) :=
  match indices with
  | [] => ret []
  | i :: rest =>
      out_dimension <-
        (if (i =? number_of_layers - 1)%Z then ret 2%nat
         else lift (item intermediate_basis_count (Z.to_nat i))) ;;
      s <- torch Tensor_call (Ok (in_dimension, out_dimension)) ;;
      ss <- layer_shapes number_of_layers intermediate_basis_count
              out_dimension rest ;;
      ret (s :: ss)
  end.

Definition LearnableAutoEncoder (number_of_layers : Z) (feature_dim : nat)
  (intermediate_basis_count : list nat) : traced (list (nat * nat)) :=
  shapes <- layer_shapes number_of_layers intermediate_basis_count
              feature_dim (range number_of_layers) ;;
  _ <- for_each (fun _ => torch kaiming_uniform_call (Ok tt)) shapes ;;
  ret shapes.

Section Kernels.

Variable B : backend.

Definition create_learnable_directions
  (intermediate_results : list ParameterSet) (parameters : ParameterSet)
  (learnable_model_device : device) (early_stopping_epochs training_epochs : Z)
  (autoencoder_lr : Q) (number_of_layers : Z)
  (intermediate_basis_count : list nat) : traced Subspace :=
  if (length intermediate_results =? 0)%nat then raise ValueError
  else if negb (Z.of_nat (length intermediate_basis_count)
                =? number_of_layers - 1)%Z
  then raise ValueError
  else
    v <- torch parameters_to_vector_call (parameters_to_vector parameters) ;;
    optimized_parameters_vector <- torch reshape_call (Ok v) ;;
    x <- for_each
           (fun result =>
              r <- torch parameters_to_vector_call (parameters_to_vector result) ;;
              torch to_device_call (Ok r))
           intermediate_results ;;
    rows <- torch stack_call (stack x) ;;
    dataset <- torch transpose_call (Ok (transpose (observations rows) rows)) ;;
    shapes <- LearnableAutoEncoder number_of_layers (length dataset)
                intermediate_basis_count ;;
    _ <- torch to_device_call (Ok tt) ;;
    m <- torch Adam_call (Ok (new_net B nonlinear_subspace shapes autoencoder_lr)) ;;
    m <- fit B m dataset reduction_mean training_epochs early_stopping_epochs ;;
    ret {| layers := weights B m; origin := optimized_parameters_vector |}.

Definition calculate_directions (self : t) : traced Subspace :=
  create_learnable_directions (_intermediate_parameters self)
    (_optimized_parameters self) (learnable_model_device self)
    (early_stopping_epochs self) (training_epochs self) (autoencoder_lr self)
    (number_of_layers self) (intermediate_basis_count self).

End Kernels.

End LearnableNonlinearDirections.

(** ** What a run of the training loop observes *)

Section Observations.

Variable B : backend.
Variable m : net B.
Variable dataset : matrix.
Variable criterion : reduction.

(** The net after [n] epochs. *)
Fixpoint net_after (n : nat) : net B :=
  match n with
  | O => m
  | S k => fst (train_epoch B (net_after k) dataset criterion)
  end.

(** [loss.item()] of epoch [n], as the kernel returns it. *)
Definition loss_item_at (n : nat) : float :=
  snd (train_epoch B (net_after n) dataset criterion).

(** The state dictionary copied in epoch [n]: the one after the step. *)
Definition checkpoint_at (n : nat) : list matrix :=
  state_dict B (net_after (S n)).

(** The bookkeeping after [n] epochs when the early-stopping test is left
    out. *)
Definition tracked (n : nat) : progress B :=
  fold_left (fun p epoch => run_epoch dataset criterion epoch p)
            (range (Z.of_nat n)) (start B m).

(** The bookkeeping after [n] epochs has recorded nothing yet. *)
Definition nothing_recorded (n : nat) (p : progress B) : Prop :=
  best_model_state_dict p = None /\ best_loss p = PInf /\
  best_epoch p = 0%Z /\
  forall k, (k < n)%nat -> flt (loss_item_at k) PInf = false.

(** The early-stopping test of epoch [k]. *)
Definition stops (early_stopping_epochs : Z) (k : nat) : bool :=
  (Z.of_nat k - best_epoch (tracked (S k)) >=? early_stopping_epochs)%Z.

End Observations.

(** Among the first [n] epochs, [b] is the first one of lowest loss: it
    improved on the initial infinity, no epoch has a loss below its own,
    and every earlier epoch has a higher loss or a nan. *)
Definition lowest_loss_epoch (loss : nat -> float) (n b : nat) : Prop :=
  (b < n)%nat /\
  flt (loss b) PInf = true /\
  (forall k, (k < n)%nat -> flt (loss k) (loss b) = false) /\
  (forall k, (k < b)%nat -> flt (loss b) (loss k) = true \/ loss k = NaN).

(** The bookkeeping after [n] epochs holds epoch [b], its loss and its
    checkpoint, and [b] is the first epoch of lowest loss. *)
Definition recorded (B : backend) (m : net B) (dataset : matrix)
  (criterion : reduction) (n b : nat) (p : progress B) : Prop :=
  lowest_loss_epoch (loss_item_at B m dataset criterion) n b /\
  best_epoch p = Z.of_nat b /\
  best_loss p = loss_item_at B m dataset criterion b /\
  best_model_state_dict p = Some (checkpoint_at B m dataset criterion b).

(** ** The run the specification describes

    The early-stopping test of epoch [k] read off the losses alone:
    [epoch - best_epoch >= early_stopping_epochs], the best epoch being the
    first epoch of lowest loss so far, or 0 while no loss has been
    recorded. *)
Definition patience_exhausted (loss : nat -> float)
  (early_stopping_epochs : Z) (k : nat) : Prop :=
  (exists b, lowest_loss_epoch loss (S k) b /\
             (early_stopping_epochs <= Z.of_nat k - Z.of_nat b)%Z) \/
  ((forall j, (j <= k)%nat -> flt (loss j) PInf = false) /\
   (early_stopping_epochs <= Z.of_nat k)%Z).

(** [n] epochs are run when the loop stops as soon as the test succeeds:
    at most [training_epochs]; the test failed in every epoch but the
    last; and when fewer than [training_epochs] were run, the test
    succeeded in the last one. *)
Definition stops_as_soon_as (loss : nat -> float)
  (training_epochs early_stopping_epochs : Z) (n : nat) : Prop :=
  (n <= Z.to_nat training_epochs)%nat /\
  (forall k, (S k < n)%nat ->
             ~ patience_exhausted loss early_stopping_epochs k) /\
  ((n < Z.to_nat training_epochs)%nat ->
   exists j, n = S j /\ patience_exhausted loss early_stopping_epochs j).

(** The number of training epochs in the calls of a run. *)
Definition epochs_trained (calls : list torch_call) : nat :=
  length (filter (fun c => match c with
                           | train_epochs_call => true
                           | _ => false
                           end) calls).

(** A run that trains [m] on [dataset] stops early and returns the best
    checkpoint: the loop stops as soon as the test succeeds, and what is
    returned is built, by [wrap], from the weights of the model with the
    checkpoint of the first epoch of lowest loss loaded. When no epoch
    recorded a loss there is no checkpoint, and the reload raises. *)
Definition early_stopped_at_best {A} (B : backend) (m : net B)
  (dataset : matrix) (criterion : reduction)
  (training_epochs early_stopping_epochs : Z) (wrap : list matrix -> A)
  (run : traced A) : Prop :=
  let loss := loss_item_at B m dataset criterion in
  let n := epochs_trained (trace run) in
  stops_as_soon_as loss training_epochs early_stopping_epochs n /\
  ((exists b,
      lowest_loss_epoch loss n b /\
      result run
      = Ok (wrap (weights B
                    (load_state_dict B (net_after B m dataset criterion n)
                       (checkpoint_at B m dataset criterion b))))) \/
   ((forall k, (k < n)%nat -> flt (loss k) PInf = false) /\
    result run = Raise TypeError)).

(** The reload at the end of a run that trains [m] on [dataset] needs a
    recorded loss: the last call of the run is the reload, and it fails
    exactly when none of the epochs run had a loss below infinity; so it
    fails when no epoch is run and when every loss is a nan, and a run
    that returns has run an epoch with a loss below infinity. *)
Definition reload_fails_without_a_loss {A} (B : backend) (m : net B)
  (dataset : matrix) (criterion : reduction) (training_epochs : Z)
  (run : traced A) : Prop :=
  let loss := loss_item_at B m dataset criterion in
  let n := epochs_trained (trace run) in
  (exists before, trace run = before ++ [load_state_dict_call]) /\
  (result run = Raise TypeError <->
   forall k, (k < n)%nat -> flt (loss k) PInf = false) /\
  ((training_epochs <= 0)%Z -> result run = Raise TypeError) /\
  ((forall k, loss k = NaN) -> result run = Raise TypeError) /\
  (forall a, result run = Ok a ->
     (0 < training_epochs)%Z /\
     exists k, (k < n)%nat /\ flt (loss k) PInf = true).

(** ** The shapes of a truncated decomposition

    [torch.svd_lowrank(A, q)] returns a [V] with a row per column of [A]
    and as many columns as the rank allows: [q], and no more than [A] has
    rows or columns. *)
Definition lowrank_shapes (B : backend) : Prop :=
  forall (A : matrix) (q : nat) (U : matrix) (S : list Q) (V : matrix),
    svd_lowrank B A q = Ok (U, S, V) ->
    length V = observations A /\
    forall row, In row V ->
      length row = Nat.min q (Nat.min (length A) (observations A)).

(** ** Kernels for examples

    Exact on diagonal matrices without nan or infinity: the eigenvalues
    are the diagonal and the eigenvectors the unit vectors. The truncated
    decomposition returns unit vectors, as many as the rank allows. The
    net counts the epochs it has been trained for and reads its losses
    from a script. *)

Definition unit_vector (n i : nat) : vector :=
  map (fun j => if (j =? i)%nat then 1 else 0) (seq 0 n).

Definition diagonal (m : matrix) : list Q :=
  map (fun i => nth i (nth i m []) 0) (seq 0 (length m)).

Definition unit_columns (n : nat) (idx : list nat) : matrix :=
  map (fun r => map (fun i => if (r =? i)%nat then 1 else 0) idx) (seq 0 n).

Definition finite (x : float) : outcome Q :=
  match x with
  | Fin q => Ok q
  | _ => Raise RuntimeError
  end.

Definition finite_matrix (c : covariance) : outcome matrix :=
  match c with
  | zero_dim _ => Raise RuntimeError
  | two_dim rows => omap (omap finite) rows
  end.

Definition scripted (losses : list float) : backend :=
  {| eigh := fun c =>
       obind (finite_matrix c)
             (fun m => Ok (diagonal m,
                           unit_columns (length m) (seq 0 (length m))));
     lobpcg := fun c largest k =>
       obind (finite_matrix c)
             (fun m =>
                let idx := firstn k (sort_indices (diagonal m)) in
                Ok (map (fun i => nth i (diagonal m) 0) idx,
                    unit_columns (length m) idx));
     svd_lowrank := fun m q =>
       let rank := Nat.min q (Nat.min (length m) (observations m)) in
       Ok ([], [], unit_columns (observations m) (seq 0 rank));
     to_float32 := fun q => q;
     net := nat;
     new_net := fun _ _ _ => O;
     train_epoch := fun n _ _ => (S n, nth n losses NaN);
     state_dict := fun n => [[[inject_Z (Z.of_nat n)]]];
     load_state_dict := fun n sd =>
       match sd with
       | [[[q]]] => Z.to_nat (Qnum q)
       | _ => n
       end;
     weights := fun n => [[[inject_Z (Z.of_nat n)]]] |}.

(** The order along which [sort_desc] arranges its pairs. *)
Definition ge_fst (a b : Q * nat) : Prop := fst b <= fst a.

(** ** Flat views

    The vector a parameter set flattens to, and the difference of two
    vectors of one length. *)

Definition flat (parameters : ParameterSet) : vector :=
  concat (map (@data Q) parameters).

Definition vminus (a b : vector) : vector :=
  map (fun p => fst p - snd p) (combine a b).

(** ** Two runs over one trajectory

    An entry carries a snapshot, the loss paired with it in a first run
    and the loss paired with it in a second run. *)

Definition snapshot_of (e : ParameterSet * float * float) : ParameterSet :=
  fst (fst e).

Definition first_run (e : ParameterSet * float * float)
  : ParameterSet * float := (fst (fst e), snd (fst e)).

Definition second_run (e : ParameterSet * float * float)
  : ParameterSet * float := (fst (fst e), snd e).

(** ** RandomDirections

    The random generator is a state from which one standard normal sample
    is drawn at a time; [randn] draws as many samples as the size has
    elements. *)

Module RandomDirections.

Import Normalizer.

Record t : Type := {
  _optimized_parameters : list (tensor R)
}.

(** [model] stands for [[*model.parameters()]]. *)
Definition init (optimized_parameters model : option (list (tensor R)))
  : outcome t :=
  let optimized_parameters :=
    match model, optimized_parameters with
    | Some m, None => Some m
    | _, _ => optimized_parameters
    end in
  match optimized_parameters with
  | None => Raise ValueError
  | Some p => Ok {| _optimized_parameters := p |}
  end.

Section Generator.

Variable rng : Type.
Variable normal : rng -> R * rng.

Fixpoint draws (n : nat) (g : rng) : list R * rng :=
  match n with
  | O => ([], g)
  | S k =>
      let (x, g1) := normal g in
      let (xs, g2) := draws k g1 in
      (x :: xs, g2)
  end.

Definition randn (size : list nat) (g : rng) : tensor R * rng :=
  let (xs, g') := draws (prod size) g in
  ({| shape := size; data := xs |}, g').

Fixpoint get_random_parameters (parameters : list (tensor R)) (g : rng)
  : list (tensor R) * rng :=
  match parameters with
  | [] => ([], g)
  | w :: ws =>
      let (d, g1) := randn (shape w) g in
      let (ds, g2) := get_random_parameters ws g1 in
      (d :: ds, g2)
  end.

Definition create_random_direction_from_parameters
  (parameters : list (tensor R)) (apply_filter_normalization : bool) (g : rng)
  : outcome (list (tensor R)) * rng :=
  let (direction, g') := get_random_parameters parameters g in
  if apply_filter_normalization
  then (normalize_direction_using_params direction parameters, g')
  else (Ok direction, g').

Definition create_random_directions_from_parameters
  (model_parameters : list (tensor R)) (apply_normalization : bool) (g : rng)
  : outcome (list (tensor R) * list (tensor R)) * rng :=
  let (x, g1) :=
    create_random_direction_from_parameters model_parameters
      apply_normalization g in
  match x with
  | Raise e => (Raise e, g1)
  | Ok x_direction =>
      let (y, g2) :=
        create_random_direction_from_parameters model_parameters
          apply_normalization g1 in
      (obind y (fun y_direction => Ok (x_direction, y_direction)), g2)
  end.

Definition calculate_directions (self : t) (apply_normalization : bool)
  (g : rng) : outcome (list (tensor R) * list (tensor R)) * rng :=
  create_random_directions_from_parameters (_optimized_parameters self)
    apply_normalization g.

End Generator.

(** The static [normalize_direction] of the class works on tensors that
    live on a device. [direction_i.to(device)] is the tensor itself when
    it is on that device already and a copy otherwise, so the in-place
    [mul_] reaches the caller's tensor only in the first case. The
    embedding returns the caller's list as it is after the call. *)

Record placed : Type := {
  on : device;
  value : tensor R
}.

Definition device_eqb (a b : device) : bool :=
  match a, b with
  | cpu, cpu | cuda, cuda => true
  | _, _ => false
  end.

(** [t.norm()]: the norm of all the elements. *)
Definition whole_norm (x : tensor R) : R := slice_norm (data x).

Definition scale (f : R) (x : tensor R) : tensor R :=
  {| shape := shape x; data := map (fun e => (e * f)%R) (data x) |}.

Fixpoint normalize_direction (direction parameters : list placed)
  : outcome (list placed) :=
  match direction, parameters with
  | direction_i :: ds, parameters_i :: ps =>
      obind (checked_div (whole_norm (value parameters_i))
                         (whole_norm (value direction_i) + eps)%R)
            (fun f =>
               obind (normalize_direction ds ps)
                     (fun rest =>
                        Ok ((if device_eqb (on direction_i) (on parameters_i)
                             then {| on := on direction_i;
                                     value := scale f (value direction_i) |}
                             else direction_i) :: rest)))
  | _, _ => Ok direction
  end.

End RandomDirections.

(** ** The projections of the linear chain

    [project_to_visualization_space], [project_to_original_space] and
    [reconstruction] of [LearnableDirections]. The embedding covers
    2-dimensional operands, as the builder creates them; a product of
    tensors of other ranks is answered with [RuntimeError]. The activation
    is any function on tensors. *)

Module LearnableProjections.

(** The rows of a 2-dimensional tensor. *)
Definition rows (x : tensor Q) : matrix :=
  match shape x with
  | [n; k] => chunks n k (data x)
  | _ => []
  end.

(** [a @ b] for two matrices, the operands of every product of the
    projections when the input is a matrix; the products torch defines
    for vectors and batches are outside the model. *)
Definition matmul (a b : tensor Q) : outcome (tensor Q) :=
  match shape a, shape b with
  | [n; k], [k'; m] =>
      if (k =? k')%nat then
        Ok {| shape := [n; m];
              data := concat
                        (map (fun r =>
                                map (fun j => dot r (column j (rows b)))
                                    (seq 0 m))
                             (rows a)) |}
      else Raise RuntimeError
  | _, _ => Raise RuntimeError
  end.

(** [w.t()] *)
Definition transposed (w : tensor Q) : tensor Q :=
  match shape w with
  | [n; k] => {| shape := [k; n]; data := concat (transpose k (rows w)) |}
  | _ => w
  end.

(** [weights[-1]] *)
Fixpoint last_item {A} (l : list A) : outcome A :=
  match l with
  | [] => Raise IndexError
  | [a] => Ok a
  | _ :: l' => last_item l'
  end.

(** The loop [for weight in weights[:-1]: x = activation(x @ weight)],
    the weight being used as it is or transposed. *)
Fixpoint hidden_layers (oriented : tensor Q -> tensor Q)
  (activation : tensor Q -> tensor Q) (x : tensor Q)
  (weights : list (tensor Q)) : outcome (tensor Q) :=
  match weights with
  | [] => Ok x
  | weight :: rest =>
      obind (matmul x (oriented weight))
            (fun y => hidden_layers oriented activation (activation y) rest)
  end.

(** The loop over all weights but the last, then the last product, which
    is not followed by the activation. *)
Definition run_layers (oriented : tensor Q -> tensor Q)
  (activation : tensor Q -> tensor Q) (x : tensor Q)
  (weights : list (tensor Q)) : outcome (tensor Q) :=
  obind (hidden_layers oriented activation x (removelast weights))
        (fun x => obind (last_item weights)
                        (fun weight => matmul x (oriented weight))).

Definition project_to_original_space (x : tensor Q)
  (weights : list (tensor Q)) (activation : tensor Q -> tensor Q)
  : outcome (tensor Q) :=
  let weights := rev weights in
  run_layers (fun weight => weight) activation x weights.

Definition project_to_visualization_space (x : tensor Q)
  (weights : list (tensor Q)) (activation : tensor Q -> tensor Q)
  : outcome (tensor Q) :=
  run_layers transposed activation x weights.

Definition reconstruction (x : tensor Q) (weights : list (tensor Q))
  (activation : tensor Q -> tensor Q) : outcome (tensor Q) :=
  obind (project_to_visualization_space x weights activation)
        (fun projected =>
           project_to_original_space projected weights activation).

(** Weights that telescope from [columns] columns: each weight has as
    many columns as the one before has rows. *)
Fixpoint telescopes (columns : nat) (weights : list (tensor Q)) : Prop :=
  match weights with
  | [] => True
  | w :: ws => exists r, shape w = [r; columns] /\ telescopes r ws
  end.

(** The number of rows of the last weight. *)
Fixpoint bottleneck (columns : nat) (weights : list (tensor Q)) : nat :=
  match weights with
  | [] => columns
  | w :: ws => bottleneck (nth 0 (shape w) 0%nat) ws
  end.

(** Matrices that can be multiplied one after the other onto an input of
    [columns] columns, and the number of columns of the result. *)
Fixpoint links (columns : nat) (ms : list (tensor Q)) : Prop :=
  match ms with
  | [] => True
  | m :: ms' => exists c, shape m = [columns; c] /\ links c ms'
  end.

Fixpoint width (columns : nat) (ms : list (tensor Q)) : nat :=
  match ms with
  | [] => columns
  | m :: ms' => width (nth 1 (shape m) 0%nat) ms'
  end.

End LearnableProjections.

(** * Properties *)

(** ** The monad of traced computations *)

Lemma bind_raise {A B} (t : list torch_call) (e : exn) (f : A -> traced B) :
  bind (t, Raise e) f = (t, Raise e).
Proof. reflexivity. Qed.

Lemma drop_loss_pairs (l : list (ParameterSet * float)) :
  drop_loss (SnapshotsWithLoss l) = map fst l.
Proof.
  unfold drop_loss. apply map_ext. intros [p x]. reflexivity.
Qed.

(** ** Empty trajectories *)

(** C7: each of the four builders that take a trajectory refuses an empty
    one in its constructor with [ValueError], and has made no call into the
    tensor library by then. *)
Theorem empty_trajectory_rejected_at_construction
  (optimized_parameters : ParameterSet) (intermediate_parameters : trajectory)
  (dev : device) (number_of_layers training_epochs early_stopping_epochs : Z)
  (autoencoder_lr : Q) (intermediate_basis_count : list nat)
  (activation : Q -> Q) :
  len intermediate_parameters = 0%nat ->
  PcaDirections.init optimized_parameters intermediate_parameters dev
    = ([], Raise ValueError) /\
  SvdDirections.init optimized_parameters intermediate_parameters
    = ([], Raise ValueError) /\
  LearnableDirections.init optimized_parameters intermediate_parameters dev
      number_of_layers autoencoder_lr training_epochs early_stopping_epochs
      intermediate_basis_count activation
    = ([], Raise ValueError) /\
  LearnableNonlinearDirections.init optimized_parameters
      intermediate_parameters dev number_of_layers autoencoder_lr
      training_epochs early_stopping_epochs intermediate_basis_count
      activation
    = ([], Raise ValueError).
Proof.
  intros Hlen.
  unfold PcaDirections.init, SvdDirections.init, LearnableDirections.init,
    LearnableNonlinearDirections.init.
  rewrite Hlen. simpl. repeat split.
Qed.

Lemma empty_trajectory_rejected_at_construction_witness :
  PcaDirections.init [] (SnapshotsWithLoss []) cpu = ([], Raise ValueError) /\
  SvdDirections.init [] (SnapshotsWithLoss []) = ([], Raise ValueError) /\
  LearnableDirections.init [] (SnapshotsWithLoss []) cpu 3 (1 # 100) 1000 250
      [64%nat; 32%nat] (fun x => x)
    = ([], Raise ValueError) /\
  LearnableNonlinearDirections.init [] (SnapshotsWithLoss []) cpu 3 (1 # 100)
      1000 250 [64%nat; 32%nat] (fun x => x)
    = ([], Raise ValueError).
Proof.
  apply (@empty_trajectory_rejected_at_construction [] (SnapshotsWithLoss [])
           cpu 3 1000 250 (1 # 100) [64%nat; 32%nat] (fun x => x)).
  reflexivity.
Defined.

(** ** The losses of a trajectory do not reach the directions *)

Section Noninterference.

Variable B : backend.

Lemma drop_loss_first_run l :
  drop_loss (SnapshotsWithLoss (map first_run l)) = map snapshot_of l.
Proof. rewrite drop_loss_pairs, map_map. reflexivity. Qed.

Lemma drop_loss_second_run l :
  drop_loss (SnapshotsWithLoss (map second_run l)) = map snapshot_of l.
Proof. rewrite drop_loss_pairs, map_map. reflexivity. Qed.


(** C9: two runs of a builder on trajectories that differ only in their
    losses return the same thing, and the same as the run on the bare
    snapshots. Each entry of [l] is a snapshot with the loss of the first
    run and the loss of the second. *)
Theorem losses_do_not_influence_directions
  (optimized_parameters : ParameterSet)
  (l : list (ParameterSet * float * float)) (dev : device)
  (number_of_layers training_epochs early_stopping_epochs : Z)
  (autoencoder_lr : Q) (intermediate_basis_count : list nat)
  (activation : Q -> Q) :
  let run1 := SnapshotsWithLoss (map first_run l) in
  let run2 := SnapshotsWithLoss (map second_run l) in
  let bare := Snapshots (map snapshot_of l) in
  let pca := fun t =>
    bind (PcaDirections.init optimized_parameters t dev)
         (PcaDirections.calculate_directions B) in
  let svd := fun t =>
    bind (SvdDirections.init optimized_parameters t)
         (SvdDirections.calculate_directions B) in
  let learnable := fun t =>
    bind (LearnableDirections.init optimized_parameters t dev
            number_of_layers autoencoder_lr training_epochs
            early_stopping_epochs intermediate_basis_count activation)
         (LearnableDirections.calculate_directions B) in
  let nonlinear := fun t =>
    bind (LearnableNonlinearDirections.init optimized_parameters t dev
            number_of_layers autoencoder_lr training_epochs
            early_stopping_epochs intermediate_basis_count activation)
         (LearnableNonlinearDirections.calculate_directions B) in
  (pca run1 = pca run2 /\ pca run1 = pca bare) /\
  (svd run1 = svd run2 /\ svd run1 = svd bare) /\
  (learnable run1 = learnable run2 /\ learnable run1 = learnable bare) /\
  (nonlinear run1 = nonlinear run2 /\ nonlinear run1 = nonlinear bare).
Proof.
  intros run1 run2 bare pca svd learnable nonlinear.
  assert (H1 : drop_loss run1 = drop_loss bare)
    by (apply drop_loss_first_run).
  assert (H2 : drop_loss run2 = drop_loss bare)
    by (apply drop_loss_second_run).
  assert (L1 : len run1 = len bare)
    by (unfold run1, bare; simpl; now rewrite !length_map).
  assert (L2 : len run2 = len bare)
    by (unfold run2, bare; simpl; now rewrite !length_map).
  unfold pca, svd, learnable, nonlinear, PcaDirections.init,
    SvdDirections.init, LearnableDirections.init,
    LearnableNonlinearDirections.init.
  rewrite H1, H2, L1, L2. repeat split.
Qed.

End Noninterference.

(** ** Validation of the basis counts *)

Section BasisCounts.

Variable B : backend.

(** The nonlinear builder tests the count before it touches a tensor. *)
Lemma nonlinear_mismatch_raised_up_front
  (intermediate_results : list ParameterSet) (parameters : ParameterSet)
  (dev : device) (early_stopping_epochs training_epochs : Z)
  (autoencoder_lr : Q) (number_of_layers : Z)
  (intermediate_basis_count : list nat) :
  intermediate_results <> [] ->
  Z.of_nat (length intermediate_basis_count) <> (number_of_layers - 1)%Z ->
  LearnableNonlinearDirections.create_learnable_directions B
    intermediate_results parameters dev early_stopping_epochs training_epochs
    autoencoder_lr number_of_layers intermediate_basis_count
  = ([], Raise ValueError).
Proof.
  intros Hne Hlen.
  unfold LearnableNonlinearDirections.create_learnable_directions.
  destruct intermediate_results as [|r rs]; [congruence|]. simpl.
  apply Z.eqb_neq in Hlen. rewrite Hlen. reflexivity.
Qed.

(** The linear-chain builder has flattened the optimized parameters before
    anything else can stop it. *)
Lemma linear_starts_with_tensor_work
  (intermediate_results : list ParameterSet) (parameters : ParameterSet)
  (dev : device) (early_stopping_epochs training_epochs : Z)
  (autoencoder_lr : Q) (number_of_layers : Z)
  (intermediate_basis_count : list nat) :
  intermediate_results <> [] ->
  exists rest,
    trace (LearnableDirections.create_learnable_directions B
             intermediate_results parameters dev early_stopping_epochs
             training_epochs autoencoder_lr number_of_layers
             intermediate_basis_count)
    = parameters_to_vector_call :: rest.
Proof.
  intros Hne.
  unfold LearnableDirections.create_learnable_directions.
  destruct intermediate_results as [|r rs]; [congruence|].
  cbn [length Nat.eqb].
  unfold torch at 1, bind at 1.
  destruct (parameters_to_vector parameters) as [v|e].
  - match goal with
    | |- context [let (t', r) := ?X in _] => destruct X as [t' r']
    end.
    eexists. reflexivity.
  - eexists. reflexivity.
Qed.

(** C4: for one snapshot of two parameters, three layers and a single
    basis count, the linear-chain builder flattens, centres and stacks the
    trajectory before the assertion of its autoencoder fails, while the
    nonlinear builder raises [ValueError] with an empty trace. *)
Theorem basis_count_mismatch_linear_fails_late :
  let snapshot := [{| shape := [2%nat]; data := [1; 2] |}] in
  let parameters := [{| shape := [2%nat]; data := [0; 0] |}] in
  LearnableDirections.create_learnable_directions B [snapshot] parameters cpu
    250 1000 (1 # 100) 3 [64%nat]
  = ([parameters_to_vector_call; parameters_to_vector_call; sub_call;
      to_device_call; stack_call], Raise AssertionError) /\
  LearnableNonlinearDirections.create_learnable_directions B [snapshot]
    parameters cpu 100 1000 (1 # 100) 3 [64%nat]
  = ([], Raise ValueError).
Proof.
  split; reflexivity.
Qed.

End BasisCounts.

(** ** Comparison of losses *)

Lemma flt_Fin (a b : Q) : flt (Fin a) (Fin b) = true <-> a < b.
Proof.
  simpl. rewrite negb_true_iff. split; intro H.
  - apply Qnot_le_lt. intro Hc. apply Qle_bool_iff in Hc. congruence.
  - destruct (Qle_bool b a) eqn:E; [|reflexivity].
    apply Qle_bool_iff in E. exfalso. apply (Qlt_not_le _ _ H E).
Qed.

Lemma flt_irrefl (x : float) : flt x x = false.
Proof.
  destruct x as [a| | |]; try reflexivity.
  destruct (flt (Fin a) (Fin a)) eqn:E; [|reflexivity].
  apply flt_Fin in E. exfalso. apply (Qlt_irrefl _ E).
Qed.

Lemma flt_trans (x y z : float) :
  flt x y = true -> flt y z = true -> flt x z = true.
Proof.
  destruct x as [a| | |], y as [b| | |], z as [c| | |];
    try discriminate; try reflexivity.
  rewrite !flt_Fin. apply Qlt_trans.
Qed.

(** Below a value and not above another: the other one is a nan or lies
    above too. *)
Lemma flt_below (x y z : float) :
  flt x y = true -> flt z y = false -> z = NaN \/ flt x z = true.
Proof.
  destruct x as [a| | |], y as [b| | |], z as [c| | |];
    try discriminate; auto.
  intros Hab Hcb. right. apply flt_Fin. apply flt_Fin in Hab.
  destruct (Qlt_le_dec c b) as [Hlt|Hle].
  - apply flt_Fin in Hlt. congruence.
  - eapply Qlt_le_trans; eauto.
Qed.

Lemma flt_PInf_false (x : float) :
  flt x PInf = false -> x = PInf \/ x = NaN.
Proof. destruct x; simpl; intros; try discriminate; auto. Qed.

Lemma flt_NaN_l (x : float) : flt NaN x = false.
Proof. reflexivity. Qed.

Lemma flt_NaN_r (x : float) : flt x NaN = false.
Proof. destruct x; reflexivity. Qed.

Lemma lowest_loss_epoch_unique (loss : nat -> float) (n b1 b2 : nat) :
  lowest_loss_epoch loss n b1 -> lowest_loss_epoch loss n b2 -> b1 = b2.
Proof.
  assert (Hlt : forall a b, lowest_loss_epoch loss n a ->
                 lowest_loss_epoch loss n b -> (a < b)%nat -> False).
  { intros a b (Ha & Hai & Hamin & _) (Hb & _ & _ & Hbfirst) Hab.
    destruct (Hbfirst a Hab) as [H|H].
    - rewrite (Hamin b Hb) in H. discriminate.
    - rewrite H in Hai. discriminate. }
  intros H1 H2.
  destruct (Nat.lt_trichotomy b1 b2) as [H|[H|H]]; auto.
  - exfalso. eapply Hlt; [exact H1|exact H2|exact H].
  - exfalso. eapply Hlt; [exact H2|exact H1|exact H].
Qed.

Lemma epochs_trained_app (l1 l2 : list torch_call) :
  epochs_trained (l1 ++ l2) = (epochs_trained l1 + epochs_trained l2)%nat.
Proof. unfold epochs_trained. now rewrite filter_app, length_app. Qed.

Lemma epochs_trained_repeat (n : nat) :
  epochs_trained (repeat train_epochs_call n) = n.
Proof.
  unfold epochs_trained. induction n as [|n IH]; [reflexivity|].
  simpl. now rewrite IH.
Qed.

Lemma epochs_trained_none (l : list torch_call) :
  ~ In train_epochs_call l -> epochs_trained l = 0%nat.
Proof.
  unfold epochs_trained. induction l as [|c l IH]; intros H; [reflexivity|].
  simpl. destruct c; try (apply IH; intros Hin; apply H; now right).
  exfalso. apply H. now left.
Qed.

(** [epoch_loss = 0] followed by [epoch_loss += loss.item()] leaves the
    loss of the epoch as the kernel returned it. *)
Lemma fadd_zero (x : float) : fadd (Fin 0) x = x.
Proof.
  destruct x as [[n d]| | |]; try reflexivity.
  unfold fadd, Qplus. cbn [Qnum Qden]. f_equal.
  rewrite Z.mul_0_l, Z.add_0_l, Z.mul_1_r, Pos.mul_1_l. reflexivity.
Qed.

(** ** The training loop *)

Section Loop.

Variable B : backend.
Variable m : net B.
Variable dataset : matrix.
Variable criterion : reduction.

Local Abbreviation loss := (loss_item_at B m dataset criterion).
Local Abbreviation after := (tracked B m dataset criterion).
Local Abbreviation nothing_recorded := (@nothing_recorded B m dataset criterion).
Local Abbreviation recorded := (@recorded B m dataset criterion).
Local Abbreviation stops := (@stops B m dataset criterion).

Lemma range_S (n : nat) :
  range (Z.of_nat (S n)) = range (Z.of_nat n) ++ [Z.of_nat n].
Proof.
  unfold range. rewrite !Nat2Z.id, seq_S, map_app. reflexivity.
Qed.

Lemma tracked_S (n : nat) :
  after (S n) = run_epoch dataset criterion (Z.of_nat n) (after n).
Proof.
  unfold tracked. rewrite range_S, fold_left_app. reflexivity.
Qed.

Lemma tracked_model (n : nat) :
  model (after n) = net_after B m dataset criterion n.
Proof.
  induction n as [|n IH]; [reflexivity|].
  rewrite tracked_S. unfold run_epoch. rewrite IH. simpl.
  destruct (train_epoch B (net_after B m dataset criterion n) dataset criterion)
    as [m' l].
  match goal with
  | |- context [if ?c then _ else _] => destruct c
  end; reflexivity.
Qed.

Lemma run_epoch_fields (n : nat) :
  let p := after n in
  let p' := after (S n) in
  (flt (loss n) (best_loss p) = true /\
   best_epoch p' = Z.of_nat n /\ best_loss p' = loss n /\
   best_model_state_dict p'
     = Some (checkpoint_at B m dataset criterion n)) \/
  (flt (loss n) (best_loss p) = false /\
   best_epoch p' = best_epoch p /\ best_loss p' = best_loss p /\
   best_model_state_dict p' = best_model_state_dict p).
Proof.
  intros p p'. unfold p'. rewrite tracked_S. fold p.
  pose proof (tracked_model n) as Hm. fold p in Hm.
  unfold run_epoch, loss_item_at, checkpoint_at.
  cbn [net_after]. rewrite <- Hm.
  destruct (train_epoch B (model p) dataset criterion) as [m' l].
  cbn [fst snd]. rewrite fadd_zero.
  destruct (flt l (best_loss p)) eqn:E; cbn; auto.
Qed.

Lemma tracked_invariant (n : nat) :
  nothing_recorded n (after n) \/ exists b, recorded n b (after n).
Proof.
  induction n as [|n IH].
  - left. repeat split; try reflexivity. intros k Hk. lia.
  - destruct (run_epoch_fields n) as [(Hlt & He & Hl & Hs)|(Hlt & He & Hl & Hs)].
    + right. exists n. split; [|now repeat split].
      destruct IH as [(_ & Hbl & _ & Hall)|(b & (Hb & Hbi & Hmin & Hfirst) & _ & Hbl & _)].
      * rewrite Hbl in Hlt.
        split; [lia|]. split; [exact Hlt|]. split.
        -- intros k Hk. destruct (Nat.eq_dec k n) as [->|Hne].
           ++ apply flt_irrefl.
           ++ destruct (flt_PInf_false (loss k)) as [H|H];
                [apply Hall; lia| |]; rewrite H;
                destruct (loss n); reflexivity.
        -- intros k Hk.
           destruct (flt_PInf_false (loss k)) as [H|H];
             [apply Hall; lia| |]; rewrite H; auto.
      * rewrite Hbl in Hlt.
        split; [lia|]. split.
        { eapply flt_trans; eauto. }
        split.
        -- intros k Hk. destruct (Nat.eq_dec k n) as [->|Hne].
           ++ apply flt_irrefl.
           ++ destruct (flt (loss k) (loss n)) eqn:E; [|reflexivity].
              specialize (Hmin k ltac:(lia)).
              rewrite (flt_trans _ _ _ E Hlt) in Hmin. discriminate.
        -- intros k Hk.
           destruct (flt_below _ _ _ Hlt (Hmin k ltac:(lia))) as [H|H]; auto.
    + destruct IH as [(Hsd & Hbl & Hbe & Hall)|(b & (Hb & Hbi & Hmin & Hfirst) & Hbe & Hbl & Hsd)].
      * left. rewrite Hbl in Hlt.
        repeat split; try congruence.
        intros k Hk. destruct (Nat.eq_dec k n) as [->|Hne]; [exact Hlt|].
        apply Hall. lia.
      * right. exists b. rewrite Hbl in Hlt.
        split; [|repeat split; congruence].
        split; [lia|]. split; [exact Hbi|]. split; [|exact Hfirst].
        intros k Hk. destruct (Nat.eq_dec k n) as [->|Hne]; [exact Hlt|].
        apply Hmin. lia.
Qed.

Lemma for_epochs_from (early_stopping_epochs : Z) (count k : nat) :
  let pe := for_epochs early_stopping_epochs dataset criterion
              (map Z.of_nat (seq k count)) (after k) in
  (snd pe = Exhausted /\ fst pe = after (k + count) /\
   forall j, (k <= j < k + count)%nat -> stops early_stopping_epochs j = false)
  \/
  (exists j, (k <= j < k + count)%nat /\ snd pe = Break (Z.of_nat j) /\
     fst pe = after (S j) /\ stops early_stopping_epochs j = true /\
     forall i, (k <= i < j)%nat -> stops early_stopping_epochs i = false).
Proof.
  revert k. induction count as [|count IH]; intros k pe.
  - left. unfold pe. simpl. rewrite Nat.add_0_r.
    split; [reflexivity|]. split; [reflexivity|]. intros j Hj. lia.
  - unfold pe. simpl. rewrite <- tracked_S.
    destruct (Z.of_nat k - best_epoch (after (S k)) >=? early_stopping_epochs)%Z
      eqn:E.
    + right. exists k. simpl.
      split; [lia|]. split; [reflexivity|]. split; [reflexivity|].
      split; [exact E|]. intros i Hi. lia.
    + destruct (IH (S k)) as [(He & Hp & Hall)|(j & Hj & He & Hp & Hs & Hall)].
      * left. split; [exact He|]. split.
        -- rewrite Hp. f_equal. lia.
        -- intros j Hj. destruct (Nat.eq_dec j k) as [->|Hne]; [exact E|].
           apply Hall. lia.
      * right. exists j.
        split; [lia|]. split; [exact He|]. split; [exact Hp|].
        split; [exact Hs|].
        intros i Hi. destruct (Nat.eq_dec i k) as [->|Hne]; [exact E|].
        apply Hall. lia.
Qed.

Lemma loop_outcome (training_epochs early_stopping_epochs : Z) :
  let pe := for_epochs early_stopping_epochs dataset criterion
              (range training_epochs) (start B m) in
  (snd pe = Exhausted /\ fst pe = after (Z.to_nat training_epochs) /\
   forall j, (j < Z.to_nat training_epochs)%nat ->
             stops early_stopping_epochs j = false)
  \/
  (exists j, (j < Z.to_nat training_epochs)%nat /\
     snd pe = Break (Z.of_nat j) /\ fst pe = after (S j) /\
     stops early_stopping_epochs j = true /\
     forall i, (i < j)%nat -> stops early_stopping_epochs i = false).
Proof.
  intros pe.
  destruct (for_epochs_from early_stopping_epochs (Z.to_nat training_epochs) 0)
    as [(He & Hp & Hall)|(j & Hj & He & Hp & Hs & Hall)].
  - left. split; [exact He|]. split; [exact Hp|].
    intros j Hj. apply Hall. lia.
  - right. exists j. split; [lia|]. split; [exact He|]. split; [exact Hp|].
    split; [exact Hs|]. intros i Hi. apply Hall. lia.
Qed.

Lemma loop_progress (training_epochs early_stopping_epochs : Z) :
  let pe := for_epochs early_stopping_epochs dataset criterion
              (range training_epochs) (start B m) in
  fst pe = after (epochs_run training_epochs (snd pe)).
Proof.
  intros pe.
  destruct (loop_outcome training_epochs early_stopping_epochs)
    as [(He & Hp & _)|(j & _ & He & Hp & _)]; fold pe in He, Hp;
    rewrite He, Hp; simpl; [reflexivity|].
  now rewrite Nat2Z.id.
Qed.

Lemma epochs_run_positive (training_epochs early_stopping_epochs : Z) :
  let pe := for_epochs early_stopping_epochs dataset criterion
              (range training_epochs) (start B m) in
  (0 < epochs_run training_epochs (snd pe))%nat -> (0 < training_epochs)%Z.
Proof.
  intros pe.
  destruct (loop_outcome training_epochs early_stopping_epochs)
    as [(He & _)|(j & Hj & _)]; [fold pe in He; rewrite He; simpl|]; lia.
Qed.

Lemma fit_result (training_epochs early_stopping_epochs : Z) :
  result (fit B m dataset criterion training_epochs early_stopping_epochs)
  = reload (fst (for_epochs early_stopping_epochs dataset criterion
                   (range training_epochs) (start B m))).
Proof.
  unfold fit.
  destruct (for_epochs early_stopping_epochs dataset criterion
              (range training_epochs) (start B m)) as [p e].
  reflexivity.
Qed.

(** The test of the loop is the test read off the losses. *)
Lemma stops_iff (early_stopping_epochs : Z) (k : nat) :
  stops early_stopping_epochs k = true <->
  patience_exhausted loss early_stopping_epochs k.
Proof.
  unfold stops, patience_exhausted.
  destruct (tracked_invariant (S k))
    as [(_ & _ & He & Hall)|(b & Hlow & He & _)]; rewrite He.
  - split.
    + intros H. apply Z.geb_le in H. right.
      split; [intros j Hj; apply Hall; lia|lia].
    + intros [(b & (Hb & Hbi & _) & _)|[_ H]].
      * rewrite (Hall b Hb) in Hbi. discriminate.
      * apply Z.geb_le. lia.
  - split.
    + intros H. apply Z.geb_le in H. left. exists b. split; [exact Hlow|lia].
    + intros [(b' & Hlow' & H)|[Hall _]].
      * rewrite (lowest_loss_epoch_unique Hlow' Hlow) in H.
        apply Z.geb_le. lia.
      * destruct Hlow as (Hb & Hbi & _).
        rewrite Hall in Hbi by lia. discriminate.
Qed.

(** The calls and the outcome of the loop followed by the reload. *)
Lemma fit_run (training_epochs early_stopping_epochs : Z) :
  exists n,
    fit B m dataset criterion training_epochs early_stopping_epochs
    = (repeat train_epochs_call n ++ [load_state_dict_call],
       reload (after n)) /\
    stops_as_soon_as loss training_epochs early_stopping_epochs n.
Proof.
  pose proof (loop_outcome training_epochs early_stopping_epochs) as Hout.
  pose proof (loop_progress training_epochs early_stopping_epochs) as Hp.
  cbv zeta in Hout, Hp. unfold fit.
  destruct (for_epochs early_stopping_epochs dataset criterion
              (range training_epochs) (start B m)) as [p e].
  cbn [fst snd] in Hout, Hp.
  exists (epochs_run training_epochs e). split.
  - subst p. reflexivity.
  - destruct Hout as [(He & _ & Hall)|(j & Hj & He & _ & Hs & Hall)];
      subst e; cbn [epochs_run].
    + split; [lia|]. split; [|lia].
      intros k Hk Hex. apply stops_iff in Hex.
      rewrite Hall in Hex by lia. discriminate.
    + rewrite Nat2Z.id. split; [lia|]. split.
      * intros k Hk Hex. apply stops_iff in Hex.
        rewrite Hall in Hex by lia. discriminate.
      * intros _. exists j. split; [reflexivity|]. now apply stops_iff.
Qed.

(** What the reload finds after [n] epochs. *)
Lemma reload_after (n : nat) :
  (exists b,
     lowest_loss_epoch loss n b /\
     reload (after n)
     = Ok (load_state_dict B (net_after B m dataset criterion n)
             (checkpoint_at B m dataset criterion b))) \/
  ((forall k, (k < n)%nat -> flt (loss k) PInf = false) /\
   reload (after n) = Raise TypeError).
Proof.
  unfold reload.
  destruct (tracked_invariant n)
    as [(Hsd & _ & _ & Hall)|(b & Hlow & _ & _ & Hsd)]; rewrite Hsd.
  - right. split; [exact Hall|reflexivity].
  - left. exists b. split; [exact Hlow|]. now rewrite tracked_model.
Qed.

(** A run that reaches the loop without training before it, and wraps
    the weights of what the loop hands back. *)
Lemma trained_run_calls (before : list torch_call) (n : nat) :
  epochs_trained before = 0%nat ->
  epochs_trained
    (before ++ repeat train_epochs_call n ++ [load_state_dict_call]) = n.
Proof.
  intros Hb. rewrite !epochs_trained_app, Hb, epochs_trained_repeat.
  cbn. lia.
Qed.

Lemma trained_run_early_stopped {A}
  (training_epochs early_stopping_epochs : Z) (wrap : list matrix -> A)
  (run : traced A) (before : list torch_call) :
  epochs_trained before = 0%nat ->
  run = (before ++ trace (fit B m dataset criterion training_epochs
                            early_stopping_epochs),
         obind (result (fit B m dataset criterion training_epochs
                          early_stopping_epochs))
               (fun m' => Ok (wrap (weights B m')))) ->
  early_stopped_at_best B m dataset criterion training_epochs
    early_stopping_epochs wrap run.
Proof.
  intros Hb ->.
  destruct (fit_run training_epochs early_stopping_epochs)
    as (n & Hfit & Hstop).
  rewrite Hfit. unfold early_stopped_at_best. cbn [trace result fst snd].
  rewrite (trained_run_calls _ n Hb).
  split; [exact Hstop|].
  destruct (reload_after n) as [(b & Hlow & Hr)|(Hall & Hr)]; rewrite Hr.
  - left. exists b. split; [exact Hlow|reflexivity].
  - right. split; [exact Hall|reflexivity].
Qed.

Lemma trained_run_reload {A}
  (training_epochs early_stopping_epochs : Z) (wrap : list matrix -> A)
  (run : traced A) (before : list torch_call) :
  epochs_trained before = 0%nat ->
  run = (before ++ trace (fit B m dataset criterion training_epochs
                            early_stopping_epochs),
         obind (result (fit B m dataset criterion training_epochs
                          early_stopping_epochs))
               (fun m' => Ok (wrap (weights B m')))) ->
  reload_fails_without_a_loss B m dataset criterion training_epochs run.
Proof.
  intros Hb ->.
  destruct (fit_run training_epochs early_stopping_epochs)
    as (n & Hfit & (Hle & _)).
  rewrite Hfit. unfold reload_fails_without_a_loss.
  cbn [trace result fst snd].
  rewrite (trained_run_calls _ n Hb).
  assert (Hiff : obind (reload (after n))
                   (fun m' => Ok (wrap (weights B m'))) = Raise TypeError <->
                 forall k, (k < n)%nat -> flt (loss k) PInf = false).
  { destruct (reload_after n) as [(b & (Hlt & Hbi & _) & Hr)|(Hall & Hr)];
      rewrite Hr; cbn [obind].
    - split; [discriminate|].
      intros Hall. rewrite (Hall b Hlt) in Hbi. discriminate.
    - split; [intros _; exact Hall|reflexivity]. }
  split; [|split; [exact Hiff|split; [|split]]].
  - exists (before ++ repeat train_epochs_call n). now rewrite app_assoc.
  - intros HT. apply Hiff. intros k Hk. lia.
  - intros Hnan. apply Hiff. intros k _. rewrite Hnan. reflexivity.
  - intros a Hok.
    destruct (reload_after n) as [(b & (Hlt & Hbi & _) & _)|(Hall & Hr)].
    + split; [lia|]. exists b. split; assumption.
    + rewrite Hr in Hok. discriminate.
Qed.

End Loop.

(** ** Results of traced computations *)

Lemma result_bind {A B} (m : traced A) (f : A -> traced B) :
  result (bind m f) = obind (result m) (fun a => result (f a)).
Proof.
  destruct m as [t [a|e]]; simpl; [|reflexivity].
  destruct (f a) as [t' r]. reflexivity.
Qed.

Lemma result_torch {A} (c : torch_call) (r : outcome A) :
  result (torch c r) = r.
Proof. reflexivity. Qed.

Lemma result_lift {A} (r : outcome A) : result (lift r) = r.
Proof. reflexivity. Qed.

Lemma result_ret {A} (a : A) : result (ret a) = Ok a.
Proof. reflexivity. Qed.

(** Push [result] through the binds that can already be evaluated. *)
Ltac run_traced :=
  repeat (rewrite ?result_bind, ?result_torch, ?result_lift, ?result_ret;
          progress cbn [obind]).

Lemma result_for_each {A B} (f : A -> traced B) (g : A -> B) (l : list A) :
  (forall a, In a l -> result (f a) = Ok (g a)) ->
  result (for_each f l) = Ok (map g l).
Proof.
  induction l as [|a l IH]; intros H; [reflexivity|].
  simpl for_each. rewrite result_bind, (H a (or_introl eq_refl)). simpl.
  rewrite result_bind, IH by (intros; apply H; now right). reflexivity.
Qed.

Lemma omap_ok {A B} (f : A -> outcome B) (g : A -> B) (l : list A) :
  (forall a, In a l -> f a = Ok (g a)) -> omap f l = Ok (map g l).
Proof.
  induction l as [|a l IH]; intros H; [reflexivity|].
  simpl. rewrite (H a (or_introl eq_refl)). simpl.
  rewrite IH by (intros; apply H; now right). reflexivity.
Qed.

(** ** Flattening and unflattening *)

Example vector_to_parameters_example :
  vector_to_parameters [1; 2; 3; 4; 5; 6]
    [{| shape := [2%nat; 2%nat]; data := [0; 0; 0; 0] |};
     {| shape := [2%nat]; data := [0; 0] |}]
  = Ok [{| shape := [2%nat; 2%nat]; data := [1; 2; 3; 4] |};
        {| shape := [2%nat]; data := [5; 6] |}] /\
  vector_to_parameters [1; 2; 3]
    [{| shape := [2%nat; 2%nat]; data := [0; 0; 0; 0] |}]
  = Raise RuntimeError.
Proof. split; reflexivity. Qed.

Lemma parameters_to_vector_ok (parameters : ParameterSet) :
  parameters <> [] -> parameters_to_vector parameters = Ok (flat parameters).
Proof. destruct parameters; [congruence|reflexivity]. Qed.

Lemma vsub_same_length (a b : vector) :
  length a = length b -> vsub a b = Ok (vminus a b).
Proof. intros H. unfold vsub. rewrite H, Nat.eqb_refl. reflexivity. Qed.

Lemma length_vminus (a b : vector) :
  length a = length b -> length (vminus a b) = length a.
Proof.
  intros H. unfold vminus. rewrite length_map, length_combine. lia.
Qed.

Lemma centred_result (pv : vector) (to_device : bool)
  (intermediate_results : list ParameterSet) :
  (forall r, In r intermediate_results ->
             r <> [] /\ length (flat r) = length pv) ->
  result (centred pv to_device intermediate_results)
  = Ok (map (fun r => vminus (flat r) pv) intermediate_results).
Proof.
  intros H. unfold centred. apply result_for_each. intros r Hr.
  destruct (H r Hr) as [Hne Hlen].
  rewrite result_bind, result_torch, parameters_to_vector_ok by assumption.
  cbn [obind]. rewrite result_bind, result_torch, vsub_same_length by assumption.
  cbn [obind]. destruct to_device; reflexivity.
Qed.

Lemma vector_to_parameters_clone (parameters : ParameterSet) (vec : vector) :
  Forall (@well_formed Q) parameters ->
  length vec = length (flat parameters) ->
  exists out,
    vector_to_parameters vec (clone_parameters parameters) = Ok out /\
    map (@shape Q) out = map (@shape Q) parameters /\
    flat out = vec.
Proof.
  revert vec. induction parameters as [|p ps IH]; intros vec Hwf Hlen.
  - exists []. destruct vec; [|discriminate]. repeat split.
  - inversion Hwf as [|? ? Hp Hps]; subst.
    unfold flat in Hlen. simpl in Hlen. rewrite length_app in Hlen.
    fold (flat ps) in Hlen. unfold well_formed in Hp.
    simpl.
    change (numel {| shape := shape p; data := data p |}) with (numel p).
    rewrite length_firstn, Nat.min_l by lia. rewrite Nat.eqb_refl.
    destruct (IH (skipn (numel p) vec) Hps) as (out & Hout & Hsh & Hfl).
    { rewrite length_skipn. lia. }
    fold (clone_parameters ps). rewrite Hout. simpl.
    eexists. split; [reflexivity|]. split.
    + simpl. now rewrite Hsh.
    + unfold flat in *. simpl. rewrite Hfl. apply firstn_skipn.
Qed.

Lemma item_ok {A} (l : list A) (i : nat) (d : A) :
  (i < length l)%nat -> item l i = Ok (nth i l d).
Proof.
  intros H. unfold item. rewrite (nth_error_nth' l d H). reflexivity.
Qed.

Lemma select_column_ok (m : matrix) (j : nat) :
  (forall row, In row m -> (j < length row)%nat) ->
  select_column m j = Ok (column j m).
Proof.
  intros H. unfold select_column, column. apply omap_ok.
  intros row Hrow. apply item_ok. auto.
Qed.

Lemma nonempty_length_eqb {A} (l : list A) :
  l <> [] -> (length l =? 0)%nat = false.
Proof. destruct l; [congruence|reflexivity]. Qed.

Lemma same_lengths_ok (x : list vector) (n : nat) :
  (forall v, In v x -> length v = n) -> same_lengths x = true.
Proof.
  destruct x as [|v vs]; intros H; [reflexivity|].
  simpl. apply forallb_forall. intros w Hw. apply Nat.eqb_eq.
  rewrite (H v (or_introl eq_refl)). apply H. now right.
Qed.

Lemma stack_ok (x : list vector) (n : nat) :
  x <> [] -> (forall v, In v x -> length v = n) -> stack x = Ok x.
Proof.
  intros Hne H. unfold stack. rewrite (same_lengths_ok x H).
  destruct x; [congruence|reflexivity].
Qed.

Lemma centred_rows_length (pv : vector) (l : list ParameterSet) (v : vector) :
  (forall r, In r l -> r <> [] /\ length (flat r) = length pv) ->
  In v (map (fun r => vminus (flat r) pv) l) -> length v = length pv.
Proof.
  intros H Hv. apply in_map_iff in Hv. destruct Hv as (r & <- & Hr).
  destruct (H r Hr) as [_ Hlen]. rewrite length_vminus; assumption.
Qed.

Lemma length_column (j : nat) (m : matrix) : length (column j m) = length m.
Proof. unfold column. apply length_map. Qed.

(** ** SvdDirections *)

Lemma select_column_short (V : matrix) (row : list Q) (rest : matrix)
  (j : nat) :
  V = row :: rest -> (length row <= j)%nat ->
  select_column V j = Raise IndexError.
Proof.
  intros -> Hj. unfold select_column, item. cbn [omap].
  apply nth_error_None in Hj. now rewrite Hj.
Qed.

Lemma observations_rows (x : matrix) (F : nat) :
  x <> [] -> (forall v, In v x -> length v = F) -> observations x = F.
Proof.
  intros Hne H. destruct x as [|v vs]; [congruence|].
  simpl. apply H. now left.
Qed.

Lemma scripted_lowrank_shapes (losses : list float) :
  lowrank_shapes (scripted losses).
Proof.
  intros A q U S V H. simpl in H. injection H as _ _ <-.
  unfold unit_columns. split.
  - now rewrite length_map, length_seq.
  - intros row Hrow. apply in_map_iff in Hrow. destruct Hrow as (r & <- & _).
    now rewrite length_map, length_seq.
Qed.

Section Svd.

Variable B : backend.

(** C6, as the code has it: on a trajectory whose snapshots have as many
    parameters as the optimized model, the matrix handed to [svd_lowrank]
    with [q = 2] has the centred snapshots as rows, cast to single
    precision. With at least two snapshots and two parameters the two
    directions returned have the shapes of the optimized parameters and
    hold the first and the second column of [V]. With a single snapshot,
    or a single parameter, [V] has one column only and taking the second
    raises [IndexError]. *)
Theorem svd_directions_are_the_first_two_columns_of_V
  (self : SvdDirections.t) (U : matrix) (Sigma : list Q) (V : matrix) :
  let parameters := SvdDirections._optimized_parameters self in
  let snapshots := SvdDirections._intermediate_parameters self in
  let F := length (flat parameters) in
  let dataset :=
    map (map (to_float32 B))
        (map (fun r => vminus (flat r) (flat parameters)) snapshots) in
  lowrank_shapes B ->
  snapshots <> [] ->
  (1 <= F)%nat ->
  Forall (@well_formed Q) parameters ->
  (forall r, In r snapshots -> r <> [] /\ length (flat r) = F) ->
  svd_lowrank B dataset 2 = Ok (U, Sigma, V) ->
  ((2 <= length snapshots)%nat -> (2 <= F)%nat ->
   exists b1 b2,
     result (SvdDirections.calculate_directions B self) = Ok (b1, b2) /\
     map (@shape Q) b1 = map (@shape Q) parameters /\
     map (@shape Q) b2 = map (@shape Q) parameters /\
     flat b1 = column 0 V /\
     flat b2 = column 1 V) /\
  (length snapshots = 1%nat \/ F = 1%nat ->
   result (SvdDirections.calculate_directions B self) = Raise IndexError).
Proof.
  intros parameters snapshots F dataset Hshapes Hne HF Hwf Hsnap Hsvd.
  assert (Hpne : parameters <> []).
  { intros Hnil. unfold F in HF. rewrite Hnil in HF. simpl in HF. lia. }
  assert (Hrowlen : forall v, In v dataset -> length v = F).
  { intros v Hv. unfold dataset in Hv. apply in_map_iff in Hv.
    destruct Hv as (w & <- & Hw). rewrite length_map.
    eapply centred_rows_length; eassumption. }
  assert (Hdne : dataset <> []).
  { unfold dataset. intros Hnil. apply map_eq_nil, map_eq_nil in Hnil.
    contradiction. }
  assert (Hlen : length dataset = length snapshots)
    by (unfold dataset; now rewrite !length_map).
  destruct (Hshapes dataset 2%nat U Sigma V Hsvd) as [HV Hrows].
  rewrite (observations_rows Hdne Hrowlen), Hlen in Hrows.
  rewrite (observations_rows Hdne Hrowlen) in HV.
  assert (Hrun : result (SvdDirections.create_learnable_directions B snapshots
                           parameters)
                 = obind (select_column V 0)
                     (fun b1 => obind (select_column V 1)
                                  (fun b2 => Ok (b1, b2)))).
  { unfold SvdDirections.create_learnable_directions.
    rewrite (nonempty_length_eqb Hne).
    rewrite !result_bind, result_torch, parameters_to_vector_ok by assumption.
    cbn [obind].
    rewrite !result_bind, centred_result by assumption. cbn [obind].
    unfold SvdDirections.dataset_of.
    rewrite !result_bind, result_torch.
    rewrite (@stack_ok _ F).
    2:{ intros Hnil. apply map_eq_nil in Hnil. contradiction. }
    2:{ intros v Hv. eapply centred_rows_length; eassumption. }
    cbn [obind]. rewrite result_torch. cbn [obind].
    rewrite !result_bind, result_torch.
    change (svd_lowrank B _ 2) with (svd_lowrank B dataset 2). rewrite Hsvd.
    cbn [obind]. rewrite !result_bind, result_torch.
    destruct (select_column V 0) as [b1|e]; [|reflexivity].
    cbn [obind]. rewrite !result_bind, result_torch.
    destruct (select_column V 1) as [b2|e]; reflexivity. }
  split.
  - intros HN HF2.
    assert (Hwide : forall row, In row V -> length row = 2%nat)
      by (intros row Hrow; rewrite (Hrows row Hrow); lia).
    destruct (vector_to_parameters_clone (column 0 V) Hwf)
      as (b1 & Hb1 & Hs1 & Hf1).
    { rewrite length_column. exact HV. }
    destruct (vector_to_parameters_clone (column 1 V) Hwf)
      as (b2 & Hb2 & Hs2 & Hf2).
    { rewrite length_column. exact HV. }
    exists b1, b2. split; [|repeat (split; [assumption|]); assumption].
    unfold SvdDirections.calculate_directions.
    fold parameters. fold snapshots.
    rewrite result_bind, Hrun.
    rewrite !select_column_ok
      by (intros row Hrow; rewrite (Hwide row Hrow); lia).
    cbn [obind].
    rewrite !result_bind, result_torch. cbn [obind].
    rewrite !result_bind, result_torch. cbn [obind].
    rewrite !result_bind, result_torch, Hb1. cbn [obind].
    rewrite !result_bind, result_torch, Hb2. cbn [obind].
    reflexivity.
  - intros Hone.
    assert (HN : (1 <= length snapshots)%nat)
      by (destruct snapshots; [congruence|simpl; lia]).
    assert (Hnarrow : forall row, In row V -> length row = 1%nat)
      by (intros row Hrow; rewrite (Hrows row Hrow); lia).
    destruct V as [|row rest]; [simpl in HV; lia|].
    unfold SvdDirections.calculate_directions.
    fold parameters. fold snapshots.
    rewrite result_bind, Hrun.
    rewrite select_column_ok
      by (intros r Hr; rewrite (Hnarrow r Hr); lia).
    cbn [obind].
    rewrite (@select_column_short (row :: rest) row rest 1 eq_refl)
      by (rewrite (Hnarrow row (or_introl eq_refl)); lia).
    reflexivity.
Qed.

End Svd.

Lemma svd_directions_are_the_first_two_columns_of_V_witness :
  let self :=
    {| SvdDirections._optimized_parameters :=
         [{| shape := [2%nat]; data := [0; 0] |}];
       SvdDirections._intermediate_parameters :=
         [[{| shape := [2%nat]; data := [1; 2] |}];
          [{| shape := [2%nat]; data := [3; 5] |}]] |} in
  let V := [[1; 0]; [0; 1]] in
  ((2 <= 2)%nat -> (2 <= 2)%nat ->
   exists b1 b2,
     result (SvdDirections.calculate_directions (scripted []) self)
     = Ok (b1, b2) /\
     map (@shape Q) b1 = [[2%nat]] /\
     map (@shape Q) b2 = [[2%nat]] /\
     flat b1 = column 0 V /\
     flat b2 = column 1 V) /\
  (2%nat = 1%nat \/ 2%nat = 1%nat ->
   result (SvdDirections.calculate_directions (scripted []) self)
   = Raise IndexError).
Proof.
  intros self V.
  apply (@svd_directions_are_the_first_two_columns_of_V (scripted []) self
           [] [] V).
  - apply scripted_lowrank_shapes.
  - discriminate.
  - simpl. lia.
  - repeat constructor.
  - intros r [<-|[<-|[]]]; split; try discriminate; reflexivity.
  - reflexivity.
Defined.

(** C6, as the specification has it, fails on a trajectory of a single
    snapshot: whatever the decomposition returns, it has no second
    right-singular vector, and the call raises [IndexError]. *)
Lemma svd_of_a_single_snapshot_has_no_second_direction :
  ~ (forall (B : backend) (self : SvdDirections.t),
       lowrank_shapes B ->
       SvdDirections._intermediate_parameters self <> [] ->
       Forall (@well_formed Q) (SvdDirections._optimized_parameters self) ->
       (forall r, In r (SvdDirections._intermediate_parameters self) ->
          r <> [] /\
          length (flat r)
          = length (flat (SvdDirections._optimized_parameters self))) ->
       exists b1 b2,
         result (SvdDirections.calculate_directions B self) = Ok (b1, b2)).
Proof.
  intros H.
  destruct (H (scripted [])
              {| SvdDirections._optimized_parameters :=
                   [{| shape := [2%nat]; data := [0; 0] |}];
                 SvdDirections._intermediate_parameters :=
                   [[{| shape := [2%nat]; data := [1; 2] |}]] |})
    as (b1 & b2 & Hrun).
  - apply scripted_lowrank_shapes.
  - discriminate.
  - repeat constructor.
  - intros r [<-|[]]. split; [discriminate|reflexivity].
  - vm_compute in Hrun. discriminate.
Qed.

(** ** Sorting in descending order *)

Example sort_indices_example :
  sort_indices [1; 3; 2; 3] = [1; 3; 2; 0]%nat.
Proof. reflexivity. Qed.

Lemma insert_desc_perm (p : Q * nat) (l : list (Q * nat)) :
  Permutation (p :: l) (insert_desc p l).
Proof.
  induction l as [|q l IH]; simpl; [apply Permutation_refl|].
  destruct (Qle_bool (fst q) (fst p)); [apply Permutation_refl|].
  eapply perm_trans; [apply perm_swap|]. now apply perm_skip.
Qed.

Lemma insert_desc_sorted (p : Q * nat) (l : list (Q * nat)) :
  StronglySorted ge_fst l -> StronglySorted ge_fst (insert_desc p l).
Proof.
  induction l as [|q l IH]; intros Hs; simpl.
  - constructor; constructor.
  - inversion Hs as [|? ? Hs' Hall]; subst.
    destruct (Qle_bool (fst q) (fst p)) eqn:E.
    + apply Qle_bool_iff in E.
      constructor; [exact Hs|]. constructor; [exact E|].
      eapply Forall_impl; [|exact Hall].
      intros x Hx. unfold ge_fst in *. eapply Qle_trans; eauto.
    + constructor; [now apply IH|].
      eapply Permutation_Forall; [apply insert_desc_perm|].
      constructor; [|exact Hall].
      unfold ge_fst. apply Qlt_le_weak, Qnot_le_lt.
      intros Hc. apply Qle_bool_iff in Hc. congruence.
Qed.

Lemma sort_desc_perm (values : list Q) :
  Permutation (combine values (seq 0 (length values))) (sort_desc values).
Proof.
  unfold sort_desc.
  induction (combine values (seq 0 (length values))) as [|p l IH]; simpl.
  - constructor.
  - eapply perm_trans; [apply perm_skip, IH|]. apply insert_desc_perm.
Qed.

Lemma sort_desc_sorted (values : list Q) :
  StronglySorted ge_fst (sort_desc values).
Proof.
  unfold sort_desc.
  induction (combine values (seq 0 (length values))) as [|p l IH]; simpl.
  - constructor.
  - now apply insert_desc_sorted.
Qed.

Lemma in_combine_seq (values : list Q) (k : nat) (v : Q) (i : nat) :
  In (v, i) (combine values (seq k (length values))) ->
  (k <= i < k + length values)%nat /\ nth (i - k) values 0 = v.
Proof.
  revert k. induction values as [|x xs IH]; intros k H; simpl in H.
  - contradiction.
  - destruct H as [H|H].
    + inversion H; subst. rewrite Nat.sub_diag. simpl. split; [lia|reflexivity].
    + destruct (IH (S k) H) as [Hi Hn]. split; [simpl; lia|].
      replace (i - k)%nat with (S (i - S k)) by lia. exact Hn.
Qed.

Lemma combine_seq_in (values : list Q) (k j : nat) :
  (j < length values)%nat ->
  In (nth j values 0, (k + j)%nat) (combine values (seq k (length values))).
Proof.
  revert k j. induction values as [|x xs IH]; intros k j Hj; simpl in *.
  - lia.
  - destruct j as [|j].
    + left. now rewrite Nat.add_0_r.
    + right. replace (k + S j)%nat with (S k + j)%nat by lia.
      apply IH. lia.
Qed.

Lemma map_snd_combine {A B} (l1 : list A) (l2 : list B) :
  length l1 = length l2 -> map snd (combine l1 l2) = l2.
Proof.
  revert l2. induction l1 as [|a l1 IH]; destruct l2; simpl; intros H;
    try discriminate; [reflexivity|].
  f_equal. apply IH. lia.
Qed.

(** The first two positions [torch.sort] returns hold a largest value and
    a largest value among the others. *)
Lemma sort_indices_top2 (values : list Q) :
  (2 <= length values)%nat ->
  exists i0 i1 rest,
    sort_indices values = i0 :: i1 :: rest /\
    (i0 < length values)%nat /\ (i1 < length values)%nat /\ i0 <> i1 /\
    (forall j, (j < length values)%nat -> nth j values 0 <= nth i0 values 0) /\
    (forall j, (j < length values)%nat -> j <> i0 ->
               nth j values 0 <= nth i1 values 0).
Proof.
  intros Hlen.
  pose proof (sort_desc_perm values) as Hperm.
  pose proof (sort_desc_sorted values) as Hsorted.
  assert (Hl : length (sort_desc values) = length values).
  { rewrite <- (Permutation_length Hperm), length_combine, length_seq. lia. }
  assert (Hnodup : NoDup (map snd (sort_desc values))).
  { eapply Permutation_NoDup; [apply Permutation_map, Hperm|].
    rewrite map_snd_combine by (now rewrite length_seq). apply seq_NoDup. }
  assert (Hin : forall p, In p (sort_desc values) ->
                  (snd p < length values)%nat /\ nth (snd p) values 0 = fst p).
  { intros [v i] Hp. apply (Permutation_in _ (Permutation_sym Hperm)) in Hp.
    apply in_combine_seq in Hp. rewrite Nat.sub_0_r in Hp. simpl. intuition lia. }
  assert (Hall : forall j, (j < length values)%nat ->
                   In (nth j values 0, j) (sort_desc values)).
  { intros j Hj. apply (Permutation_in _ Hperm).
    apply (combine_seq_in values 0 Hj). }
  unfold sort_indices.
  destruct (sort_desc values) as [|[v0 i0] [|[v1 i1] rest]];
    simpl in Hl; try lia.
  exists i0, i1, (map snd rest).
  destruct (Hin (v0, i0) (or_introl eq_refl)) as [Hi0 Hv0].
  destruct (Hin (v1, i1) (or_intror (or_introl eq_refl))) as [Hi1 Hv1].
  simpl in Hi0, Hv0, Hi1, Hv1.
  apply StronglySorted_inv in Hsorted as [Hs1 Hf0].
  apply StronglySorted_inv in Hs1 as [_ Hf1].
  simpl in Hnodup. apply NoDup_cons_iff in Hnodup as [Hnot _].
  rewrite Forall_forall in Hf0, Hf1.
  split; [reflexivity|]. split; [exact Hi0|]. split; [exact Hi1|].
  split; [intros ->; apply Hnot; now left|]. split.
  - intros j Hj. rewrite Hv0.
    destruct (Hall j Hj) as [H|H].
    + injection H as Hv _. rewrite Hv. apply Qle_refl.
    + apply (Hf0 _ H).
  - intros j Hj Hne. rewrite Hv1.
    destruct (Hall j Hj) as [H|[H|H]].
    + injection H as _ Hi. congruence.
    + injection H as Hv _. rewrite Hv. apply Qle_refl.
    + apply (Hf1 _ H).
Qed.

(** ** The covariance matrix *)

(** Two features observed three times: variances 1 and 4, covariance 2.
    Two features observed once: nothing but nan. One feature observed
    three times: its variance, without dimensions. *)
Example cov_example :
  match finite_matrix (cov [[1; 2; 3]; [2; 4; 6]]) with
  | Ok M => map (map Qred) M = [[1; 2]; [2; 4]]
  | Raise _ => False
  end /\
  cov [[5]; [7]] = two_dim [[NaN; NaN]; [NaN; NaN]] /\
  match cov [[1; 2; 3]] with
  | zero_dim (Fin v) => Qred v = 1
  | _ => False
  end.
Proof. repeat split. Qed.

Lemma nth_map_in {A B} (f : A -> B) (l : list A) (i : nat) (d : A) (d' : B) :
  (i < length l)%nat -> nth i (map f l) d' = f (nth i l d).
Proof.
  intros H. rewrite (nth_indep _ d' (f d)) by (now rewrite length_map).
  apply map_nth.
Qed.

Lemma nth_transpose (F : nat) (x : list vector) (i : nat) :
  (i < F)%nat -> nth i (transpose F x) [] = column i x.
Proof.
  intros H. unfold transpose.
  rewrite (nth_map_in _ _ 0%nat) by (now rewrite length_seq).
  now rewrite seq_nth.
Qed.

Lemma length_transpose (F : nat) (x : list vector) :
  length (transpose F x) = F.
Proof. unfold transpose. now rewrite length_map, length_seq. Qed.

Lemma stack_dim1_ok (x : list vector) (F : nat) :
  x <> [] -> (forall v, In v x -> length v = F) ->
  stack_dim1 x = Ok (transpose F x).
Proof.
  intros Hne H. unfold stack_dim1. rewrite (same_lengths_ok x H).
  destruct x as [|v vs]; [congruence|].
  now rewrite (H v (or_introl eq_refl)).
Qed.

Lemma length_cov_entries (m : matrix) : length (cov_entries m) = length m.
Proof. unfold cov_entries. now rewrite !length_map. Qed.

Lemma cov_entries_rows (m : matrix) (row : list float) :
  In row (cov_entries m) -> length row = length m.
Proof.
  unfold cov_entries. intros H. apply in_map_iff in H.
  destruct H as (ri & <- & _). now rewrite !length_map.
Qed.

Lemma cov_entry (m : matrix) (i j : nat) :
  (i < length m)%nat -> (j < length m)%nat ->
  nth j (nth i (cov_entries m) []) NaN
  = if (observations m <=? 1)%nat then NaN
    else Fin (dot (center (nth i m [])) (center (nth j m []))
              / inject_Z (Z.of_nat (observations m) - 1)).
Proof.
  intros Hi Hj. unfold cov_entries.
  rewrite (nth_map_in _ _ []) by (now rewrite length_map).
  rewrite (nth_map_in _ _ []) by (now rewrite length_map).
  now rewrite !(nth_map_in _ _ []) by assumption.
Qed.

Lemma cov_two_dim (m : matrix) :
  length m <> 1%nat -> cov m = two_dim (cov_entries m).
Proof.
  intros H. unfold cov, squeeze.
  pose proof (length_cov_entries m) as Hl.
  destruct (cov_entries m) as [|[|x [|y r]] [|r2 rest]]; try reflexivity.
  simpl in Hl. congruence.
Qed.

Lemma cov_zero_dim (row : list Q) :
  cov [row]
  = zero_dim (if (length row <=? 1)%nat then NaN
              else Fin (dot (center row) (center row)
                        / inject_Z (Z.of_nat (length row) - 1))).
Proof. reflexivity. Qed.

Lemma observations_transpose (F : nat) (x : list vector) :
  (0 < F)%nat -> observations (transpose F x) = length x.
Proof.
  intros H. unfold transpose. destruct F; [lia|]. simpl.
  apply length_column.
Qed.

(** C1, as the code has it: for [N] samples of [F] features each, the
    covariance matrix has [F] rows and [F] columns, whatever the number of
    samples. Its entry [(i, j)] is the covariance of features [i] and [j]
    across the samples; with a single sample every entry is a nan. For a
    single feature the result is the variance as a 0-dimensional tensor. *)
Theorem covariance_matrix_is_square_in_the_parameter_count
  (samples : list vector) (F : nat) :
  samples <> [] ->
  (1 <= F)%nat ->
  (forall s, In s samples -> length s = F) ->
  let N := length samples in
  let entry := fun i j =>
    if (N <=? 1)%nat then NaN
    else Fin (dot (center (column i samples)) (center (column j samples))
              / inject_Z (Z.of_nat N - 1)) in
  exists C,
    result (PcaDirections.calculate_covariance_matrix samples) = Ok C /\
    ((2 <= F)%nat ->
     exists M,
       C = two_dim M /\
       length M = F /\
       (forall row, In row M -> length row = F) /\
       (forall i j, (i < F)%nat -> (j < F)%nat ->
          nth j (nth i M []) NaN = entry i j)) /\
    (F = 1%nat -> C = zero_dim (entry 0%nat 0%nat)).
Proof.
  intros Hne HF Hlen N entry.
  exists (cov (transpose F samples)).
  split; [|split].
  - unfold PcaDirections.calculate_covariance_matrix.
    now rewrite (stack_dim1_ok Hne Hlen).
  - intros HF2. exists (cov_entries (transpose F samples)).
    split; [|split; [|split]].
    + apply cov_two_dim. rewrite length_transpose. lia.
    + now rewrite length_cov_entries, length_transpose.
    + intros row Hrow. apply cov_entries_rows in Hrow.
      now rewrite length_transpose in Hrow.
    + intros i j Hi Hj.
      rewrite cov_entry by (now rewrite length_transpose).
      rewrite observations_transpose by lia.
      now rewrite !nth_transpose by assumption.
  - intros ->. unfold transpose. cbn [seq map].
    rewrite cov_zero_dim, length_column. reflexivity.
Qed.

Lemma covariance_matrix_is_square_in_the_parameter_count_witness :
  let samples := [[1; 2; 3]; [4; 5; 6]] in
  let entry := fun i j =>
    if (length samples <=? 1)%nat then NaN
    else Fin (dot (center (column i samples)) (center (column j samples))
              / inject_Z (Z.of_nat (length samples) - 1)) in
  exists C,
    result (PcaDirections.calculate_covariance_matrix samples) = Ok C /\
    ((2 <= 3)%nat ->
     exists M,
       C = two_dim M /\
       length M = 3%nat /\
       (forall row, In row M -> length row = 3%nat) /\
       (forall i j, (i < 3)%nat -> (j < 3)%nat ->
          nth j (nth i M []) NaN = entry i j)) /\
    (3%nat = 1%nat -> C = zero_dim (entry 0%nat 0%nat)).
Proof.
  intros samples entry.
  apply (@covariance_matrix_is_square_in_the_parameter_count samples 3).
  - discriminate.
  - lia.
  - intros s [<-|[<-|[]]]; reflexivity.
Defined.

(** C1, as the specification has it, fails: two samples of three features
    give a covariance matrix of three rows, not two. *)
Lemma covariance_matrix_is_not_square_in_the_trajectory_length :
  ~ (forall (samples : list vector) (M : fmatrix),
       samples <> [] ->
       (forall s, In s samples -> length s = 3%nat) ->
       result (PcaDirections.calculate_covariance_matrix samples)
       = Ok (two_dim M) ->
       length M = length samples).
Proof.
  intros H.
  specialize (H [[1; 2; 3]; [4; 5; 6]]
                (cov_entries (transpose 3 [[1; 2; 3]; [4; 5; 6]]))).
  assert (Hne : [[1; 2; 3]; [4; 5; 6]] <> ([] : list vector)) by discriminate.
  assert (Hs : forall s, In s [[1; 2; 3]; [4; 5; 6]] -> length s = 3%nat)
    by (intros s [<-|[<-|[]]]; reflexivity).
  specialize (H Hne Hs eq_refl). simpl in H. discriminate.
Qed.

(** ** PcaDirections *)

Section Pca.

Variable B : backend.

(** The eigensolver is only reached with a matrix: a 0-dimensional
    covariance has no [size(dim=0)]. *)
Lemma solver_reached (m : matrix) (pairs : list Q * matrix) :
  result (PcaDirections._calculate_eigenpairs B (cov m)) = Ok pairs ->
  cov m = two_dim (cov_entries m) /\ length m <> 1%nat.
Proof.
  intros H. destruct (Nat.eq_dec (length m) 1) as [E|E].
  - destruct m as [|row [|row' m]]; discriminate.
  - split; [now apply cov_two_dim|exact E].
Qed.

Lemma select_directions_result (eigen_values : list Q)
  (eigen_vectors : matrix) (parameters : ParameterSet) :
  (2 <= length eigen_values)%nat ->
  (forall row, In row eigen_vectors -> length row = length eigen_values) ->
  parameters <> [] ->
  exists i0 i1,
    result (PcaDirections.select_directions eigen_values eigen_vectors
              parameters)
    = Ok (column i0 eigen_vectors, column i1 eigen_vectors) /\
    (i0 < length eigen_values)%nat /\ (i1 < length eigen_values)%nat /\
    i0 <> i1 /\
    (forall j, (j < length eigen_values)%nat ->
               nth j eigen_values 0 <= nth i0 eigen_values 0) /\
    (forall j, (j < length eigen_values)%nat -> j <> i0 ->
               nth j eigen_values 0 <= nth i1 eigen_values 0).
Proof.
  intros Hlen Hrows Hpne.
  destruct (sort_indices_top2 eigen_values Hlen)
    as (i0 & i1 & rest & Hsort & Hi0 & Hi1 & Hne & Hmax & Hsnd).
  exists i0, i1. split; [|repeat (split; [assumption|]); assumption].
  unfold PcaDirections.select_directions.
  run_traced. rewrite Hsort. cbn [item nth_error].
  run_traced. rewrite (item_ok _ 0 Hi0).
  run_traced. rewrite (item_ok _ 0 Hi1).
  run_traced.
  destruct parameters as [|p0 ps]; [congruence|]. cbn [item nth_error].
  run_traced.
  rewrite select_column_ok
    by (intros row Hrow; rewrite (Hrows row Hrow); exact Hi0).
  run_traced.
  rewrite select_column_ok
    by (intros row Hrow; rewrite (Hrows row Hrow); exact Hi1).
  reflexivity.
Qed.

(** C5: a covariance matrix of more than 6 rows goes to [lobpcg] with
    [largest=True] and [k=2], any other to [eigh]; and on a trajectory
    whose snapshots have as many parameters as the optimized model, with
    at least two eigenpairs returned, the two directions are the columns
    of the eigenvector matrix at the position of a largest eigenvalue and
    at the position of a largest one among the others. *)
Theorem pca_directions_belong_to_the_two_largest_eigenvalues
  (snapshots : list ParameterSet) (parameters : ParameterSet) (dev : device)
  (eigen_values : list Q) (eigen_vectors : matrix) :
  let F := length (flat parameters) in
  let M :=
    cov (transpose F
           (map (fun r => vminus (flat r) (flat parameters)) snapshots)) in
  snapshots <> [] ->
  parameters <> [] ->
  (forall r, In r snapshots -> r <> [] /\ length (flat r) = F) ->
  result (PcaDirections._calculate_eigenpairs B M)
  = Ok (eigen_values, eigen_vectors) ->
  (2 <= length eigen_values)%nat ->
  (forall row, In row eigen_vectors -> length row = length eigen_values) ->
  (forall C : fmatrix,
     ((6 < length C)%nat ->
      PcaDirections._calculate_eigenpairs B (two_dim C)
      = torch lobpcg_call (lobpcg B (two_dim C) true 2)) /\
     ((length C <= 6)%nat ->
      PcaDirections._calculate_eigenpairs B (two_dim C)
      = torch eigh_call (eigh B (two_dim C)))) /\
  (exists C, M = two_dim C /\ length C = F) /\
  exists i0 i1,
    result (PcaDirections.create_pca_directions B snapshots parameters dev)
    = Ok (column i0 eigen_vectors, column i1 eigen_vectors) /\
    (i0 < length eigen_values)%nat /\ (i1 < length eigen_values)%nat /\
    i0 <> i1 /\
    (forall j, (j < length eigen_values)%nat ->
               nth j eigen_values 0 <= nth i0 eigen_values 0) /\
    (forall j, (j < length eigen_values)%nat -> j <> i0 ->
               nth j eigen_values 0 <= nth i1 eigen_values 0).
Proof.
  intros F M Hne Hpne Hsnap Hsolve Hlen Hrows.
  split; [|split].
  - intros C. unfold PcaDirections._calculate_eigenpairs. split; intros HC.
    + apply Nat.ltb_lt in HC. cbn [size0 lift bind]. cbn [Nat.mul Nat.add] in *.
      now rewrite HC.
    + apply Nat.ltb_ge in HC. cbn [size0 lift bind]. cbn [Nat.mul Nat.add] in *.
      now rewrite HC.
  - destruct (solver_reached _ Hsolve) as [HM _].
    exists (cov_entries (transpose F
              (map (fun r => vminus (flat r) (flat parameters)) snapshots))).
    split; [exact HM|]. now rewrite length_cov_entries, length_transpose.
  - destruct (select_directions_result eigen_values eigen_vectors Hlen Hrows Hpne)
      as (i0 & i1 & Hres & Hprops).
    exists i0, i1. split; [|exact Hprops].
    unfold PcaDirections.create_pca_directions.
    rewrite (nonempty_length_eqb Hne).
    rewrite !result_bind, result_torch, parameters_to_vector_ok by assumption.
    cbn [obind].
    rewrite !result_bind, centred_result by assumption. cbn [obind].
    unfold PcaDirections.calculate_covariance_matrix.
    rewrite !result_bind, result_torch.
    rewrite (@stack_dim1_ok _ F).
    2:{ intros Hnil. apply map_eq_nil in Hnil. contradiction. }
    2:{ intros v Hv. eapply centred_rows_length; eassumption. }
    cbn [obind]. rewrite result_torch. cbn [obind].
    fold M. rewrite result_bind, Hsolve. cbn [obind]. exact Hres.
Qed.

End Pca.

Lemma pca_directions_belong_to_the_two_largest_eigenvalues_witness :
  let B := scripted [] in
  let snapshots :=
    [[{| shape := [2%nat]; data := [1; 2] |}];
     [{| shape := [2%nat]; data := [3; 6] |}]] in
  let parameters := [{| shape := [2%nat]; data := [0; 0] |}] in
  let M :=
    cov (transpose 2
           (map (fun r => vminus (flat r) (flat parameters)) snapshots)) in
  let eigen_values :=
    match finite_matrix M with
    | Ok m => diagonal m
    | Raise _ => []
    end in
  let eigen_vectors := [[1; 0]; [0; 1]] in
  (forall C : fmatrix,
     ((6 < length C)%nat ->
      PcaDirections._calculate_eigenpairs B (two_dim C)
      = torch lobpcg_call (lobpcg B (two_dim C) true 2)) /\
     ((length C <= 6)%nat ->
      PcaDirections._calculate_eigenpairs B (two_dim C)
      = torch eigh_call (eigh B (two_dim C)))) /\
  (exists C, M = two_dim C /\ length C = 2%nat) /\
  exists i0 i1,
    result (PcaDirections.create_pca_directions B snapshots parameters cpu)
    = Ok (column i0 eigen_vectors, column i1 eigen_vectors) /\
    (i0 < length eigen_values)%nat /\ (i1 < length eigen_values)%nat /\
    i0 <> i1 /\
    (forall j, (j < length eigen_values)%nat ->
               nth j eigen_values 0 <= nth i0 eigen_values 0) /\
    (forall j, (j < length eigen_values)%nat -> j <> i0 ->
               nth j eigen_values 0 <= nth i1 eigen_values 0).
Proof.
  intros B snapshots parameters M eigen_values eigen_vectors.
  apply (@pca_directions_belong_to_the_two_largest_eigenvalues B snapshots
           parameters cpu eigen_values eigen_vectors).
  - discriminate.
  - discriminate.
  - intros r [<-|[<-|[]]]; split; try discriminate; reflexivity.
  - reflexivity.
  - simpl. lia.
  - intros row [<-|[<-|[]]]; reflexivity.
Defined.

(** ** Row-major views *)

Lemma length_chunks {A} (c k : nat) (l : list A) :
  length (chunks c k l) = c.
Proof.
  revert l. induction c as [|c IH]; intros l; simpl; [reflexivity|].
  now rewrite IH.
Qed.

Lemma chunks_rows {A} (c k : nat) (l : list A) (x : list A) :
  (c * k <= length l)%nat -> In x (chunks c k l) -> length x = k.
Proof.
  revert l. induction c as [|c IH]; intros l Hl Hx; simpl in *.
  - contradiction.
  - destruct Hx as [<-|Hx].
    + rewrite length_firstn. lia.
    + apply (IH (skipn k l)); [|exact Hx]. rewrite length_skipn. lia.
Qed.

Lemma chunks_concat {A} (ls : list (list A)) (k : nat) :
  (forall x, In x ls -> length x = k) ->
  chunks (length ls) k (concat ls) = ls.
Proof.
  induction ls as [|x ls IH]; intros H; simpl; [reflexivity|].
  assert (Hx : length x = k) by (apply H; now left).
  rewrite firstn_app, skipn_app, Hx, Nat.sub_diag. simpl.
  rewrite firstn_all2, skipn_all2, app_nil_r by lia. simpl.
  f_equal. apply IH. intros y Hy. apply H. now right.
Qed.

Lemma in_chunks {A} (c k : nat) (l x : list A) (y : A) :
  In x (chunks c k l) -> In y x -> In y l.
Proof.
  revert l. induction c as [|c IH]; intros l Hx Hy; simpl in Hx.
  - contradiction.
  - rewrite <- (firstn_skipn k l). apply in_or_app.
    destruct Hx as [<-|Hx]; [now left|right]. eapply IH; eassumption.
Qed.

Lemma length_concat_uniform {A} (ls : list (list A)) (k : nat) :
  (forall x, In x ls -> length x = k) ->
  length (concat ls) = (length ls * k)%nat.
Proof.
  induction ls as [|x ls IH]; intros H; simpl; [reflexivity|].
  rewrite length_app, (H x (or_introl eq_refl)), IH; [reflexivity|].
  intros y Hy. apply H. now right.
Qed.

Lemma shape_split (s : list nat) :
  let d := if (1 <? length s)%nat then 1%nat else 0%nat in
  prod s
  = (prod (firstn d s) * (nth d s 1%nat * prod (skipn (S d) s)))%nat.
Proof.
  destruct s as [|a [|b r]]; simpl; lia.
Qed.

(** The blocks, rows and elements of the view of a well-formed tensor. *)
Lemma view3_blocks {A} (t : tensor A) (d : nat) :
  length (view3 d t) = outer_count d t.
Proof. unfold view3. now rewrite length_map, length_chunks. Qed.

Lemma view3_rows {A} (t : tensor A) (d : nat) (block : list (list A)) :
  In block (view3 d t) -> length block = axis_len d t.
Proof.
  unfold view3. intros H. apply in_map_iff in H.
  destruct H as (c & <- & _). apply length_chunks.
Qed.

Lemma view3_elements {A} (t : tensor A) (d : nat)
  (block : list (list A)) (row : list A) :
  (outer_count d t * (axis_len d t * inner_count d t) <= length (data t))%nat ->
  In block (view3 d t) -> In row block -> length row = inner_count d t.
Proof.
  unfold view3. intros Hlen Hb Hr. apply in_map_iff in Hb.
  destruct Hb as (c & <- & Hc).
  apply (@chunks_rows _ _ _ _ _ Hlen) in Hc.
  eapply chunks_rows; [|exact Hr]. lia.
Qed.

Lemma view3_in_data {A} (t : tensor A) (d : nat)
  (block : list (list A)) (row : list A) (x : A) :
  In block (view3 d t) -> In row block -> In x row -> In x (data t).
Proof.
  unfold view3. intros Hb Hr Hx. apply in_map_iff in Hb.
  destruct Hb as (c & <- & Hc).
  eapply in_chunks; [exact Hc|]. eapply in_chunks; eassumption.
Qed.

(** ** normalize_direction *)

Import Normalizer.

Local Open Scope R_scope.

Lemma eps_pos : 0 < eps.
Proof.
  unfold eps. apply Rdiv_lt_0_compat; [lra|]. apply pow_lt. lra.
Qed.

Lemma nth_zip_mult (a b : list R) (j : nat) :
  nth j (zip_with Rmult a b) 0 = nth j a 0 * nth j b 0.
Proof.
  unfold zip_with. revert b j.
  induction a as [|x a IH]; intros b j.
  - simpl. destruct j; ring.
  - destruct b as [|y b]; simpl.
    + destruct j; ring.
    + destruct j; [reflexivity|]. apply IH.
Qed.

Lemma sum_squares_scale (j : nat) (block : list (list R)) (s : list R) :
  sum_squares j (scale_block block s)
  = (nth j s 0 * nth j s 0) * sum_squares j block.
Proof.
  unfold sum_squares, scale_block.
  induction block as [|row block IH]; simpl; [ring|].
  rewrite IH, nth_zip_mult. ring.
Qed.

Lemma sum_squares_nonneg (j : nat) (block : list (list R)) :
  0 <= sum_squares j block.
Proof.
  unfold sum_squares. induction block as [|row block IH]; simpl; [lra|].
  pose proof (Rle_0_sqr (nth j row 0)) as H. unfold Rsqr in H. lra.
Qed.

Lemma nth_map_seq {A} (f : nat -> A) (n j : nat) (d : A) :
  nth j (map f (seq 0 n)) d = if (j <? n)%nat then f j else d.
Proof.
  destruct (j <? n)%nat eqn:E.
  - apply Nat.ltb_lt in E.
    rewrite (nth_map_in f (seq 0 n) 0%nat d) by (now rewrite length_seq).
    now rewrite seq_nth.
  - apply Nat.ltb_ge in E. apply nth_overflow.
    now rewrite length_map, length_seq.
Qed.

Lemma nth_column_norms (inner : nat) (block : list (list R)) (j : nat) :
  nth j (column_norms inner block) 0
  = if (j <? inner)%nat then sqrt (sum_squares j block) else 0.
Proof.
  unfold column_norms.
  exact (@nth_map_seq R (fun j => sqrt (sum_squares j block)) inner j 0).
Qed.

Lemma length_column_norms (inner : nat) (block : list (list R)) :
  length (column_norms inner block) = inner.
Proof. unfold column_norms. now rewrite length_map, length_seq. Qed.

Lemma column_norms_nonneg (inner : nat) (block : list (list R)) (x : R) :
  In x (column_norms inner block) -> 0 <= x.
Proof.
  unfold column_norms. intros H. apply in_map_iff in H.
  destruct H as (j & <- & _). apply sqrt_pos.
Qed.

(** Scaling the rows of a block by non-negative factors scales its norms
    by the same factors. *)
Lemma column_norms_scale (inner : nat) (block : list (list R)) (s : list R)
  (j : nat) :
  0 <= nth j s 0 ->
  nth j (column_norms inner (scale_block block s)) 0
  = nth j s 0 * nth j (column_norms inner block) 0.
Proof.
  intros Hs. rewrite !nth_column_norms.
  destruct (j <? inner)%nat; [|ring].
  rewrite sum_squares_scale, sqrt_mult_alt.
  - now rewrite sqrt_square.
  - pose proof (Rle_0_sqr (nth j s 0)) as H. unfold Rsqr in H. exact H.
Qed.

Lemma norm_nonneg (t : tensor R) (d : nat) (x : R) :
  In x (data (norm t d)) -> 0 <= x.
Proof.
  unfold norm, norm_blocks. simpl. intros H. apply in_concat in H.
  destruct H as (l & Hl & Hx). apply in_map_iff in Hl.
  destruct Hl as (block & <- & _). eapply column_norms_nonneg; eassumption.
Qed.

(** The guarded division always has a quotient. *)
Lemma guarded_division_defined (a b : list R) :
  (forall y, In y b -> 0 <= y) ->
  omap (fun p => checked_div (fst p) (snd p + eps)) (combine a b)
  = Ok (zip_with div_eps a b).
Proof.
  unfold zip_with. revert b. induction a as [|x a IH]; intros b Hb.
  - reflexivity.
  - destruct b as [|y b]; [reflexivity|]. simpl.
    unfold checked_div at 1.
    destruct (Req_dec_T (y + eps) 0) as [Hz|_].
    + exfalso. pose proof eps_pos. pose proof (Hb y (or_introl eq_refl)). lra.
    + simpl. rewrite IH by (intros; apply Hb; now right). reflexivity.
Qed.

Lemma scaling_factor_defined (np nd : tensor R) (d : nat) :
  scaling_factor np (norm nd d)
  = Ok {| shape := shape np;
          data := zip_with div_eps (data np) (data (norm nd d)) |}.
Proof.
  unfold scaling_factor.
  rewrite guarded_division_defined by (intros y Hy; eapply norm_nonneg; eauto).
  reflexivity.
Qed.

Lemma normalize_direction_defined (direction parameters : tensor R) :
  shape direction = shape parameters ->
  let d := norm_dimensions parameters in
  normalize_direction direction parameters
  = Ok (mul_broadcast direction
          {| shape := shape (norm parameters d);
             data := zip_with div_eps (data (norm parameters d))
                                      (data (norm direction d)) |} d).
Proof.
  intros Hs d. unfold normalize_direction.
  destruct (list_eq_dec Nat.eq_dec (shape direction) (shape parameters));
    [|contradiction].
  fold d. rewrite scaling_factor_defined. reflexivity.
Qed.

Lemma length_zip_with {A B C} (f : A -> B -> C) (a : list A) (b : list B) :
  length (zip_with f a b) = Nat.min (length a) (length b).
Proof. unfold zip_with. now rewrite length_map, length_combine. Qed.

Lemma nth_combine_lt {A B} (a : list A) (b : list B) (j : nat)
  (da : A) (db : B) :
  (j < length a)%nat -> (j < length b)%nat ->
  nth j (combine a b) (da, db) = (nth j a da, nth j b db).
Proof.
  revert b j. induction a as [|x a IH]; intros b j Ha Hb; simpl in *; [lia|].
  destruct b as [|y b]; simpl in *; [lia|].
  destruct j; [reflexivity|]. apply IH; lia.
Qed.

Lemma nth_zip_with {A B C} (f : A -> B -> C) (a : list A) (b : list B)
  (j : nat) (da : A) (db : B) (dc : C) :
  (j < length a)%nat -> (j < length b)%nat ->
  nth j (zip_with f a b) dc = f (nth j a da) (nth j b db).
Proof.
  intros Ha Hb. unfold zip_with.
  rewrite (nth_map_in _ _ (da, db)) by (rewrite length_combine; lia).
  now rewrite nth_combine_lt by assumption.
Qed.

Lemma zip_with_app {A B C} (f : A -> B -> C) (a a' : list A) (b b' : list B) :
  length a = length b ->
  zip_with f (a ++ a') (b ++ b') = zip_with f a b ++ zip_with f a' b'.
Proof.
  unfold zip_with. revert b. induction a as [|x a IH]; intros b H;
    destruct b as [|y b]; try discriminate; simpl; [reflexivity|].
  f_equal. apply IH. simpl in H. lia.
Qed.

Lemma concat_zip {A B C} (f : A -> B -> C) (xs : list (list A))
  (ys : list (list B)) (k : nat) :
  length xs = length ys ->
  (forall x, In x xs -> length x = k) ->
  (forall y, In y ys -> length y = k) ->
  zip_with f (concat xs) (concat ys) = concat (zip_with (zip_with f) xs ys).
Proof.
  revert ys. induction xs as [|x xs IH]; intros ys Hl Hx Hy;
    destruct ys as [|y ys]; try discriminate; [reflexivity|].
  simpl concat. rewrite zip_with_app.
  - unfold zip_with at 3. simpl. f_equal. apply IH.
    + simpl in Hl. lia.
    + intros; apply Hx; now right.
    + intros; apply Hy; now right.
  - rewrite (Hx x), (Hy y); auto; now left.
Qed.

Lemma zip_rows {A B C} (f : A -> B -> C) (xs : list (list A))
  (ys : list (list B)) (k : nat) (r : list C) :
  (forall x, In x xs -> length x = k) ->
  (forall y, In y ys -> length y = k) ->
  In r (zip_with (zip_with f) xs ys) -> length r = k.
Proof.
  intros Hx Hy Hr. unfold zip_with at 1 in Hr. apply in_map_iff in Hr.
  destruct Hr as ([x y] & <- & Hin). simpl.
  rewrite length_zip_with, (Hx x), (Hy y);
    [lia|eapply in_combine_r|eapply in_combine_l]; eassumption.
Qed.

Lemma norm_blocks_length (d : nat) (t : tensor R) :
  length (norm_blocks d t) = outer_count d t.
Proof. unfold norm_blocks. now rewrite length_map, view3_blocks. Qed.

Lemma norm_blocks_rows (d : nat) (t : tensor R) (r : list R) :
  In r (norm_blocks d t) -> length r = inner_count d t.
Proof.
  unfold norm_blocks. intros H. apply in_map_iff in H.
  destruct H as (b & <- & _). apply length_column_norms.
Qed.

(** The scaling factor, cut along the blocks of the direction, is the
    block-wise quotient of the norms. *)
Lemma factor_chunks (direction parameters : tensor R) (d : nat) :
  shape direction = shape parameters ->
  chunks (outer_count d direction) (inner_count d direction)
         (zip_with div_eps (data (norm parameters d))
                           (data (norm direction d)))
  = zip_with (zip_with div_eps) (norm_blocks d parameters)
                                (norm_blocks d direction).
Proof.
  intros Hs.
  assert (Ho : outer_count d parameters = outer_count d direction)
    by (unfold outer_count; now rewrite Hs).
  assert (Hi : inner_count d parameters = inner_count d direction)
    by (unfold inner_count; now rewrite Hs).
  unfold norm. simpl data.
  rewrite (@concat_zip _ _ _ div_eps _ _ (inner_count d direction)).
  - replace (outer_count d direction)
      with (length (zip_with (zip_with div_eps) (norm_blocks d parameters)
                             (norm_blocks d direction))).
    + apply chunks_concat. intros r Hr.
      eapply zip_rows; [| |exact Hr].
      * intros x Hx. rewrite <- Hi. now apply norm_blocks_rows.
      * intros y Hy. now apply norm_blocks_rows.
    + rewrite length_zip_with, !norm_blocks_length, Ho. apply Nat.min_id.
  - now rewrite !norm_blocks_length.
  - intros x Hx. rewrite <- Hi. now apply norm_blocks_rows.
  - intros y Hy. now apply norm_blocks_rows.
Qed.

Lemma length_scale_block (block : list (list R)) (s : list R) :
  length (scale_block block s) = length block.
Proof. unfold scale_block. apply length_map. Qed.

Lemma scale_block_rows (block : list (list R)) (s : list R) (k : nat)
  (r : list R) :
  (forall row, In row block -> length row = k) -> length s = k ->
  In r (scale_block block s) -> length r = k.
Proof.
  unfold scale_block. intros Hb Hs Hr. apply in_map_iff in Hr.
  destruct Hr as (row & <- & Hrow).
  rewrite length_zip_with, (Hb row Hrow), Hs. apply Nat.min_id.
Qed.

(** The view of the scaled direction is the view of the direction, scaled
    block by block. *)
Lemma view3_scaled (t : tensor R) (d : nat) (sfs : list (list R)) :
  (outer_count d t * (axis_len d t * inner_count d t) <= length (data t))%nat ->
  length sfs = outer_count d t ->
  (forall s, In s sfs -> length s = inner_count d t) ->
  view3 d {| shape := shape t;
             data := concat (map (fun p => concat (scale_block (fst p) (snd p)))
                                 (combine (view3 d t) sfs)) |}
  = map (fun p => scale_block (fst p) (snd p)) (combine (view3 d t) sfs).
Proof.
  intros Hlen Hsfs Hrows.
  set (pairs := combine (view3 d t) sfs).
  assert (Hpairs : forall p, In p pairs ->
            length (fst p) = axis_len d t /\
            (forall row, In row (fst p) -> length row = inner_count d t) /\
            length (snd p) = inner_count d t).
  { intros [b s] Hp. simpl. pose proof (in_combine_l _ _ _ _ Hp) as Hb.
    pose proof (in_combine_r _ _ _ _ Hp) as Hs.
    split; [now apply (view3_rows t d)|]. split; [|now apply Hrows].
    intros row Hrow. eapply view3_elements; eassumption. }
  unfold view3 at 1. unfold outer_count, axis_len, inner_count. simpl shape.
  fold (outer_count d t) (axis_len d t) (inner_count d t). simpl data.
  replace (outer_count d t)
    with (length (map (fun p => concat (scale_block (fst p) (snd p))) pairs)).
  2:{ unfold pairs. rewrite length_map, length_combine, view3_blocks, Hsfs.
      apply Nat.min_id. }
  rewrite chunks_concat.
  - rewrite map_map. apply map_ext_in. intros p Hp.
    destruct (Hpairs p Hp) as (Hn & Hr & Hs).
    rewrite <- Hn, <- (length_scale_block (fst p) (snd p)).
    apply chunks_concat. intros r Hin.
    eapply scale_block_rows; eassumption.
  - intros x Hx. apply in_map_iff in Hx. destruct Hx as (p & <- & Hp).
    destruct (Hpairs p Hp) as (Hn & Hr & Hs).
    rewrite (@length_concat_uniform _ _ (inner_count d t)).
    + now rewrite length_scale_block, Hn.
    + intros r Hin. eapply scale_block_rows; eassumption.
Qed.

Lemma nth_nonneg (l : list R) (j : nat) :
  (forall x, In x l -> 0 <= x) -> 0 <= nth j l 0.
Proof.
  intros H. destruct (Nat.lt_ge_cases j (length l)) as [Hj|Hj].
  - apply H. now apply nth_In.
  - rewrite nth_overflow by assumption. lra.
Qed.

Lemma nth_div_eps_nonneg (pN dN : list R) (j : nat) :
  (forall x, In x pN -> 0 <= x) -> (forall x, In x dN -> 0 <= x) ->
  0 <= nth j (zip_with div_eps pN dN) 0.
Proof.
  intros Hp Hd. apply nth_nonneg. intros x Hx.
  unfold zip_with in Hx. apply in_map_iff in Hx.
  destruct Hx as ([a b] & <- & Hin). simpl. unfold div_eps.
  pose proof (Hp a (in_combine_l _ _ _ _ Hin)).
  pose proof (Hd b (in_combine_r _ _ _ _ Hin)).
  pose proof eps_pos.
  apply Rmult_le_pos; [assumption|]. left. apply Rinv_0_lt_compat. lra.
Qed.

(** Within one block: the norm after scaling, times the guarded
    denominator, is the norm of the parameters times the norm before. *)
Lemma block_equation (inner : nat) (b : list (list R)) (pN : list R)
  (j : nat) :
  length pN = inner ->
  (forall x, In x pN -> 0 <= x) ->
  let dN := column_norms inner b in
  nth j (column_norms inner (scale_block b (zip_with div_eps pN dN))) 0
  * (nth j dN 0 + eps)
  = nth j pN 0 * nth j dN 0.
Proof.
  intros Hp Hpos dN.
  assert (Hd : forall x, In x dN -> 0 <= x)
    by (intros x Hx; eapply column_norms_nonneg; exact Hx).
  rewrite column_norms_scale by (now apply nth_div_eps_nonneg).
  fold dN.
  destruct (Nat.lt_ge_cases j inner) as [Hj|Hj].
  - rewrite (nth_zip_with div_eps pN dN 0 0 0)
      by (unfold dN; rewrite ?length_column_norms; lia).
    unfold div_eps. pose proof eps_pos.
    pose proof (@nth_nonneg dN j Hd). field. lra.
  - rewrite (nth_overflow (zip_with _ _ _))
      by (rewrite length_zip_with; lia).
    rewrite (nth_overflow pN) by lia. ring.
Qed.

(** After normalisation, block by block and position by position. *)
Lemma normalized_norm_blocks (direction parameters : tensor R) :
  well_formed direction ->
  shape direction = shape parameters ->
  let d := norm_dimensions parameters in
  exists normalized,
    normalize_direction direction parameters = Ok normalized /\
    shape normalized = shape direction /\
    forall o j,
      nth j (nth o (norm_blocks d normalized) []) 0
      * (nth j (nth o (norm_blocks d direction) []) 0 + eps)
      = nth j (nth o (norm_blocks d parameters) []) 0
        * nth j (nth o (norm_blocks d direction) []) 0.
Proof.
  intros Hwf Hs d.
  assert (Ho : outer_count d parameters = outer_count d direction)
    by (unfold outer_count; now rewrite Hs).
  assert (Hi : inner_count d parameters = inner_count d direction)
    by (unfold inner_count; now rewrite Hs).
  assert (Hlen : (outer_count d direction
                  * (axis_len d direction * inner_count d direction)
                  <= length (data direction))%nat).
  { unfold well_formed, numel in Hwf. rewrite Hwf.
    pose proof (shape_split (shape direction)) as Hsplit.
    cbv zeta in Hsplit.
    unfold outer_count, axis_len, inner_count, d, norm_dimensions, dim.
    rewrite <- Hs, <- Hsplit. apply Nat.le_refl. }
  eexists. split; [apply (@normalize_direction_defined direction parameters Hs)|].
  fold d. split; [reflexivity|].
  intros o j. unfold mul_broadcast. cbn [data].
  rewrite (@factor_chunks direction parameters d Hs).
  set (sfs := zip_with (zip_with div_eps) (norm_blocks d parameters)
                       (norm_blocks d direction)).
  assert (Hsl : length sfs = outer_count d direction).
  { unfold sfs. rewrite length_zip_with, !norm_blocks_length, Ho.
    apply Nat.min_id. }
  assert (Hsr : forall s, In s sfs -> length s = inner_count d direction).
  { intros s Hin. eapply zip_rows; [| |exact Hin].
    - intros x Hx. rewrite <- Hi. now apply norm_blocks_rows.
    - intros y Hy. now apply norm_blocks_rows. }
  unfold norm_blocks at 1. rewrite (@view3_scaled direction d sfs Hlen Hsl Hsr).
  unfold inner_count at 1. simpl shape. fold (inner_count d direction).
  rewrite map_map.
  destruct (Nat.lt_ge_cases o (outer_count d direction)) as [Hlt|Hge].
  - rewrite (nth_map_in _ _ ([], []))
      by (rewrite length_combine, view3_blocks, Hsl; lia).
    rewrite nth_combine_lt by (rewrite ?view3_blocks, ?Hsl; lia).
    simpl fst. simpl snd.
    unfold sfs.
    rewrite (nth_zip_with (zip_with div_eps) _ _ [] [] [])
      by (rewrite norm_blocks_length; lia).
    assert (HD : nth o (norm_blocks d direction) []
                 = column_norms (inner_count d direction)
                     (nth o (view3 d direction) [])).
    { unfold norm_blocks.
      now rewrite (nth_map_in _ _ []) by (rewrite view3_blocks; lia). }
    rewrite HD.
    apply block_equation.
    + rewrite <- Hi. apply norm_blocks_rows, nth_In.
      rewrite norm_blocks_length. lia.
    + intros x Hx. unfold norm_blocks in Hx.
      rewrite (nth_map_in _ _ []) in Hx by (rewrite view3_blocks; lia).
      eapply column_norms_nonneg; exact Hx.
  - rewrite (nth_overflow (map _ _))
      by (rewrite length_map, length_combine, view3_blocks, Hsl; lia).
    rewrite (nth_overflow (norm_blocks d parameters))
      by (rewrite norm_blocks_length; lia).
    destruct j; simpl; ring.
Qed.

Lemma scaled_data_length (t : tensor R) (d : nat) (sfs : list (list R)) :
  (outer_count d t * (axis_len d t * inner_count d t) <= length (data t))%nat ->
  length sfs = outer_count d t ->
  (forall s, In s sfs -> length s = inner_count d t) ->
  length (concat (map (fun p => concat (scale_block (fst p) (snd p)))
                      (combine (view3 d t) sfs)))
  = (outer_count d t * (axis_len d t * inner_count d t))%nat.
Proof.
  intros Hlen Hsfs Hrows.
  rewrite (@length_concat_uniform _ _ (axis_len d t * inner_count d t)).
  - now rewrite length_map, length_combine, view3_blocks, Hsfs, Nat.min_id.
  - intros x Hx. apply in_map_iff in Hx. destruct Hx as ([b s] & <- & Hp).
    simpl. pose proof (in_combine_l _ _ _ _ Hp) as Hb.
    pose proof (in_combine_r _ _ _ _ Hp) as Hs.
    rewrite (@length_concat_uniform _ _ (inner_count d t)).
    + now rewrite length_scale_block, (view3_rows t d b Hb).
    + intros r Hin.
      apply (@scale_block_rows b s (inner_count d t) r); [|auto|exact Hin].
      intros row Hrow. eapply view3_elements; eassumption.
Qed.

Lemma normalized_well_formed (direction parameters normalized : tensor R) :
  well_formed direction ->
  shape direction = shape parameters ->
  normalize_direction direction parameters = Ok normalized ->
  well_formed normalized.
Proof.
  intros Hwf Hs Hn.
  rewrite (@normalize_direction_defined direction parameters Hs) in Hn.
  injection Hn as <-.
  set (d := norm_dimensions parameters).
  assert (Ho : outer_count d parameters = outer_count d direction)
    by (unfold outer_count; now rewrite Hs).
  assert (Hi : inner_count d parameters = inner_count d direction)
    by (unfold inner_count; now rewrite Hs).
  assert (Hnum : numel direction
                 = (outer_count d direction
                    * (axis_len d direction * inner_count d direction))%nat).
  { pose proof (shape_split (shape direction)) as Hsplit.
    cbv zeta in Hsplit.
    unfold numel, outer_count, axis_len, inner_count, d, norm_dimensions, dim.
    now rewrite <- Hs. }
  unfold well_formed, mul_broadcast, numel. cbn [data shape].
  fold (numel direction).
  pose proof (@factor_chunks direction parameters d Hs) as Hf.
  unfold norm in Hf. cbn [data] in Hf. rewrite Hf, Hnum.
  apply scaled_data_length.
  - unfold well_formed in Hwf. rewrite Hwf, Hnum. apply Nat.le_refl.
  - rewrite length_zip_with, !norm_blocks_length, Ho. apply Nat.min_id.
  - intros s Hin. eapply zip_rows; [| |exact Hin].
    + intros x Hx. rewrite <- Hi. now apply norm_blocks_rows.
    + intros y Hy. now apply norm_blocks_rows.
Qed.

Lemma sum_squares_singletons (n : nat) (l : list R) :
  length l = n ->
  sum_squares 0 (chunks n 1 l) = fold_right (fun x acc => x * x + acc) 0 l.
Proof.
  revert l. induction n as [|n IH]; intros l Hl.
  - destruct l; [reflexivity|discriminate].
  - destruct l as [|x l]; [discriminate|].
    change (x * x + sum_squares 0 (chunks n 1 l)
            = x * x + fold_right (fun x acc => x * x + acc) 0 l).
    rewrite IH by (simpl in Hl; lia). reflexivity.
Qed.

(** For a tensor of at most two dimensions, the norms the code takes
    along [norm_dimensions] are the norms of the slices along the first
    dimension. *)
Lemma per_unit_norms_blocks (t : tensor R) (o : nat) :
  well_formed t -> (dim t <= 2)%nat ->
  nth o (per_unit_norms t) 0
  = nth 0 (nth o (norm_blocks (norm_dimensions t) t) []) 0.
Proof.
  destruct t as [s l]. unfold well_formed, dim, numel, per_unit_norms,
    norm_dimensions, norm_blocks, view3, outer_count, axis_len, inner_count,
    dim. simpl shape. simpl data. intros Hwf Hdim.
  destruct s as [|a [|b [|c r]]]; simpl in Hdim; try lia.
  - simpl in Hwf |- *. destruct l as [|x [|y l]]; try discriminate.
    destruct o as [|[|o]]; reflexivity.
  - simpl in Hwf |- *. rewrite Nat.mul_1_r in Hwf.
    rewrite Nat.mul_1_r, firstn_all2 by lia.
    destruct o as [|[|o]]; try reflexivity.
    unfold column_norms, slice_norm. simpl.
    now rewrite (@sum_squares_singletons a l Hwf).
  - simpl in Hwf |- *. rewrite !Nat.mul_1_r in *.
    rewrite map_map.
    destruct (Nat.lt_ge_cases o a) as [Hlt|Hge].
    + rewrite !(nth_map_in _ _ []) by (rewrite length_chunks; lia).
      unfold column_norms, slice_norm. simpl.
      rewrite sum_squares_singletons; [reflexivity|].
      eapply chunks_rows; [|apply nth_In; rewrite length_chunks; exact Hlt].
      lia.
    + rewrite (nth_overflow (map slice_norm _))
        by (rewrite length_map, length_chunks; lia).
      rewrite (nth_overflow (map (fun x => column_norms 1 _) _))
        by (rewrite length_map, length_chunks; lia).
      reflexivity.
Qed.

(** What normalisation achieves for the slices of a tensor of at most two
    dimensions. *)
Lemma normalized_per_unit_norms (direction parameters : tensor R) :
  well_formed direction ->
  well_formed parameters ->
  shape direction = shape parameters ->
  (dim parameters <= 2)%nat ->
  exists normalized,
    normalize_direction direction parameters = Ok normalized /\
    shape normalized = shape direction /\
    forall o,
      nth o (per_unit_norms normalized) 0
      * (nth o (per_unit_norms direction) 0 + eps)
      = nth o (per_unit_norms parameters) 0
        * nth o (per_unit_norms direction) 0.
Proof.
  intros HwD HwP Hs Hdim.
  destruct (@normalized_norm_blocks direction parameters HwD Hs)
    as (normalized & Hn & Hsn & Heq).
  exists normalized. split; [exact Hn|]. split; [exact Hsn|].
  intros o.
  assert (HdD : norm_dimensions direction = norm_dimensions parameters)
    by (unfold norm_dimensions, dim; now rewrite Hs).
  assert (HdN : norm_dimensions normalized = norm_dimensions parameters)
    by (unfold norm_dimensions, dim; now rewrite Hsn, Hs).
  assert (HwN : well_formed normalized)
    by exact (@normalized_well_formed direction parameters normalized
                HwD Hs Hn).
  assert (HdimD : (dim direction <= 2)%nat)
    by (unfold dim; rewrite Hs; exact Hdim).
  assert (HdimN : (dim normalized <= 2)%nat)
    by (unfold dim; rewrite Hsn, Hs; exact Hdim).
  rewrite (@per_unit_norms_blocks normalized o HwN HdimN).
  rewrite (@per_unit_norms_blocks direction o HwD HdimD).
  rewrite (@per_unit_norms_blocks parameters o HwP Hdim).
  rewrite HdD, HdN. apply Heq.
Qed.

Lemma per_unit_norms_nonneg (t : tensor R) (o : nat) :
  0 <= nth o (per_unit_norms t) 0.
Proof.
  apply nth_nonneg. intros x Hx. unfold per_unit_norms in Hx.
  destruct (1 <? dim t)%nat.
  - apply in_map_iff in Hx. destruct Hx as (l & <- & _). apply sqrt_pos.
  - destruct Hx as [<-|[]]. apply sqrt_pos.
Qed.

(** C2, as the code has it: for a direction and parameters of one shape
    with at most two dimensions, the norm [n'] of each slice of the
    normalised direction satisfies [n' * (nd + 1e-10) = np * nd], where
    [nd] and [np] are the norms of the slice of the direction and of the
    parameters; so [n'] is at most [np] and falls short of it by
    [np * 1e-10 / (nd + 1e-10)]. *)
Theorem normalized_slices_match_parameter_norms
  (direction parameters : tensor R) :
  well_formed direction ->
  well_formed parameters ->
  shape direction = shape parameters ->
  (dim parameters <= 2)%nat ->
  exists normalized,
    normalize_direction direction parameters = Ok normalized /\
    shape normalized = shape direction /\
    forall o,
      let n' := nth o (per_unit_norms normalized) 0 in
      let nd := nth o (per_unit_norms direction) 0 in
      let np := nth o (per_unit_norms parameters) 0 in
      n' * (nd + eps) = np * nd /\
      n' <= np /\
      np - n' = np * (eps / (nd + eps)).
Proof.
  intros HwD HwP Hs Hdim.
  destruct (@normalized_per_unit_norms direction parameters HwD HwP Hs Hdim)
    as (normalized & Hn & Hsn & Heq).
  exists normalized. split; [exact Hn|]. split; [exact Hsn|].
  intros o n' nd np.
  pose proof (Heq o) as E. fold n' nd np in E.
  pose proof (per_unit_norms_nonneg direction o) as Hnd. fold nd in Hnd.
  pose proof (per_unit_norms_nonneg parameters o) as Hnp. fold np in Hnp.
  pose proof eps_pos as Heps.
  assert (Hn' : n' = np * nd / (nd + eps)).
  { apply (Rmult_eq_reg_r (nd + eps)); [|lra]. rewrite E. field. lra. }
  split; [exact E|]. split.
  - apply (Rmult_le_reg_r (nd + eps)); [lra|]. rewrite E. nra.
  - rewrite Hn'. field. lra.
Qed.

Lemma normalized_slices_match_parameter_norms_witness :
  exists normalized,
    normalize_direction {| shape := [2%nat]; data := [1; 0] |}
                        {| shape := [2%nat]; data := [3; 4] |}
    = Ok normalized /\
    shape normalized = [2%nat] /\
    forall o,
      let n' := nth o (per_unit_norms normalized) 0 in
      let nd := nth o (per_unit_norms {| shape := [2%nat]; data := [1; 0] |}) 0 in
      let np := nth o (per_unit_norms {| shape := [2%nat]; data := [3; 4] |}) 0 in
      n' * (nd + eps) = np * nd /\
      n' <= np /\
      np - n' = np * (eps / (nd + eps)).
Proof.
  apply (@normalized_slices_match_parameter_norms
           {| shape := [2%nat]; data := [1; 0] |}
           {| shape := [2%nat]; data := [3; 4] |}).
  - reflexivity.
  - reflexivity.
  - reflexivity.
  - unfold dim. simpl. lia.
Defined.

(** C2, as the specification has it, fails: the direction [(0, 0)]
    normalised against the parameters [(3, 4)] keeps the norm 0, which is
    not within 1e-10 of the norm 5 of the parameters. *)
Lemma zero_direction_keeps_zero_norm :
  ~ (forall direction parameters normalized : tensor R,
       well_formed direction ->
       well_formed parameters ->
       shape direction = shape parameters ->
       normalize_direction direction parameters = Ok normalized ->
       forall o,
         Rabs (nth o (per_unit_norms normalized) 0
               - nth o (per_unit_norms parameters) 0) <= eps).
Proof.
  intros H.
  set (D := {| shape := [2%nat]; data := [0; 0] |}).
  set (P := {| shape := [2%nat]; data := [3; 4] |}).
  assert (HwD : well_formed D) by reflexivity.
  assert (HwP : well_formed P) by reflexivity.
  assert (Hs : shape D = shape P) by reflexivity.
  assert (Hdim : (dim P <= 2)%nat) by (unfold dim; simpl; lia).
  destruct (@normalized_per_unit_norms D P HwD HwP Hs Hdim)
    as (N & Hn & _ & Heq).
  specialize (H D P N HwD HwP Hs Hn 0%nat).
  specialize (Heq 0%nat).
  assert (HD : nth 0 (per_unit_norms D) 0 = 0).
  { unfold per_unit_norms, slice_norm. simpl.
    replace (0 * 0 + (0 * 0 + 0)) with 0 by ring. apply sqrt_0. }
  assert (HP : nth 0 (per_unit_norms P) 0 = 5).
  { unfold per_unit_norms, slice_norm. simpl.
    replace (3 * 3 + (4 * 4 + 0)) with (5 * 5) by ring.
    apply sqrt_square. lra. }
  rewrite HD, HP in Heq. rewrite HP in H.
  pose proof eps_pos as Heps.
  assert (HN : nth 0 (per_unit_norms N) 0 = 0) by nra.
  rewrite HN in H.
  assert (Hlt : eps < 5).
  { unfold eps. apply (Rmult_lt_reg_r (10 ^ 10)); [apply pow_lt; lra|].
    unfold Rdiv. rewrite Rmult_assoc, Rinv_l, Rmult_1_r
      by (apply Rgt_not_eq, pow_lt; lra).
    simpl. lra. }
  unfold Rabs in H. destruct (Rcase_abs (0 - 5)); lra.
Qed.

(** C8: whatever the direction, a zero one included, the guarded division
    has a quotient for every slice, so the call returns; every
    denominator is at least 1e-10; and a direction of zeros stays a
    direction of zeros. *)
Theorem zero_norm_direction_is_normalized_silently
  (direction parameters : tensor R) :
  shape direction = shape parameters ->
  exists normalized,
    normalize_direction direction parameters = Ok normalized /\
    shape normalized = shape direction /\
    (forall y, In y (data (norm direction (norm_dimensions parameters))) ->
               eps <= y + eps) /\
    ((forall x, In x (data direction) -> x = 0) ->
     forall x, In x (data normalized) -> x = 0).
Proof.
  intros Hs. eexists.
  split; [apply (@normalize_direction_defined direction parameters Hs)|].
  split; [reflexivity|]. split.
  - intros y Hy. pose proof (norm_nonneg _ _ _ Hy). lra.
  - intros Hzero x Hx. unfold mul_broadcast in Hx. cbn [data] in Hx.
    apply in_concat in Hx. destruct Hx as (l & Hl & Hx).
    apply in_map_iff in Hl. destruct Hl as ([b s] & <- & Hp).
    simpl in Hx. apply in_concat in Hx. destruct Hx as (r & Hr & Hx).
    unfold scale_block in Hr. apply in_map_iff in Hr.
    destruct Hr as (row & <- & Hrow).
    unfold zip_with in Hx. apply in_map_iff in Hx.
    destruct Hx as ([a f] & <- & Haf). simpl.
    rewrite (Hzero a); [ring|].
    eapply view3_in_data;
      [eapply in_combine_l; exact Hp|exact Hrow|eapply in_combine_l; exact Haf].
Qed.

Lemma zero_norm_direction_is_normalized_silently_witness :
  exists normalized,
    normalize_direction {| shape := [2%nat]; data := [0; 0] |}
                        {| shape := [2%nat]; data := [3; 4] |}
    = Ok normalized /\
    shape normalized = [2%nat] /\
    (forall y,
        In y (data (norm {| shape := [2%nat]; data := [0; 0] |}
                         (norm_dimensions {| shape := [2%nat]; data := [3; 4] |}))) ->
        eps <= y + eps) /\
    ((forall x, In x [0; 0] -> x = 0) ->
     forall x, In x (data normalized) -> x = 0).
Proof.
  apply (@zero_norm_direction_is_normalized_silently
           {| shape := [2%nat]; data := [0; 0] |}
           {| shape := [2%nat]; data := [3; 4] |}).
  reflexivity.
Defined.

(** In three dimensions the norms the code takes along dimension 1 are not
    the norms of the slices along the first dimension: a tensor of shape
    [1, 1, 2] has two of the former and one of the latter. *)
Lemma norm_along_dim_1_is_not_per_unit_in_three_dimensions :
  let t := {| shape := [1%nat; 1%nat; 2%nat]; data := [1; 0] |} in
  length (data (norm t (norm_dimensions t))) = 2%nat /\
  length (per_unit_norms t) = 1%nat.
Proof. split; reflexivity. Qed.

(** There the normalised direction can lose its norm altogether although
    the slice of the direction has norm 1: the direction [[[1, 0]]]
    against the parameters [[[0, 1]]] becomes zero. *)
Lemma three_dimensional_direction_can_vanish :
  let D := {| shape := [1%nat; 1%nat; 2%nat]; data := [1; 0] |} in
  let P := {| shape := [1%nat; 1%nat; 2%nat]; data := [0; 1] |} in
  per_unit_norms D = [1] /\
  per_unit_norms P = [1] /\
  exists N, normalize_direction D P = Ok N /\ data N = [0; 0].
Proof.
  intros D P.
  assert (H0 : sqrt (0 * 0 + 0) = 0)
    by (replace (0 * 0 + 0) with 0 by ring; apply sqrt_0).
  assert (H1 : sqrt (1 * 1 + 0) = 1)
    by (replace (1 * 1 + 0) with (1 * 1) by ring; apply sqrt_square; lra).
  split; [|split].
  - unfold per_unit_norms, slice_norm. simpl.
    replace (1 * 1 + (0 * 0 + 0)) with (1 * 1) by ring.
    rewrite sqrt_square by lra. reflexivity.
  - unfold per_unit_norms, slice_norm. simpl.
    replace (0 * 0 + (1 * 1 + 0)) with (1 * 1) by ring.
    rewrite sqrt_square by lra. reflexivity.
  - eexists. split.
    + apply (@normalize_direction_defined D P). reflexivity.
    + unfold mul_broadcast, norm, norm_blocks, column_norms, sum_squares,
        zip_with, div_eps. simpl.
      rewrite H0, H1. f_equal; [|f_equal]; unfold Rdiv; ring.
Qed.

Close Scope R_scope.

(** ** Runs of the training loop on scripted losses *)

(** The losses 5, 3, 4, 4, 4, 1 with a patience of 2: the loop breaks in
    epoch 3, two epochs after the best epoch 1, and the net returned is
    the one checkpointed in epoch 1 (after two steps). *)
Example early_stopping_run :
  let B := scripted [Fin 5; Fin 3; Fin 4; Fin 4; Fin 4; Fin 1] in
  snd (for_epochs 2 [] reduction_sum (range 6) (start B 0%nat)) = Break 3 /\
  fit B 0%nat [] reduction_sum 6 2
  = ([train_epochs_call; train_epochs_call; train_epochs_call;
      train_epochs_call; load_state_dict_call], Ok 2%nat).
Proof. split; reflexivity. Qed.

(** No epoch at all, and nothing but nan losses: nothing to reload. *)
Example reload_fails_run :
  fit (scripted []) 0%nat [] reduction_sum 0 250
  = ([load_state_dict_call], Raise TypeError) /\
  fit (scripted [NaN; NaN; NaN]) 0%nat [] reduction_mean 3 250
  = ([train_epochs_call; train_epochs_call; train_epochs_call;
      load_state_dict_call], Raise TypeError).
Proof. split; reflexivity. Qed.

(** * Further properties of the code *)

(** ** The training loop: how long it runs *)

Section LoopBounds.

Variable B : backend.
Variable m : net B.
Variable dataset : matrix.
Variable criterion : reduction.

Local Abbreviation loss := (loss_item_at B m dataset criterion).
Local Abbreviation after := (tracked B m dataset criterion).
Local Abbreviation stops := (@stops B m dataset criterion).

Lemma best_epoch_bounds (n : nat) :
  (0 <= best_epoch (after n))%Z /\
  (best_epoch (after n) <= Z.max 0 (Z.of_nat n - 1))%Z.
Proof.
  destruct (tracked_invariant B m dataset criterion n)
    as [(_ & _ & He & _)|(b & (Hb & _) & He & _)]; rewrite He; lia.
Qed.

(** X1: The loop runs at most [training_epochs] epochs; it never breaks before
    epoch [early_stopping_epochs]; and with a patience of at least
    [training_epochs] it never breaks at all. *)
Theorem early_stopping_never_fires_before_the_patience
  (training_epochs early_stopping_epochs : Z) :
  let pe := for_epochs early_stopping_epochs dataset criterion
              (range training_epochs) (start B m) in
  (epochs_run training_epochs (snd pe) <= Z.to_nat training_epochs)%nat /\
  (forall j, snd pe = Break j ->
             (early_stopping_epochs <= j < training_epochs)%Z) /\
  ((training_epochs <= early_stopping_epochs)%Z ->
   snd pe = Exhausted /\
   epochs_run training_epochs (snd pe) = Z.to_nat training_epochs).
Proof.
  intros pe.
  pose proof (loop_outcome B m dataset criterion training_epochs
                early_stopping_epochs) as Hout.
  cbv zeta in Hout. fold pe in Hout.
  assert (Hbreak : forall j, snd pe = Break j ->
            (early_stopping_epochs <= j < training_epochs)%Z).
  { intros j Hj.
    destruct Hout as [(He & _)|(k & Hk & He & _ & Hs & _)]; [congruence|].
    rewrite He in Hj. injection Hj as <-.
    unfold stops in Hs. apply Z.geb_le in Hs.
    pose proof (best_epoch_bounds (S k)). lia. }
  split; [|split].
  - destruct Hout as [(He & _)|(k & Hk & He & _)]; rewrite He; simpl; lia.
  - exact Hbreak.
  - intros Hle.
    destruct (snd pe) as [|j] eqn:E; [split; reflexivity|].
    specialize (Hbreak j eq_refl). lia.
Qed.

(** X2: With a patience of zero or less the test succeeds in the first epoch:
    exactly one epoch is run, whatever [training_epochs] allows. *)
Theorem nonpositive_patience_runs_a_single_epoch
  (training_epochs early_stopping_epochs : Z) :
  (early_stopping_epochs <= 0)%Z ->
  (0 < training_epochs)%Z ->
  let pe := for_epochs early_stopping_epochs dataset criterion
              (range training_epochs) (start B m) in
  snd pe = Break 0 /\ epochs_run training_epochs (snd pe) = 1%nat.
Proof.
  intros HE HT pe.
  pose proof (loop_outcome B m dataset criterion training_epochs
                early_stopping_epochs) as Hout.
  cbv zeta in Hout. fold pe in Hout.
  assert (H0 : stops early_stopping_epochs 0 = true).
  { unfold stops. apply Z.geb_le. pose proof (best_epoch_bounds 1). lia. }
  destruct Hout as [(_ & _ & Hall)|(j & Hj & He & _ & _ & Hall)].
  - rewrite (Hall 0%nat) in H0 by lia. discriminate.
  - destruct j as [|j].
    + rewrite He. split; reflexivity.
    + rewrite (Hall 0%nat) in H0 by lia. discriminate.
Qed.

(** X3: The bookkeeping only moves one way: the best loss never rises, the
    best epoch never goes back and is never ahead of the epochs run. *)
Theorem best_loss_never_rises (n : nat) :
  (best_loss (after (S n)) = best_loss (after n) \/
   flt (best_loss (after (S n))) (best_loss (after n)) = true) /\
  (best_epoch (after n) <= best_epoch (after (S n)) <= Z.of_nat n)%Z.
Proof.
  pose proof (best_epoch_bounds n) as Hn.
  destruct (run_epoch_fields B m dataset criterion n)
    as [(Hlt & He & Hl & _)|(_ & He & Hl & _)]; cbv zeta in *.
  - rewrite He, Hl. split; [right; exact Hlt|lia].
  - rewrite He, Hl. split; [left; reflexivity|lia].
Qed.

(** X4: The patience is counted from epoch 0 even when no loss has been
    recorded: if the first [early_stopping_epochs + 1] losses are nan or
    infinite, the loop breaks in epoch [early_stopping_epochs] and the
    reload fails. *)
Theorem unrecorded_losses_exhaust_the_patience
  (training_epochs early_stopping_epochs : Z) :
  (0 <= early_stopping_epochs < training_epochs)%Z ->
  (forall k, (k <= Z.to_nat early_stopping_epochs)%nat ->
             flt (loss k) PInf = false) ->
  snd (for_epochs early_stopping_epochs dataset criterion
         (range training_epochs) (start B m))
  = Break early_stopping_epochs /\
  result (fit B m dataset criterion training_epochs early_stopping_epochs)
  = Raise TypeError.
Proof.
  intros HE Hloss.
  set (pe := for_epochs early_stopping_epochs dataset criterion
               (range training_epochs) (start B m)).
  set (e := Z.to_nat early_stopping_epochs).
  assert (Hnone : forall k, (k <= S e)%nat ->
            best_model_state_dict (after k) = None /\
            best_epoch (after k) = 0%Z).
  { intros k Hk.
    destruct (tracked_invariant B m dataset criterion k)
      as [(Hsd & _ & He & _)|(b & (Hb & Hbi & _) & _)].
    - split; assumption.
    - rewrite Hloss in Hbi by (unfold e in *; lia). discriminate. }
  assert (Hstop : forall k, (k <= e)%nat ->
            stops early_stopping_epochs k = (e <=? k)%nat).
  { intros k Hk. unfold stops.
    destruct (Hnone (S k) ltac:(lia)) as [_ He]. rewrite He.
    destruct (e <=? k)%nat eqn:E.
    - apply Nat.leb_le in E. apply Z.geb_le. unfold e in *. lia.
    - apply Nat.leb_gt in E.
      destruct (Z.of_nat k - 0 >=? early_stopping_epochs)%Z eqn:E2;
        [|reflexivity].
      apply Z.geb_le in E2. unfold e in *. lia. }
  pose proof (loop_outcome B m dataset criterion training_epochs
                early_stopping_epochs) as Hout.
  cbv zeta in Hout. fold pe in Hout.
  assert (Hbreak : snd pe = Break early_stopping_epochs /\ fst pe = after (S e)).
  { destruct Hout as [(_ & _ & Hall)|(j & Hj & He & Hp & Hs & Hall)].
    - specialize (Hall e ltac:(unfold e; lia)).
      rewrite Hstop, Nat.leb_refl in Hall by lia. discriminate.
    - assert (j = e).
      { destruct (Nat.lt_trichotomy j e) as [H|[H|H]]; [|exact H|].
        - rewrite Hstop in Hs by lia. apply Nat.leb_le in Hs. lia.
        - specialize (Hall e H). rewrite Hstop, Nat.leb_refl in Hall by lia.
          discriminate. }
      subst j. rewrite He, Hp. split; [|reflexivity].
      f_equal. unfold e. lia. }
  destruct Hbreak as [Hb Hp]. split; [exact Hb|].
  rewrite fit_result. fold pe. unfold reload. rewrite Hp.
  destruct (Hnone (S e) ltac:(lia)) as [Hsd _]. now rewrite Hsd.
Qed.

End LoopBounds.

Lemma nonpositive_patience_runs_a_single_epoch_witness :
  let pe := for_epochs 0 [] reduction_sum (range 5)
              (start (scripted [Fin 3; Fin 2]) 0%nat) in
  snd pe = Break 0 /\ epochs_run 5 (snd pe) = 1%nat.
Proof.
  apply (@nonpositive_patience_runs_a_single_epoch
           (scripted [Fin 3; Fin 2]) 0%nat [] reduction_sum 5 0); lia.
Defined.

Lemma unrecorded_losses_exhaust_the_patience_witness :
  snd (for_epochs 2 [] reduction_sum (range 5)
         (start (scripted [NaN; PInf; NaN; Fin 1]) 0%nat))
  = Break 2 /\
  result (fit (scripted [NaN; PInf; NaN; Fin 1]) 0%nat [] reduction_sum 5 2)
  = Raise TypeError.
Proof.
  apply (@unrecorded_losses_exhaust_the_patience
           (scripted [NaN; PInf; NaN; Fin 1]) 0%nat [] reduction_sum 5 2).
  - lia.
  - intros k Hk. destruct k as [|[|[|k]]]; try reflexivity.
    exfalso. cbn in Hk. lia.
Defined.

(** ** Traces of whole runs *)

Lemma bind_ok {A B} (t : list torch_call) (a : A) (f : A -> traced B) :
  bind (t, Ok a) f = (t ++ trace (f a), result (f a)).
Proof. simpl. destruct (f a). reflexivity. Qed.

Lemma bind_torch_ok {A B} (c : torch_call) (a : A) (f : A -> traced B) :
  bind (torch c (Ok a)) f = (c :: trace (f a), result (f a)).
Proof. unfold torch. now rewrite bind_ok. Qed.

Lemma bind_lift_ok {A B} (a : A) (f : A -> traced B) :
  bind (lift (Ok a)) f = f a.
Proof. unfold lift. rewrite bind_ok. now destruct (f a). Qed.

Lemma for_each_ok {A B} (f : A -> traced B) (tr : A -> list torch_call)
  (g : A -> B) (l : list A) :
  (forall a, In a l -> f a = (tr a, Ok (g a))) ->
  for_each f l = (concat (map tr l), Ok (map g l)).
Proof.
  induction l as [|a l IH]; intros H; [reflexivity|].
  simpl for_each. rewrite (H a (or_introl eq_refl)), bind_ok.
  rewrite IH by (intros; apply H; now right).
  rewrite bind_ok. cbn [ret trace result fst snd map concat].
  now rewrite app_nil_r.
Qed.

Lemma centred_run (pv : vector) (intermediate_results : list ParameterSet) :
  (forall r, In r intermediate_results ->
             r <> [] /\ length (flat r) = length pv) ->
  centred pv true intermediate_results
  = (concat (map (fun _ => [parameters_to_vector_call; sub_call;
                            to_device_call]) intermediate_results),
     Ok (map (fun r => vminus (flat r) pv) intermediate_results)).
Proof.
  intros H. unfold centred. apply for_each_ok. intros r Hr.
  destruct (H r Hr) as [Hne Hlen].
  rewrite parameters_to_vector_ok by assumption.
  rewrite bind_torch_ok.
  rewrite vsub_same_length by assumption. reflexivity.
Qed.

(** ** The static builders and their guards *)

Section Guards.

Variable B : backend.

(** X5: Called directly with an empty list, each of the four static builders
    raises [ValueError] before any tensor call, whatever the other
    arguments are (a wrong number of basis counts included). *)
Theorem static_builders_reject_an_empty_list
  (parameters : ParameterSet) (dev : device)
  (early_stopping_epochs training_epochs : Z) (autoencoder_lr : Q)
  (number_of_layers : Z) (intermediate_basis_count : list nat) :
  PcaDirections.create_pca_directions B [] parameters dev
    = ([], Raise ValueError) /\
  SvdDirections.create_learnable_directions B [] parameters
    = ([], Raise ValueError) /\
  LearnableDirections.create_learnable_directions B [] parameters dev
      early_stopping_epochs training_epochs autoencoder_lr number_of_layers
      intermediate_basis_count
    = ([], Raise ValueError) /\
  LearnableNonlinearDirections.create_learnable_directions B [] parameters dev
      early_stopping_epochs training_epochs autoencoder_lr number_of_layers
      intermediate_basis_count
    = ([], Raise ValueError).
Proof. repeat split. Qed.

(** The linear-chain builder finds a wrong number of basis counts only
    after the whole dataset is built: one flattening of the optimized
    parameters, a flattening, a subtraction and a transfer per snapshot,
    and the stacking. *)
Theorem linear_builder_finds_the_basis_mismatch_after_the_dataset
  (intermediate_results : list ParameterSet) (parameters : ParameterSet)
  (dev : device) (early_stopping_epochs training_epochs : Z)
  (autoencoder_lr : Q) (number_of_layers : Z)
  (intermediate_basis_count : list nat) :
  intermediate_results <> [] ->
  parameters <> [] ->
  (forall r, In r intermediate_results ->
             r <> [] /\ length (flat r) = length (flat parameters)) ->
  Z.of_nat (length intermediate_basis_count) <> (number_of_layers - 1)%Z ->
  LearnableDirections.create_learnable_directions B intermediate_results
    parameters dev early_stopping_epochs training_epochs autoencoder_lr
    number_of_layers intermediate_basis_count
  = (parameters_to_vector_call
       :: concat (map (fun _ => [parameters_to_vector_call; sub_call;
                                 to_device_call]) intermediate_results)
       ++ [stack_call],
     Raise AssertionError).
Proof.
  intros Hne Hpne Hsnap Hlen.
  unfold LearnableDirections.create_learnable_directions.
  rewrite (nonempty_length_eqb Hne).
  rewrite parameters_to_vector_ok by assumption.
  rewrite bind_torch_ok.
  rewrite centred_run by assumption. rewrite bind_ok.
  rewrite (@stack_ok _ (length (flat parameters))).
  2:{ intros Hnil. apply map_eq_nil in Hnil. contradiction. }
  2:{ intros v Hv. eapply centred_rows_length; eassumption. }
  rewrite bind_torch_ok.
  destruct intermediate_results as [|r0 rs]; [congruence|].
  cbn [map item nth_error]. rewrite bind_lift_ok.
  unfold LearnableDirections.LearnableAutoEncoder.
  apply Z.eqb_neq in Hlen. rewrite Hlen.
  cbn [negb raise bind trace result fst snd].
  reflexivity.
Qed.

End Guards.

(** ** The layers of the autoencoders *)

Lemma repeat_calls {A} (c : torch_call) (l : list A) :
  concat (map (fun _ => [c]) l) = repeat c (length l).
Proof. induction l as [|a l IH]; simpl; [reflexivity|]. now rewrite IH. Qed.

Lemma init_run {A} (l : list A) :
  for_each (fun _ : A => torch kaiming_uniform_call (Ok tt)) l
  = (repeat kaiming_uniform_call (length l), Ok (map (fun _ => tt) l)).
Proof.
  rewrite (for_each_ok _ (fun _ => [kaiming_uniform_call]) (fun _ => tt))
    by reflexivity.
  now rewrite repeat_calls.
Qed.

(** The shape of weight [k] of the linear chain when every index is in
    range. *)
Lemma layer_shape_in_range (number_of_layers : Z)
  (intermediate_basis_count : list nat) (feature_dim k : nat) :
  (2 <= number_of_layers)%Z ->
  Z.of_nat (length intermediate_basis_count) = (number_of_layers - 1)%Z ->
  (k < Z.to_nat number_of_layers)%nat ->
  LearnableDirections.layer_shape number_of_layers intermediate_basis_count
    feature_dim (Z.of_nat k)
  = Ok (if (k =? 0)%nat then (nth 0 intermediate_basis_count 0%nat, feature_dim)
        else if (k =? Z.to_nat number_of_layers - 1)%nat
             then (2%nat, nth (k - 1) intermediate_basis_count 0%nat)
             else (nth k intermediate_basis_count 0%nat,
                   nth (k - 1) intermediate_basis_count 0%nat)).
Proof.
  intros Hn Hlen Hk. unfold LearnableDirections.layer_shape.
  destruct (Nat.eqb_spec k 0) as [->|Hk0].
  - simpl. rewrite (item_ok _ 0%nat) by lia. reflexivity.
  - replace (Z.of_nat k =? 0)%Z with false by (symmetry; apply Z.eqb_neq; lia).
    replace (Z.to_nat (Z.of_nat k - 1)) with (k - 1)%nat by lia.
    rewrite Nat2Z.id.
    destruct (Nat.eqb_spec k (Z.to_nat number_of_layers - 1)) as [Hl|Hl].
    + replace (Z.of_nat k =? number_of_layers - 1)%Z with true
        by (symmetry; apply Z.eqb_eq; lia).
      rewrite (item_ok _ 0%nat) by lia. reflexivity.
    + replace (Z.of_nat k =? number_of_layers - 1)%Z with false
        by (symmetry; apply Z.eqb_neq; lia).
      rewrite (item_ok _ 0%nat) by lia. simpl.
      rewrite (item_ok _ 0%nat) by lia. reflexivity.
Qed.

Lemma linear_autoencoder_run (number_of_layers : Z)
  (intermediate_basis_count : list nat) (feature_dim : nat) :
  (2 <= number_of_layers)%Z ->
  Z.of_nat (length intermediate_basis_count) = (number_of_layers - 1)%Z ->
  let n := Z.to_nat number_of_layers in
  LearnableDirections.LearnableAutoEncoder number_of_layers feature_dim
    intermediate_basis_count
  = (repeat Tensor_call n ++ repeat kaiming_uniform_call n,
     Ok (map (fun k =>
                if (k =? 0)%nat
                then (nth 0 intermediate_basis_count 0%nat, feature_dim)
                else if (k =? n - 1)%nat
                     then (2%nat, nth (k - 1) intermediate_basis_count 0%nat)
                     else (nth k intermediate_basis_count 0%nat,
                           nth (k - 1) intermediate_basis_count 0%nat))
             (seq 0 n))).
Proof.
  intros Hn Hlen n. unfold LearnableDirections.LearnableAutoEncoder.
  apply Z.eqb_eq in Hlen. rewrite Hlen. cbn [negb]. unfold range. fold n.
  set (g := fun k : nat =>
              if (k =? 0)%nat
              then (nth 0 intermediate_basis_count 0%nat, feature_dim)
              else if (k =? n - 1)%nat
                   then (2%nat, nth (k - 1) intermediate_basis_count 0%nat)
                   else (nth k intermediate_basis_count 0%nat,
                         nth (k - 1) intermediate_basis_count 0%nat)).
  rewrite (for_each_ok _ (fun _ => [Tensor_call])
             (fun i => g (Z.to_nat i))).
  - rewrite bind_ok, init_run, bind_ok. cbn [ret trace result fst snd].
    rewrite repeat_calls, !length_map, length_seq, app_nil_r, map_map.
    f_equal. f_equal. apply map_ext. intros k. now rewrite Nat2Z.id.
  - intros i Hi. apply in_map_iff in Hi. destruct Hi as (k & <- & Hk).
    apply in_seq in Hk. apply Z.eqb_eq in Hlen.
    rewrite (@layer_shape_in_range number_of_layers intermediate_basis_count
               feature_dim k Hn Hlen) by (unfold n in Hk; lia).
    rewrite bind_lift_ok, Nat2Z.id. reflexivity.
Qed.

Lemma linear_autoencoder_chain (number_of_layers : Z)
  (intermediate_basis_count : list nat) (feature_dim : nat) :
  (2 <= number_of_layers)%Z ->
  Z.of_nat (length intermediate_basis_count) = (number_of_layers - 1)%Z ->
  let n := Z.to_nat number_of_layers in
  exists shapes,
    result (LearnableDirections.LearnableAutoEncoder number_of_layers
              feature_dim intermediate_basis_count) = Ok shapes /\
    length shapes = n /\
    snd (nth 0 shapes (0, 0)%nat) = feature_dim /\
    fst (nth (n - 1) shapes (0, 0)%nat) = 2%nat /\
    (forall k, (k < n - 1)%nat ->
       fst (nth k shapes (0, 0)%nat) = nth k intermediate_basis_count 0%nat /\
       snd (nth (S k) shapes (0, 0)%nat) = fst (nth k shapes (0, 0)%nat)).
Proof.
  intros Hn Hlen n.
  rewrite (@linear_autoencoder_run number_of_layers intermediate_basis_count
             feature_dim Hn Hlen).
  fold n. eexists. split; [reflexivity|].
  assert (Hn2 : (2 <= n)%nat) by (unfold n; lia).
  split; [now rewrite length_map, length_seq|].
  split; [|split].
  - rewrite nth_map_seq.
    replace (0 <? n)%nat with true by (symmetry; apply Nat.ltb_lt; lia).
    reflexivity.
  - rewrite nth_map_seq.
    replace (n - 1 <? n)%nat with true by (symmetry; apply Nat.ltb_lt; lia).
    replace (n - 1 =? 0)%nat with false by (symmetry; apply Nat.eqb_neq; lia).
    now rewrite Nat.eqb_refl.
  - intros k Hk. rewrite !nth_map_seq.
    replace (k <? n)%nat with true by (symmetry; apply Nat.ltb_lt; lia).
    replace (S k <? n)%nat with true by (symmetry; apply Nat.ltb_lt; lia).
    replace (k =? n - 1)%nat with false by (symmetry; apply Nat.eqb_neq; lia).
    replace (S k - 1)%nat with k by lia. simpl (S k =? 0)%nat.
    destruct (k =? 0)%nat eqn:E0; [apply Nat.eqb_eq in E0; subst k|];
      destruct (S _ =? n - 1)%nat; simpl; auto.
Qed.

(** X6: The weights of the linear chain telescope: there are
    [number_of_layers] of them, weight 0 is [basis_count[0] x feature_dim],
    the last one has 2 rows, and the columns of each weight are the rows
    of the one before. *)
Theorem linear_autoencoder_layers_telescope (number_of_layers : Z)
  (intermediate_basis_count : list nat) (feature_dim : nat) :
  (2 <= number_of_layers)%Z ->
  Z.of_nat (length intermediate_basis_count) = (number_of_layers - 1)%Z ->
  let n := Z.to_nat number_of_layers in
  exists shapes,
    result (LearnableDirections.LearnableAutoEncoder number_of_layers
              feature_dim intermediate_basis_count) = Ok shapes /\
    length shapes = n /\
    snd (nth 0 shapes (0, 0)%nat) = feature_dim /\
    fst (nth (n - 1) shapes (0, 0)%nat) = 2%nat /\
    (forall k, (k < n - 1)%nat ->
       fst (nth k shapes (0, 0)%nat) = nth k intermediate_basis_count 0%nat /\
       snd (nth (S k) shapes (0, 0)%nat) = fst (nth k shapes (0, 0)%nat)).
Proof.
  intros Hn Hlen.
  exact (@linear_autoencoder_chain number_of_layers intermediate_basis_count
           feature_dim Hn Hlen).
Qed.

Lemma linear_autoencoder_layers_telescope_witness :
  let n := Z.to_nat 3 in
  exists shapes,
    result (LearnableDirections.LearnableAutoEncoder 3 10
              [64%nat; 32%nat]) = Ok shapes /\
    length shapes = n /\
    snd (nth 0 shapes (0, 0)%nat) = 10%nat /\
    fst (nth (n - 1) shapes (0, 0)%nat) = 2%nat /\
    (forall k, (k < n - 1)%nat ->
       fst (nth k shapes (0, 0)%nat) = nth k [64%nat; 32%nat] 0%nat /\
       snd (nth (S k) shapes (0, 0)%nat) = fst (nth k shapes (0, 0)%nat)).
Proof.
  apply (@linear_autoencoder_layers_telescope 3 [64%nat; 32%nat] 10).
  - lia.
  - reflexivity.
Defined.

(** X7: The linear chain cannot have a single layer: for
    [number_of_layers <= 1] its autoencoder always raises, by its
    assertion or, with one layer and no basis count, by indexing the empty
    tuple, and no tensor has been allocated. *)
Theorem linear_autoencoder_needs_two_layers (number_of_layers : Z)
  (intermediate_basis_count : list nat) (feature_dim : nat) :
  (number_of_layers <= 1)%Z ->
  LearnableDirections.LearnableAutoEncoder number_of_layers feature_dim
    intermediate_basis_count
  = ([], Raise (if (number_of_layers =? 1)%Z
                   && (length intermediate_basis_count =? 0)%nat
                then IndexError else AssertionError)).
Proof.
  intros Hn. unfold LearnableDirections.LearnableAutoEncoder.
  destruct (Z.eqb_spec number_of_layers 1) as [->|Hne].
  - destruct intermediate_basis_count as [|c cs]; reflexivity.
  - replace (Z.of_nat (length intermediate_basis_count)
             =? number_of_layers - 1)%Z with false
      by (symmetry; apply Z.eqb_neq; lia).
    reflexivity.
Qed.

Lemma linear_autoencoder_needs_two_layers_witness :
  LearnableDirections.LearnableAutoEncoder 1 10 []
  = ([], Raise (if (1 =? 1)%Z && (length (@nil nat) =? 0)%nat
                then IndexError else AssertionError)).
Proof.
  apply (@linear_autoencoder_needs_two_layers 1 [] 10). lia.
Defined.

Lemma nonlinear_layer_shapes_run (number_of_layers : Z)
  (intermediate_basis_count : list nat) (count k in_dimension : nat) :
  Z.of_nat (length intermediate_basis_count) = (number_of_layers - 1)%Z ->
  (k + count = Z.to_nat number_of_layers)%nat ->
  LearnableNonlinearDirections.layer_shapes number_of_layers
    intermediate_basis_count in_dimension (map Z.of_nat (seq k count))
  = (repeat Tensor_call count,
     Ok (map (fun j =>
                (if (j =? k)%nat then in_dimension
                 else nth (j - 1) intermediate_basis_count 0%nat,
                 if (j =? Z.to_nat number_of_layers - 1)%nat then 2%nat
                 else nth j intermediate_basis_count 0%nat))
             (seq k count))).
Proof.
  intros Hlen. revert k in_dimension.
  induction count as [|count IH]; intros k d Hk; [reflexivity|].
  cbn [seq map LearnableNonlinearDirections.layer_shapes].
  assert (Hout :
    (if (Z.of_nat k =? number_of_layers - 1)%Z then ret 2%nat
     else lift (item intermediate_basis_count (Z.to_nat (Z.of_nat k))))
    = ret (if (k =? Z.to_nat number_of_layers - 1)%nat then 2%nat
           else nth k intermediate_basis_count 0%nat)).
  { destruct (Nat.eqb_spec k (Z.to_nat number_of_layers - 1)) as [Hl|Hl].
    - replace (Z.of_nat k =? number_of_layers - 1)%Z with true
        by (symmetry; apply Z.eqb_eq; lia).
      reflexivity.
    - replace (Z.of_nat k =? number_of_layers - 1)%Z with false
        by (symmetry; apply Z.eqb_neq; lia).
      rewrite Nat2Z.id, (item_ok _ 0%nat) by lia. reflexivity. }
  rewrite Hout. unfold ret at 1. rewrite bind_ok. cbn [app].
  rewrite bind_torch_ok, IH by lia. rewrite bind_ok.
  cbn [ret trace result fst snd repeat]. rewrite app_nil_r.
  f_equal. f_equal. f_equal.
  - now rewrite Nat.eqb_refl.
  - apply map_ext_in. intros j Hj. apply in_seq in Hj.
    replace (j =? k)%nat with false by (symmetry; apply Nat.eqb_neq; lia).
    destruct (Nat.eqb_spec j (S k)) as [->|Hne]; [|reflexivity].
    replace (S k - 1)%nat with k by lia.
    replace (k =? Z.to_nat number_of_layers - 1)%nat with false
      by (symmetry; apply Nat.eqb_neq; lia).
    reflexivity.
Qed.

Lemma nonlinear_autoencoder_run (number_of_layers : Z)
  (intermediate_basis_count : list nat) (feature_dim : nat) :
  Z.of_nat (length intermediate_basis_count) = (number_of_layers - 1)%Z ->
  let n := Z.to_nat number_of_layers in
  LearnableNonlinearDirections.LearnableAutoEncoder number_of_layers
    feature_dim intermediate_basis_count
  = (repeat Tensor_call n ++ repeat kaiming_uniform_call n,
     Ok (map (fun j =>
                (if (j =? 0)%nat then feature_dim
                 else nth (j - 1) intermediate_basis_count 0%nat,
                 if (j =? n - 1)%nat then 2%nat
                 else nth j intermediate_basis_count 0%nat))
             (seq 0 n))).
Proof.
  intros Hlen n. unfold LearnableNonlinearDirections.LearnableAutoEncoder, range.
  fold n.
  rewrite (@nonlinear_layer_shapes_run number_of_layers
             intermediate_basis_count n 0 feature_dim Hlen) by reflexivity.
  fold n. rewrite bind_ok, init_run, bind_ok. cbn [ret trace result fst snd].
  now rewrite !length_map, length_seq, app_nil_r.
Qed.

(** X8: The weights of the nonlinear subspace telescope the other way round:
    weight 0 has [feature_dim] rows, the last one has 2 columns, and the
    rows of each weight are the columns of the one before. A single layer
    [feature_dim x 2] is allowed. *)
Theorem nonlinear_autoencoder_layers_telescope (number_of_layers : Z)
  (intermediate_basis_count : list nat) (feature_dim : nat) :
  Z.of_nat (length intermediate_basis_count) = (number_of_layers - 1)%Z ->
  let n := Z.to_nat number_of_layers in
  exists shapes,
    result (LearnableNonlinearDirections.LearnableAutoEncoder number_of_layers
              feature_dim intermediate_basis_count) = Ok shapes /\
    length shapes = n /\ (1 <= n)%nat /\
    fst (nth 0 shapes (0, 0)%nat) = feature_dim /\
    snd (nth (n - 1) shapes (0, 0)%nat) = 2%nat /\
    (forall k, (k < n - 1)%nat ->
       snd (nth k shapes (0, 0)%nat) = nth k intermediate_basis_count 0%nat /\
       fst (nth (S k) shapes (0, 0)%nat) = snd (nth k shapes (0, 0)%nat)).
Proof.
  intros Hlen n.
  rewrite (@nonlinear_autoencoder_run number_of_layers
             intermediate_basis_count feature_dim Hlen).
  fold n. eexists. split; [reflexivity|].
  assert (Hn1 : (1 <= n)%nat) by (unfold n; lia).
  split; [now rewrite length_map, length_seq|]. split; [exact Hn1|].
  split; [|split].
  - rewrite nth_map_seq.
    replace (0 <? n)%nat with true by (symmetry; apply Nat.ltb_lt; lia).
    reflexivity.
  - rewrite nth_map_seq.
    replace (n - 1 <? n)%nat with true by (symmetry; apply Nat.ltb_lt; lia).
    now rewrite Nat.eqb_refl.
  - intros k Hk. rewrite !nth_map_seq.
    replace (k <? n)%nat with true by (symmetry; apply Nat.ltb_lt; lia).
    replace (S k <? n)%nat with true by (symmetry; apply Nat.ltb_lt; lia).
    replace (k =? n - 1)%nat with false by (symmetry; apply Nat.eqb_neq; lia).
    replace (S k - 1)%nat with k by lia. simpl. auto.
Qed.

Lemma nonlinear_autoencoder_layers_telescope_witness :
  let n := Z.to_nat 1 in
  exists shapes,
    result (LearnableNonlinearDirections.LearnableAutoEncoder 1 10 [])
    = Ok shapes /\
    length shapes = n /\ (1 <= n)%nat /\
    fst (nth 0 shapes (0, 0)%nat) = 10%nat /\
    snd (nth (n - 1) shapes (0, 0)%nat) = 2%nat /\
    (forall k, (k < n - 1)%nat ->
       snd (nth k shapes (0, 0)%nat) = nth k (@nil nat) 0%nat /\
       fst (nth (S k) shapes (0, 0)%nat) = snd (nth k shapes (0, 0)%nat)).
Proof.
  apply (@nonlinear_autoencoder_layers_telescope 1 [] 10). reflexivity.
Defined.

(** ** Whole runs of the learnable builders *)

Section LearnableRuns.

Variable B : backend.

(** X9: With at least two layers and one basis count per layer but the last,
    the linear-chain builder reaches the training loop: it trains, with
    the summed criterion, a net of the telescoping shapes on the matrix
    whose rows are the centred snapshots, and returns the weights of what
    the loop hands back. *)
Theorem linear_builder_trains_on_the_centred_rows
  (intermediate_results : list ParameterSet) (parameters : ParameterSet)
  (dev : device) (early_stopping_epochs training_epochs : Z)
  (autoencoder_lr : Q) (number_of_layers : Z)
  (intermediate_basis_count : list nat) :
  intermediate_results <> [] ->
  parameters <> [] ->
  (forall r, In r intermediate_results ->
             r <> [] /\ length (flat r) = length (flat parameters)) ->
  (2 <= number_of_layers)%Z ->
  Z.of_nat (length intermediate_basis_count) = (number_of_layers - 1)%Z ->
  let dataset :=
    map (fun r => vminus (flat r) (flat parameters)) intermediate_results in
  exists shapes,
    result (LearnableDirections.LearnableAutoEncoder number_of_layers
              (length (flat parameters)) intermediate_basis_count)
    = Ok shapes /\
    result (LearnableDirections.create_learnable_directions B
              intermediate_results parameters dev early_stopping_epochs
              training_epochs autoencoder_lr number_of_layers
              intermediate_basis_count)
    = obind (result (fit B (new_net B linear_chain shapes autoencoder_lr)
                       dataset reduction_sum training_epochs
                       early_stopping_epochs))
            (fun m => Ok (weights B m)).
Proof.
  intros Hne Hpne Hsnap Hn Hlen dataset.
  pose proof (@linear_autoencoder_run number_of_layers
                intermediate_basis_count (length (flat parameters)) Hn Hlen)
    as Hrun. cbv zeta in Hrun.
  eexists. split; [rewrite Hrun; reflexivity|].
  unfold LearnableDirections.create_learnable_directions.
  rewrite (nonempty_length_eqb Hne).
  rewrite parameters_to_vector_ok by assumption.
  rewrite bind_torch_ok.
  rewrite centred_run by assumption. rewrite bind_ok.
  rewrite (@stack_ok _ (length (flat parameters))).
  2:{ intros Hnil. apply map_eq_nil in Hnil. contradiction. }
  2:{ intros v Hv. eapply centred_rows_length; eassumption. }
  rewrite bind_torch_ok. fold dataset.
  assert (Hx0 : exists x0, item dataset 0 = Ok x0 /\
                           length x0 = length (flat parameters)).
  { unfold dataset. destruct intermediate_results as [|r0 rs]; [congruence|].
    eexists. split; [reflexivity|].
    rewrite length_vminus; apply (Hsnap r0); now left. }
  destruct Hx0 as (x0 & Hx0 & Hl0). rewrite Hx0, bind_lift_ok, Hl0, Hrun.
  rewrite bind_ok. cbn [result snd].
  rewrite bind_torch_ok. cbn [result snd].
  rewrite bind_torch_ok. cbn [result snd].
  rewrite result_bind. reflexivity.
Qed.

(** X10: The nonlinear builder does not centre: it trains, with the mean
    criterion, on the matrix whose columns are the snapshots themselves,
    and the subspace it returns keeps the flattened optimized parameters
    as its origin. The snapshots need as many parameters as one another,
    not as the optimized model. *)
Theorem nonlinear_builder_trains_on_the_raw_columns
  (intermediate_results : list ParameterSet) (parameters : ParameterSet)
  (dev : device) (early_stopping_epochs training_epochs : Z)
  (autoencoder_lr : Q) (number_of_layers : Z)
  (intermediate_basis_count : list nat) (F : nat) :
  intermediate_results <> [] ->
  parameters <> [] ->
  (forall r, In r intermediate_results -> r <> [] /\ length (flat r) = F) ->
  Z.of_nat (length intermediate_basis_count) = (number_of_layers - 1)%Z ->
  let dataset := transpose F (map flat intermediate_results) in
  exists shapes,
    result (LearnableNonlinearDirections.LearnableAutoEncoder number_of_layers
              F intermediate_basis_count)
    = Ok shapes /\
    result (LearnableNonlinearDirections.create_learnable_directions B
              intermediate_results parameters dev early_stopping_epochs
              training_epochs autoencoder_lr number_of_layers
              intermediate_basis_count)
    = obind (result (fit B (new_net B nonlinear_subspace shapes autoencoder_lr)
                       dataset reduction_mean training_epochs
                       early_stopping_epochs))
            (fun m => Ok {| layers := weights B m;
                            origin := flat parameters |}).
Proof.
  intros Hne Hpne Hsnap Hlen dataset.
  pose proof (@nonlinear_autoencoder_run number_of_layers
                intermediate_basis_count F Hlen) as Hrun. cbv zeta in Hrun.
  eexists. split; [rewrite Hrun; reflexivity|].
  unfold LearnableNonlinearDirections.create_learnable_directions.
  rewrite (nonempty_length_eqb Hne).
  apply Z.eqb_eq in Hlen. rewrite Hlen. cbn [negb].
  rewrite parameters_to_vector_ok by assumption.
  rewrite !bind_torch_ok.
  rewrite (for_each_ok _
             (fun _ => [parameters_to_vector_call; to_device_call]) flat).
  2:{ intros r Hr. destruct (Hsnap r Hr) as [Hrne _].
      rewrite parameters_to_vector_ok by assumption.
      now rewrite bind_torch_ok. }
  rewrite bind_ok.
  rewrite (@stack_ok _ F).
  2:{ intros Hnil. apply map_eq_nil in Hnil. contradiction. }
  2:{ intros v Hv. apply in_map_iff in Hv. destruct Hv as (r & <- & Hr).
      apply (Hsnap r Hr). }
  rewrite bind_torch_ok.
  assert (Hobs : observations (map flat intermediate_results) = F).
  { destruct intermediate_results as [|r0 rs]; [congruence|].
    simpl. apply (Hsnap r0). now left. }
  rewrite Hobs. fold dataset. rewrite bind_torch_ok.
  assert (Hd : length dataset = F) by apply length_transpose.
  cbn [result snd]. rewrite Hd, Hrun.
  rewrite bind_ok. cbn [result snd].
  rewrite bind_torch_ok. cbn [result snd].
  rewrite bind_torch_ok. cbn [result snd].
  rewrite result_bind. reflexivity.
Qed.

(** X11: The activation given to a learnable builder is stored and never
    passed on: two builders that differ only in it run identically. *)
Theorem activation_of_a_learnable_builder_is_never_used
  (optimized_parameters : ParameterSet) (intermediate_parameters : trajectory)
  (dev : device) (number_of_layers training_epochs early_stopping_epochs : Z)
  (autoencoder_lr : Q) (intermediate_basis_count : list nat)
  (activation1 activation2 : Q -> Q) :
  bind (LearnableDirections.init optimized_parameters intermediate_parameters
          dev number_of_layers autoencoder_lr training_epochs
          early_stopping_epochs intermediate_basis_count activation1)
       (LearnableDirections.calculate_directions B)
  = bind (LearnableDirections.init optimized_parameters
            intermediate_parameters dev number_of_layers autoencoder_lr
            training_epochs early_stopping_epochs intermediate_basis_count
            activation2)
         (LearnableDirections.calculate_directions B) /\
  bind (LearnableNonlinearDirections.init optimized_parameters
          intermediate_parameters dev number_of_layers autoencoder_lr
          training_epochs early_stopping_epochs intermediate_basis_count
          activation1)
       (LearnableNonlinearDirections.calculate_directions B)
  = bind (LearnableNonlinearDirections.init optimized_parameters
            intermediate_parameters dev number_of_layers autoencoder_lr
            training_epochs early_stopping_epochs intermediate_basis_count
            activation2)
         (LearnableNonlinearDirections.calculate_directions B).
Proof.
  unfold LearnableDirections.init, LearnableNonlinearDirections.init.
  destruct (len intermediate_parameters =? 0)%nat; split; reflexivity.
Qed.

End LearnableRuns.

(** ** More on the covariance matrix *)

Lemma Qmult_comm_eq (x y : Q) : (x * y = y * x)%Q.
Proof.
  unfold Qmult. f_equal; [apply Z.mul_comm|apply Pos.mul_comm].
Qed.

Lemma dot_comm (a b : list Q) : dot a b = dot b a.
Proof.
  unfold dot. f_equal. revert b.
  induction a as [|x a IH]; intros [|y b]; simpl; try reflexivity.
  now rewrite IH, Qmult_comm_eq.
Qed.

Lemma qsum_nonneg (l : list Q) :
  (forall x, In x l -> 0 <= x) -> 0 <= qsum l.
Proof.
  induction l as [|x l IH]; intros H; simpl; [apply Qle_refl|].
  replace 0 with (0 + 0)%Q by reflexivity.
  apply Qplus_le_compat; [apply H; now left|apply IH; intros; apply H; now right].
Qed.

Lemma dot_self_nonneg (a : list Q) : 0 <= dot a a.
Proof.
  unfold dot. apply qsum_nonneg. intros x Hx. apply in_map_iff in Hx.
  destruct Hx as ([u v] & <- & Hin). simpl.
  assert (u = v).
  { clear -Hin. induction a as [|w a IH]; simpl in Hin; [contradiction|].
    destruct Hin as [H|H]; [now inversion H|auto]. }
  subst v. unfold Qle, Qmult. simpl. rewrite Z.mul_1_r.
  apply Z.square_nonneg.
Qed.

(** X12: with two samples or more, of two features or more, the matrix
    handed to the eigensolvers has finite entries, is symmetric, as [eigh]
    and [lobpcg] require, and its diagonal is not negative. *)
Theorem covariance_matrix_is_symmetric (samples : list vector) (F : nat) :
  (2 <= length samples)%nat ->
  (2 <= F)%nat ->
  (forall s, In s samples -> length s = F) ->
  exists M,
    result (PcaDirections.calculate_covariance_matrix samples)
    = Ok (two_dim M) /\
    (forall i j, (i < F)%nat -> (j < F)%nat ->
       exists q, nth j (nth i M []) NaN = Fin q /\
                 nth i (nth j M []) NaN = Fin q) /\
    (forall i, (i < F)%nat ->
       exists q, nth i (nth i M []) NaN = Fin q /\ 0 <= q).
Proof.
  intros HN HF Hlen.
  assert (Hne : samples <> []) by (intros ->; simpl in HN; lia).
  assert (Hobs : (observations (transpose F samples) <=? 1)%nat = false).
  { rewrite observations_transpose by lia. apply Nat.leb_gt. lia. }
  exists (cov_entries (transpose F samples)). split; [|split].
  - unfold PcaDirections.calculate_covariance_matrix.
    rewrite (stack_dim1_ok Hne Hlen). cbn [bind torch result snd].
    f_equal. apply cov_two_dim. rewrite length_transpose. lia.
  - intros i j Hi Hj.
    rewrite !cov_entry by (now rewrite length_transpose). rewrite Hobs.
    eexists. split; [reflexivity|]. now rewrite dot_comm.
  - intros i Hi.
    rewrite cov_entry by (now rewrite length_transpose). rewrite Hobs.
    eexists. split; [reflexivity|]. unfold Qdiv.
    apply Qmult_le_0_compat; [apply dot_self_nonneg|].
    apply Qinv_le_0_compat. rewrite observations_transpose by lia.
    unfold Qle. simpl. lia.
Qed.

Lemma covariance_matrix_is_symmetric_witness :
  exists M,
    result (PcaDirections.calculate_covariance_matrix [[1; 2; 3]; [4; 5; 7]])
    = Ok (two_dim M) /\
    (forall i j, (i < 3)%nat -> (j < 3)%nat ->
       exists q, nth j (nth i M []) NaN = Fin q /\
                 nth i (nth j M []) NaN = Fin q) /\
    (forall i, (i < 3)%nat ->
       exists q, nth i (nth i M []) NaN = Fin q /\ 0 <= q).
Proof.
  apply (@covariance_matrix_is_symmetric [[1; 2; 3]; [4; 5; 7]] 3).
  - simpl. lia.
  - lia.
  - intros s [<-|[<-|[]]]; reflexivity.
Defined.

(** ** Whole runs of the PCA builder *)

Section PcaRuns.

Variable B : backend.

Lemma create_pca_directions_after_the_solver
  (snapshots : list ParameterSet) (parameters : ParameterSet) (dev : device) :
  snapshots <> [] ->
  parameters <> [] ->
  (forall r, In r snapshots ->
             r <> [] /\ length (flat r) = length (flat parameters)) ->
  result (PcaDirections.create_pca_directions B snapshots parameters dev)
  = obind (result (PcaDirections._calculate_eigenpairs B
                     (cov (transpose (length (flat parameters))
                             (map (fun r => vminus (flat r) (flat parameters))
                                  snapshots)))))
          (fun p => result (PcaDirections.select_directions (fst p) (snd p)
                              parameters)).
Proof.
  intros Hne Hpne Hsnap.
  unfold PcaDirections.create_pca_directions.
  rewrite (nonempty_length_eqb Hne).
  rewrite result_bind, result_torch, parameters_to_vector_ok by assumption.
  cbn [obind].
  rewrite result_bind, centred_result by assumption. cbn [obind].
  rewrite result_bind.
  unfold PcaDirections.calculate_covariance_matrix.
  rewrite result_bind, result_torch.
  rewrite (@stack_dim1_ok _ (length (flat parameters))).
  2:{ intros Hnil. apply map_eq_nil in Hnil. contradiction. }
  2:{ intros v Hv. eapply centred_rows_length; eassumption. }
  cbn [obind]. rewrite result_torch. cbn [obind].
  rewrite result_bind.
  destruct (result (PcaDirections._calculate_eigenpairs B _)) as [[vals vecs]|e];
    reflexivity.
Qed.

(** X13: The directions the PCA builder returns have the shapes of the
    optimized parameters and flatten to two different columns of the
    eigenvector matrix, the first one at the position of a largest
    eigenvalue. *)
Theorem pca_directions_have_the_shapes_of_the_parameters
  (self : PcaDirections.t) (eigen_values : list Q) (eigen_vectors : matrix) :
  let parameters := PcaDirections._optimized_parameters self in
  let snapshots := PcaDirections._intermediate_parameters self in
  let F := length (flat parameters) in
  let M :=
    cov (transpose F
           (map (fun r => vminus (flat r) (flat parameters)) snapshots)) in
  snapshots <> [] ->
  parameters <> [] ->
  Forall (@well_formed Q) parameters ->
  (forall r, In r snapshots -> r <> [] /\ length (flat r) = F) ->
  result (PcaDirections._calculate_eigenpairs B M)
  = Ok (eigen_values, eigen_vectors) ->
  (2 <= length eigen_values)%nat ->
  length eigen_vectors = F ->
  (forall row, In row eigen_vectors -> length row = length eigen_values) ->
  exists i0 i1 b1 b2,
    result (PcaDirections.calculate_directions B self) = Ok (b1, b2) /\
    map (@shape Q) b1 = map (@shape Q) parameters /\
    map (@shape Q) b2 = map (@shape Q) parameters /\
    flat b1 = column i0 eigen_vectors /\
    flat b2 = column i1 eigen_vectors /\
    i0 <> i1 /\
    (forall j, (j < length eigen_values)%nat ->
               nth j eigen_values 0 <= nth i0 eigen_values 0).
Proof.
  intros parameters snapshots F M Hne Hpne Hwf Hsnap Hsolve Hlen HV Hrows.
  destruct (select_directions_result eigen_values eigen_vectors Hlen Hrows Hpne)
    as (i0 & i1 & Hres & _ & _ & Hdiff & Hmax & _).
  destruct (vector_to_parameters_clone (column i0 eigen_vectors) Hwf)
    as (b1 & Hb1 & Hs1 & Hf1).
  { rewrite length_column. exact HV. }
  destruct (vector_to_parameters_clone (column i1 eigen_vectors) Hwf)
    as (b2 & Hb2 & Hs2 & Hf2).
  { rewrite length_column. exact HV. }
  exists i0, i1, b1, b2.
  split; [|repeat (split; [assumption|]); assumption].
  unfold PcaDirections.calculate_directions.
  fold parameters. fold snapshots.
  rewrite result_bind.
  rewrite (@create_pca_directions_after_the_solver snapshots parameters _
             Hne Hpne Hsnap).
  fold F. fold M. rewrite Hsolve. cbn [obind fst snd]. rewrite Hres.
  cbn [obind]. run_traced. rewrite Hb1. run_traced. rewrite Hb2. reflexivity.
Qed.

(** X14: for a model with a single parameter the covariance is a
    0-dimensional tensor, and the PCA builder raises [IndexError] when it
    asks for its first dimension: after the covariance has been computed
    and before any eigensolver is called. *)
Theorem pca_stops_at_a_single_parameter
  (snapshots : list ParameterSet) (parameters : ParameterSet) (dev : device) :
  snapshots <> [] ->
  parameters <> [] ->
  length (flat parameters) = 1%nat ->
  (forall r, In r snapshots -> r <> [] /\ length (flat r) = 1%nat) ->
  PcaDirections.create_pca_directions B snapshots parameters dev
  = (parameters_to_vector_call
       :: concat (map (fun _ => [parameters_to_vector_call; sub_call;
                                 to_device_call]) snapshots)
       ++ [stack_call; cov_call],
     Raise IndexError).
Proof.
  intros Hne Hpne HF Hsnap.
  assert (Hfit : forall r, In r snapshots ->
            r <> [] /\ length (flat r) = length (flat parameters))
    by (intros r Hr; rewrite HF; now apply Hsnap).
  unfold PcaDirections.create_pca_directions.
  rewrite (nonempty_length_eqb Hne).
  rewrite parameters_to_vector_ok by assumption.
  rewrite bind_torch_ok.
  rewrite centred_run by assumption. rewrite bind_ok.
  unfold PcaDirections.calculate_covariance_matrix.
  rewrite (@stack_dim1_ok _ 1).
  2:{ intros Hnil. apply map_eq_nil in Hnil. contradiction. }
  2:{ intros v Hv. rewrite <- HF. eapply centred_rows_length; eassumption. }
  rewrite bind_torch_ok. cbn [torch trace result fst snd]. rewrite bind_ok.
  unfold transpose. cbn [seq map]. rewrite cov_zero_dim.
  cbn [torch trace result fst snd PcaDirections._calculate_eigenpairs size0
       lift bind app].
  reflexivity.
Qed.

End PcaRuns.

Lemma pca_directions_have_the_shapes_of_the_parameters_witness :
  let B := scripted [] in
  let self :=
    {| PcaDirections._optimized_parameters :=
         [{| shape := [2%nat]; data := [0; 0] |}];
       PcaDirections._intermediate_parameters :=
         [[{| shape := [2%nat]; data := [1; 2] |}];
          [{| shape := [2%nat]; data := [3; 6] |}]];
       PcaDirections._covariance_device := cpu |} in
  let parameters := PcaDirections._optimized_parameters self in
  let snapshots := PcaDirections._intermediate_parameters self in
  let M :=
    cov (transpose 2
           (map (fun r => vminus (flat r) (flat parameters)) snapshots)) in
  let eigen_values :=
    match finite_matrix M with
    | Ok m => diagonal m
    | Raise _ => []
    end in
  let eigen_vectors := [[1; 0]; [0; 1]] in
  exists i0 i1 b1 b2,
    result (PcaDirections.calculate_directions B self) = Ok (b1, b2) /\
    map (@shape Q) b1 = map (@shape Q) parameters /\
    map (@shape Q) b2 = map (@shape Q) parameters /\
    flat b1 = column i0 eigen_vectors /\
    flat b2 = column i1 eigen_vectors /\
    i0 <> i1 /\
    (forall j, (j < length eigen_values)%nat ->
               nth j eigen_values 0 <= nth i0 eigen_values 0).
Proof.
  intros B self parameters snapshots M eigen_values eigen_vectors.
  apply (@pca_directions_have_the_shapes_of_the_parameters B self
           eigen_values eigen_vectors).
  - discriminate.
  - discriminate.
  - repeat constructor.
  - intros r [<-|[<-|[]]]; split; try discriminate; reflexivity.
  - reflexivity.
  - simpl. lia.
  - reflexivity.
  - intros row [<-|[<-|[]]]; reflexivity.
Defined.

Lemma pca_stops_at_a_single_parameter_witness :
  let snapshots :=
    [[{| shape := [1%nat]; data := [1] |}];
     [{| shape := [1%nat]; data := [3] |}]] in
  PcaDirections.create_pca_directions (scripted []) snapshots
    [{| shape := [1%nat]; data := [0] |}] cpu
  = (parameters_to_vector_call
       :: concat (map (fun _ => [parameters_to_vector_call; sub_call;
                                 to_device_call]) snapshots)
       ++ [stack_call; cov_call],
     Raise IndexError).
Proof.
  intros snapshots.
  apply (@pca_stops_at_a_single_parameter (scripted []) snapshots
           [{| shape := [1%nat]; data := [0] |}] cpu).
  - discriminate.
  - discriminate.
  - reflexivity.
  - intros r [<-|[<-|[]]]; split; try discriminate; reflexivity.
Defined.

(** ** Snapshots that do not fit the optimized parameters *)

(** The snapshots are centred in order: the first one that cannot be
    centred decides how the comprehension ends. *)
Lemma centred_fails (pv : vector) (to_device : bool)
  (fitting : list ParameterSet) (misfit : ParameterSet)
  (rest : list ParameterSet) (e : exn) :
  (forall r, In r fitting -> r <> [] /\ length (flat r) = length pv) ->
  obind (parameters_to_vector misfit) (fun v => vsub v pv) = Raise e ->
  result (centred pv to_device (fitting ++ misfit :: rest)) = Raise e.
Proof.
  intros Hfit Hbad. unfold centred.
  induction fitting as [|r rs IH]; cbn [app for_each]; rewrite result_bind.
  - rewrite result_bind, result_torch.
    destruct (parameters_to_vector misfit) as [v|e'];
      cbn [obind] in *; [|now injection Hbad as ->].
    rewrite result_bind, result_torch, Hbad. reflexivity.
  - destruct (Hfit r (or_introl eq_refl)) as [Hne Hlen].
    rewrite result_bind, result_torch, parameters_to_vector_ok by assumption.
    cbn [obind].
    rewrite result_bind, result_torch, vsub_same_length by assumption.
    cbn [obind].
    replace (result (if to_device then torch to_device_call
                                         (Ok (vminus (flat r) pv))
                     else ret (vminus (flat r) pv)))
      with (Ok (vminus (flat r) pv)) by (destruct to_device; reflexivity).
    cbn [obind]. rewrite result_bind, IH by (intros; apply Hfit; now right).
    reflexivity.
Qed.

Lemma misfit_size (misfit : ParameterSet) (pv : vector) :
  misfit <> [] ->
  length (flat misfit) <> length pv ->
  length (flat misfit) <> 1%nat ->
  length pv <> 1%nat ->
  obind (parameters_to_vector misfit) (fun v => vsub v pv)
  = Raise RuntimeError.
Proof.
  intros Hne H1 H2 H3. rewrite parameters_to_vector_ok by assumption.
  cbn [obind]. unfold vsub.
  apply Nat.eqb_neq in H1, H2, H3. now rewrite H1, H2, H3.
Qed.

Section Misfits.

Variable B : backend.

(** X15: the first snapshot that cannot be centred ends the PCA builder,
    the SVD builder and the linear-chain builder: with [ValueError] when
    it has no tensor at all, with [RuntimeError] when its number of
    parameters differs from the optimized model's and neither of the two
    is 1 (a single element would be broadcast). *)
Theorem misfit_snapshot_ends_the_builders
  (fitting : list ParameterSet) (misfit : ParameterSet)
  (rest : list ParameterSet) (parameters : ParameterSet)
  (dev : device) (early_stopping_epochs training_epochs : Z)
  (autoencoder_lr : Q) (number_of_layers : Z)
  (intermediate_basis_count : list nat) :
  parameters <> [] ->
  (forall r, In r fitting ->
             r <> [] /\ length (flat r) = length (flat parameters)) ->
  let intermediate_results := fitting ++ misfit :: rest in
  let raised := fun e =>
    result (PcaDirections.create_pca_directions B intermediate_results
              parameters dev) = Raise e /\
    result (SvdDirections.create_learnable_directions B intermediate_results
              parameters) = Raise e /\
    result (LearnableDirections.create_learnable_directions B
              intermediate_results parameters dev early_stopping_epochs
              training_epochs autoencoder_lr number_of_layers
              intermediate_basis_count) = Raise e in
  (misfit = [] -> raised ValueError) /\
  (misfit <> [] ->
   length (flat misfit) <> length (flat parameters) ->
   length (flat misfit) <> 1%nat ->
   length (flat parameters) <> 1%nat ->
   raised RuntimeError).
Proof.
  intros Hpne Hfit intermediate_results raised.
  assert (Hne : intermediate_results <> [])
    by (unfold intermediate_results; destruct fitting; discriminate).
  assert (Hall : forall e,
            obind (parameters_to_vector misfit)
                  (fun v => vsub v (flat parameters)) = Raise e ->
            raised e).
  { intros e He. unfold raised.
    unfold PcaDirections.create_pca_directions,
      SvdDirections.create_learnable_directions,
      LearnableDirections.create_learnable_directions.
    rewrite (nonempty_length_eqb Hne).
    rewrite !result_bind, !result_torch, parameters_to_vector_ok by assumption.
    cbn [obind]. unfold intermediate_results.
    rewrite !result_bind.
    rewrite !(@centred_fails (flat parameters) true fitting misfit rest e
                Hfit He).
    rewrite (@centred_fails (flat parameters) false fitting misfit rest e
               Hfit He).
    repeat split. }
  split.
  - intros ->. apply Hall. reflexivity.
  - intros Hmne H1 H2 H3. apply Hall. now apply misfit_size.
Qed.

End Misfits.

Lemma misfit_snapshot_ends_the_builders_witness :
  let fitting := [[{| shape := [2%nat]; data := [1; 2] |}]] in
  let misfit := [{| shape := [3%nat]; data := [1; 2; 3] |}] in
  let parameters := [{| shape := [2%nat]; data := [0; 0] |}] in
  let intermediate_results := fitting ++ misfit :: [] in
  let raised := fun e =>
    result (PcaDirections.create_pca_directions (scripted [])
              intermediate_results parameters cpu) = Raise e /\
    result (SvdDirections.create_learnable_directions (scripted [])
              intermediate_results parameters) = Raise e /\
    result (LearnableDirections.create_learnable_directions (scripted [])
              intermediate_results parameters cpu 250 1000 (1 # 100) 3
              [64%nat; 32%nat]) = Raise e in
  (misfit = [] -> raised ValueError) /\
  (misfit <> [] ->
   length (flat misfit) <> length (flat parameters) ->
   length (flat misfit) <> 1%nat ->
   length (flat parameters) <> 1%nat ->
   raised RuntimeError).
Proof.
  intros fitting misfit parameters.
  apply (@misfit_snapshot_ends_the_builders (scripted []) fitting misfit []
           parameters cpu 250 1000 (1 # 100) 3 [64%nat; 32%nat]).
  - discriminate.
  - intros r [<-|[]]. split; [discriminate|reflexivity].
Defined.

(** ** Witnesses for the runs of the learnable builders *)

Lemma linear_builder_finds_the_basis_mismatch_after_the_dataset_witness :
  LearnableDirections.create_learnable_directions (scripted [])
    [[{| shape := [2%nat]; data := [1; 2] |}];
     [{| shape := [2%nat]; data := [3; 4] |}]]
    [{| shape := [2%nat]; data := [0; 0] |}] cpu 250 1000 (1 # 100) 3
    [64%nat]
  = (parameters_to_vector_call
       :: concat (map (fun _ => [parameters_to_vector_call; sub_call;
                                 to_device_call])
                      [[{| shape := [2%nat]; data := [1; 2] |}];
                       [{| shape := [2%nat]; data := [3; 4] |}]])
       ++ [stack_call],
     Raise AssertionError).
Proof.
  apply (@linear_builder_finds_the_basis_mismatch_after_the_dataset
           (scripted [])).
  - discriminate.
  - discriminate.
  - intros r [<-|[<-|[]]]; split; try discriminate; reflexivity.
  - simpl. lia.
Defined.

Lemma linear_builder_trains_on_the_centred_rows_witness :
  let B := scripted [Fin 5; Fin 3; Fin 4] in
  let snapshots :=
    [[{| shape := [2%nat]; data := [1; 2] |}];
     [{| shape := [2%nat]; data := [3; 4] |}]] in
  let parameters := [{| shape := [2%nat]; data := [1; 1] |}] in
  let dataset :=
    map (fun r => vminus (flat r) (flat parameters)) snapshots in
  exists shapes,
    result (LearnableDirections.LearnableAutoEncoder 2
              (length (flat parameters)) [4%nat])
    = Ok shapes /\
    result (LearnableDirections.create_learnable_directions B snapshots
              parameters cpu 250 3 (1 # 100) 2 [4%nat])
    = obind (result (fit B (new_net B linear_chain shapes (1 # 100))
                       dataset reduction_sum 3 250))
            (fun m => Ok (weights B m)).
Proof.
  intros B snapshots parameters dataset.
  apply (@linear_builder_trains_on_the_centred_rows B snapshots parameters
           cpu 250 3 (1 # 100) 2 [4%nat]).
  - discriminate.
  - discriminate.
  - intros r [<-|[<-|[]]]; split; try discriminate; reflexivity.
  - lia.
  - reflexivity.
Defined.

Lemma nonlinear_builder_trains_on_the_raw_columns_witness :
  let B := scripted [Fin 5; Fin 3; Fin 4] in
  let snapshots :=
    [[{| shape := [2%nat]; data := [1; 2] |}];
     [{| shape := [2%nat]; data := [3; 4] |}]] in
  let parameters := [{| shape := [3%nat]; data := [1; 1; 1] |}] in
  let dataset := transpose 2 (map flat snapshots) in
  exists shapes,
    result (LearnableNonlinearDirections.LearnableAutoEncoder 2 2 [4%nat])
    = Ok shapes /\
    result (LearnableNonlinearDirections.create_learnable_directions B
              snapshots parameters cpu 100 3 (1 # 100) 2 [4%nat])
    = obind (result (fit B (new_net B nonlinear_subspace shapes (1 # 100))
                       dataset reduction_mean 3 100))
            (fun m => Ok {| layers := weights B m;
                            origin := flat parameters |}).
Proof.
  intros B snapshots parameters dataset.
  apply (@nonlinear_builder_trains_on_the_raw_columns B snapshots parameters
           cpu 100 3 (1 # 100) 2 [4%nat] 2).
  - discriminate.
  - discriminate.
  - intros r [<-|[<-|[]]]; split; try discriminate; reflexivity.
  - reflexivity.
Defined.

(** ** More on normalize_direction *)

Local Open Scope R_scope.

(** X16: In any number of dimensions: the call returns a well-formed tensor of
    the same shape, and along the dimension the code takes the norm over
    (dimension 1, or dimension 0 for at most one dimension) each norm [n']
    after the call satisfies [n' * (nd + 1e-10) = np * nd]. *)
Theorem normalize_direction_rescales_every_norm_slice
  (direction parameters : tensor R) :
  well_formed direction ->
  shape direction = shape parameters ->
  let d := norm_dimensions parameters in
  exists normalized,
    normalize_direction direction parameters = Ok normalized /\
    shape normalized = shape direction /\
    well_formed normalized /\
    forall o j,
      nth j (nth o (norm_blocks d normalized) []) 0
      * (nth j (nth o (norm_blocks d direction) []) 0 + eps)
      = nth j (nth o (norm_blocks d parameters) []) 0
        * nth j (nth o (norm_blocks d direction) []) 0.
Proof.
  intros Hwf Hs d.
  destruct (@normalized_norm_blocks direction parameters Hwf Hs)
    as (normalized & Hn & Hsn & Heq).
  exists normalized. split; [exact Hn|]. split; [exact Hsn|].
  split; [|exact Heq].
  exact (@normalized_well_formed direction parameters normalized Hwf Hs Hn).
Qed.

Lemma normalize_direction_rescales_every_norm_slice_witness :
  let direction :=
    {| shape := [1%nat; 2%nat; 2%nat]; data := [1; 0; 0; 1] |} in
  let parameters :=
    {| shape := [1%nat; 2%nat; 2%nat]; data := [3; 0; 4; 0] |} in
  let d := norm_dimensions parameters in
  exists normalized,
    normalize_direction direction parameters = Ok normalized /\
    shape normalized = shape direction /\
    well_formed normalized /\
    forall o j,
      nth j (nth o (norm_blocks d normalized) []) 0
      * (nth j (nth o (norm_blocks d direction) []) 0 + eps)
      = nth j (nth o (norm_blocks d parameters) []) 0
        * nth j (nth o (norm_blocks d direction) []) 0.
Proof.
  intros direction parameters.
  apply (@normalize_direction_rescales_every_norm_slice direction parameters);
    reflexivity.
Defined.

(** X17: Every entry of the direction is multiplied by the factor of its
    slice, the norm of the parameters over the guarded norm of the
    direction; nothing else changes. *)
Theorem normalize_direction_multiplies_by_the_slice_factor
  (direction parameters : tensor R) :
  well_formed direction ->
  shape direction = shape parameters ->
  let d := norm_dimensions parameters in
  exists normalized,
    normalize_direction direction parameters = Ok normalized /\
    forall o k j,
      (o < outer_count d direction)%nat ->
      (k < axis_len d direction)%nat ->
      (j < inner_count d direction)%nat ->
      nth j (nth k (nth o (view3 d normalized) []) []) 0
      = nth j (nth k (nth o (view3 d direction) []) []) 0
        * (nth j (nth o (norm_blocks d parameters) []) 0
           / (nth j (nth o (norm_blocks d direction) []) 0 + eps)).
Proof.
  intros Hwf Hs d.
  assert (Ho : outer_count d parameters = outer_count d direction)
    by (unfold outer_count; now rewrite Hs).
  assert (Hi : inner_count d parameters = inner_count d direction)
    by (unfold inner_count; now rewrite Hs).
  assert (Hlen : (outer_count d direction
                  * (axis_len d direction * inner_count d direction)
                  <= length (data direction))%nat).
  { unfold well_formed, numel in Hwf. rewrite Hwf.
    pose proof (shape_split (shape direction)) as Hsplit.
    cbv zeta in Hsplit.
    unfold outer_count, axis_len, inner_count, d, norm_dimensions, dim.
    rewrite <- Hs, <- Hsplit. apply Nat.le_refl. }
  eexists. split; [apply (@normalize_direction_defined direction parameters Hs)|].
  fold d. intros o k j Hlo Hlk Hlj. unfold mul_broadcast. cbn [data].
  rewrite (@factor_chunks direction parameters d Hs).
  set (sfs := zip_with (zip_with div_eps) (norm_blocks d parameters)
                       (norm_blocks d direction)).
  assert (Hsl : length sfs = outer_count d direction).
  { unfold sfs. rewrite length_zip_with, !norm_blocks_length, Ho.
    apply Nat.min_id. }
  assert (Hsr : forall s, In s sfs -> length s = inner_count d direction).
  { intros s Hin. eapply zip_rows; [| |exact Hin].
    - intros x Hx. rewrite <- Hi. now apply norm_blocks_rows.
    - intros y Hy. now apply norm_blocks_rows. }
  rewrite (@view3_scaled direction d sfs Hlen Hsl Hsr).
  rewrite (nth_map_in _ _ ([], []))
    by (rewrite length_combine, view3_blocks, Hsl; lia).
  rewrite nth_combine_lt by (rewrite ?view3_blocks, ?Hsl; lia).
  cbn [fst snd]. unfold scale_block.
  rewrite (nth_map_in _ _ []).
  2:{ rewrite (@view3_rows _ direction d); [exact Hlk|].
      apply nth_In. now rewrite view3_blocks. }
  rewrite nth_zip_mult. f_equal.
  unfold sfs.
  rewrite (nth_zip_with (zip_with div_eps) _ _ [] [] [])
    by (rewrite norm_blocks_length; lia).
  rewrite (nth_zip_with div_eps _ _ 0 0 0).
  - reflexivity.
  - rewrite (@norm_blocks_rows d parameters); [lia|].
    apply nth_In. rewrite norm_blocks_length. lia.
  - rewrite (@norm_blocks_rows d direction); [lia|].
    apply nth_In. rewrite norm_blocks_length. lia.
Qed.

Lemma normalize_direction_multiplies_by_the_slice_factor_witness :
  let direction :=
    {| shape := [2%nat; 2%nat]; data := [1; 0; 0; 2] |} in
  let parameters :=
    {| shape := [2%nat; 2%nat]; data := [3; 4; 0; 1] |} in
  let d := norm_dimensions parameters in
  exists normalized,
    normalize_direction direction parameters = Ok normalized /\
    forall o k j,
      (o < outer_count d direction)%nat ->
      (k < axis_len d direction)%nat ->
      (j < inner_count d direction)%nat ->
      nth j (nth k (nth o (view3 d normalized) []) []) 0
      = nth j (nth k (nth o (view3 d direction) []) []) 0
        * (nth j (nth o (norm_blocks d parameters) []) 0
           / (nth j (nth o (norm_blocks d direction) []) 0 + eps)).
Proof.
  intros direction parameters.
  apply (@normalize_direction_multiplies_by_the_slice_factor
           direction parameters); reflexivity.
Defined.

Lemma normalize_direction_returns (direction parameters : tensor R) :
  shape direction = shape parameters ->
  exists normalized, normalize_direction direction parameters = Ok normalized.
Proof.
  intros Hs. eexists.
  apply (@normalize_direction_defined direction parameters Hs).
Qed.

(** The list version takes the tensors pairwise. *)
Lemma using_params_defined (direction parameters : list (tensor R)) :
  Forall2 (fun d p => shape d = shape p) direction parameters ->
  exists out,
    normalize_direction_using_params direction parameters = Ok out /\
    Forall2 (fun n dp => normalize_direction (fst dp) (snd dp) = Ok n)
            out (combine direction parameters).
Proof.
  intros H. unfold normalize_direction_using_params.
  rewrite (Forall2_length H), Nat.eqb_refl.
  induction H as [|d p ds ps Hs H IH].
  - exists []. split; [reflexivity|constructor].
  - destruct IH as (out & Hout & Hall).
    destruct (@normalize_direction_returns d p Hs) as (n & Hn).
    exists (n :: out). simpl. rewrite Hn. simpl. rewrite Hout.
    split; [reflexivity|]. constructor; [exact Hn|exact Hall].
Qed.

Lemma normalize_direction_shape (direction parameters normalized : tensor R) :
  normalize_direction direction parameters = Ok normalized ->
  shape normalized = shape direction.
Proof.
  unfold normalize_direction.
  destruct (list_eq_dec Nat.eq_dec (shape direction) (shape parameters));
    [|discriminate].
  rewrite scaling_factor_defined. simpl. intros H. injection H as <-.
  reflexivity.
Qed.

Lemma using_params_shapes (out : list (tensor R))
  (pairs : list (tensor R * tensor R)) :
  Forall2 (fun n dp => normalize_direction (fst dp) (snd dp) = Ok n) out pairs ->
  map (@shape R) out = map (fun dp => shape (fst dp)) pairs.
Proof.
  induction 1 as [|n dp out pairs Hn _ IH]; [reflexivity|].
  simpl. now rewrite IH, (normalize_direction_shape _ _ Hn).
Qed.

Lemma map_fst_combine {A B} (l1 : list A) (l2 : list B) :
  length l1 = length l2 -> map fst (combine l1 l2) = l1.
Proof.
  revert l2. induction l1 as [|a l1 IH]; destruct l2; simpl; intros H;
    try discriminate; [reflexivity|].
  f_equal. apply IH. lia.
Qed.

(** X18: [normalize_direction_using_params] refuses lists of different lengths
    by its assertion; on lists of pairwise equal shapes it returns, entry
    [i] of the result being entry [i] of the direction normalised against
    entry [i] of the parameters, in its shape. *)
Theorem normalize_direction_using_params_goes_pairwise
  (direction parameters : list (tensor R)) :
  (length direction <> length parameters ->
   normalize_direction_using_params direction parameters
   = Raise AssertionError) /\
  (Forall2 (fun d p => shape d = shape p) direction parameters ->
   exists out,
     normalize_direction_using_params direction parameters = Ok out /\
     Forall2 (fun n dp => normalize_direction (fst dp) (snd dp) = Ok n)
             out (combine direction parameters) /\
     map (@shape R) out = map (@shape R) direction).
Proof.
  split.
  - intros Hlen. unfold normalize_direction_using_params.
    apply Nat.eqb_neq in Hlen. now rewrite Hlen.
  - intros H. destruct (using_params_defined H) as (out & Hout & Hall).
    exists out. split; [exact Hout|]. split; [exact Hall|].
    rewrite (using_params_shapes Hall), <- map_map.
    now rewrite (map_fst_combine _ _ (Forall2_length H)).
Qed.

Close Scope R_scope.

(** ** RandomDirections *)

Local Open Scope R_scope.

Section RandomRuns.

Variable rng : Type.
Variable normal : rng -> R * rng.

Lemma draws_length (n : nat) (g : rng) :
  length (fst (RandomDirections.draws normal n g)) = n.
Proof.
  revert g. induction n as [|n IH]; intros g; simpl; [reflexivity|].
  destruct (normal g) as [x g1]. specialize (IH g1).
  destruct (RandomDirections.draws normal n g1) as [xs g2]. simpl in *.
  now rewrite IH.
Qed.

Lemma get_random_parameters_fit (parameters : list (tensor R)) (g : rng) :
  let ds := fst (RandomDirections.get_random_parameters normal parameters g) in
  Forall2 (fun d p => shape d = shape p) ds parameters /\
  Forall (@well_formed R) ds.
Proof.
  revert g. induction parameters as [|w ws IH]; intros g; simpl.
  - split; constructor.
  - unfold RandomDirections.randn.
    pose proof (draws_length (prod (shape w)) g) as Hl.
    destruct (RandomDirections.draws normal (prod (shape w)) g) as [xs g1].
    specialize (IH g1). cbv zeta in IH.
    destruct (RandomDirections.get_random_parameters normal ws g1) as [ds g2].
    simpl in *. destruct IH as [IH1 IH2].
    split; constructor; auto.
Qed.

Lemma using_params_well_formed (out : list (tensor R))
  (direction parameters : list (tensor R)) :
  Forall2 (fun d p => shape d = shape p) direction parameters ->
  Forall (@well_formed R) direction ->
  Forall2 (fun n dp => normalize_direction (fst dp) (snd dp) = Ok n)
          out (combine direction parameters) ->
  Forall (@well_formed R) out.
Proof.
  intros Hs. revert out.
  induction Hs as [|d p ds ps Hdp _ IH]; intros out Hwf Hall; simpl in Hall.
  - inversion Hall. constructor.
  - inversion Hall as [|n dp out' pairs' Hn Hrest]; subst.
    inversion Hwf as [|? ? Hd Hds]; subst.
    constructor; [|now apply IH].
    exact (@normalized_well_formed d p n Hd Hdp Hn).
Qed.

Lemma random_direction_fits (parameters : list (tensor R))
  (apply_filter_normalization : bool) (g : rng) :
  exists direction g',
    RandomDirections.create_random_direction_from_parameters normal
      parameters apply_filter_normalization g = (Ok direction, g') /\
    map (@shape R) direction = map (@shape R) parameters /\
    Forall (@well_formed R) direction.
Proof.
  unfold RandomDirections.create_random_direction_from_parameters.
  pose proof (get_random_parameters_fit parameters g) as H. cbv zeta in H.
  destruct (RandomDirections.get_random_parameters normal parameters g)
    as [ds g']. simpl in H. destruct H as [Hs Hwf].
  assert (Hshapes : map (@shape R) ds = map (@shape R) parameters).
  { clear Hwf. induction Hs; simpl; [reflexivity|]. now f_equal. }
  destruct apply_filter_normalization.
  - destruct (using_params_defined Hs) as (out & Hout & Hall).
    exists out, g'. split; [now rewrite Hout|]. split.
    + rewrite (using_params_shapes Hall), <- map_map.
      now rewrite (map_fst_combine _ _ (Forall2_length Hs)).
    + exact (using_params_well_formed Hs Hwf Hall).
  - exists ds, g'. repeat split; assumption.
Qed.

(** X19: A [RandomDirections] object can be built unless neither the
    parameters nor a model is given, explicit parameters win over the
    model, and its two directions are always returned: well-formed
    tensors of the shapes of the parameters, normalised or not. *)
Theorem random_directions_have_the_shapes_of_the_parameters
  (optimized_parameters model : option (list (tensor R)))
  (apply_normalization : bool) (g : rng) :
  (RandomDirections.init optimized_parameters model = Raise ValueError <->
   optimized_parameters = None /\ model = None) /\
  (forall p, optimized_parameters = Some p ->
     RandomDirections.init optimized_parameters model
     = Ok {| RandomDirections._optimized_parameters := p |}) /\
  (forall self,
     RandomDirections.init optimized_parameters model = Ok self ->
     exists x y g',
       RandomDirections.calculate_directions normal self apply_normalization g
       = (Ok (x, y), g') /\
       map (@shape R) x
       = map (@shape R) (RandomDirections._optimized_parameters self) /\
       map (@shape R) y
       = map (@shape R) (RandomDirections._optimized_parameters self) /\
       Forall (@well_formed R) x /\ Forall (@well_formed R) y).
Proof.
  split; [|split].
  - destruct optimized_parameters, model; simpl; split;
      try discriminate; try (intros [? ?]; discriminate); auto.
  - intros p ->. destruct model; reflexivity.
  - intros self _.
    unfold RandomDirections.calculate_directions,
      RandomDirections.create_random_directions_from_parameters.
    destruct (random_direction_fits
                (RandomDirections._optimized_parameters self)
                apply_normalization g) as (x & g1 & Hx & Hsx & Hwx).
    rewrite Hx.
    destruct (random_direction_fits
                (RandomDirections._optimized_parameters self)
                apply_normalization g1) as (y & g2 & Hy & Hsy & Hwy).
    rewrite Hy. simpl.
    exists x, y, g2. repeat split; assumption.
Qed.

End RandomRuns.

Lemma slice_norm_scale (f : R) (l : list R) :
  0 <= f -> slice_norm (map (fun e => e * f) l) = f * slice_norm l.
Proof.
  intros Hf. unfold slice_norm.
  assert (H : fold_right (fun x acc => x * x + acc) 0 (map (fun e => e * f) l)
              = (f * f) * fold_right (fun x acc => x * x + acc) 0 l).
  { induction l as [|x l IH]; simpl; [ring|]. rewrite IH. ring. }
  rewrite H, sqrt_mult_alt.
  - now rewrite sqrt_square.
  - pose proof (Rle_0_sqr f) as Hs. unfold Rsqr in Hs. exact Hs.
Qed.

Lemma whole_norm_nonneg (x : tensor R) : 0 <= RandomDirections.whole_norm x.
Proof. apply sqrt_pos. Qed.

(** X20: The static [normalize_direction] of the class never fails and keeps
    the length of the direction. An entry without a partner is left
    alone; so is an entry whose partner lives on another device, because
    the multiplication lands on a copy; an entry on the device of its
    partner is rescaled as a whole, its norm [n'] satisfying
    [n' * (nd + 1e-10) = np * nd]. *)
Theorem static_normalize_direction_reaches_only_tensors_on_the_same_device
  (direction parameters : list RandomDirections.placed) :
  exists out,
    RandomDirections.normalize_direction direction parameters = Ok out /\
    length out = length direction /\
    (forall i d, nth_error direction i = Some d ->
       nth_error parameters i = None -> nth_error out i = Some d) /\
    (forall i d p, nth_error direction i = Some d ->
       nth_error parameters i = Some p ->
       RandomDirections.on d <> RandomDirections.on p ->
       nth_error out i = Some d) /\
    (forall i d p, nth_error direction i = Some d ->
       nth_error parameters i = Some p ->
       RandomDirections.on d = RandomDirections.on p ->
       exists n,
         nth_error out i = Some n /\
         RandomDirections.on n = RandomDirections.on d /\
         shape (RandomDirections.value n) = shape (RandomDirections.value d) /\
         RandomDirections.whole_norm (RandomDirections.value n)
         * (RandomDirections.whole_norm (RandomDirections.value d) + eps)
         = RandomDirections.whole_norm (RandomDirections.value p)
           * RandomDirections.whole_norm (RandomDirections.value d)).
Proof.
  revert parameters. induction direction as [|d0 ds IH]; intros parameters.
  - exists []. destruct parameters; simpl;
      (split; [reflexivity|]; split; [reflexivity|]);
      repeat split; intros i; destruct i; discriminate.
  - destruct parameters as [|p0 ps].
    + exists (d0 :: ds). simpl. split; [reflexivity|]. split; [reflexivity|].
      split; [|split].
      * intros i d Hd _. exact Hd.
      * intros i d p _ Hp. destruct i; discriminate.
      * intros i d p _ Hp. destruct i; discriminate.
    + destruct (IH ps) as (rest & Hrest & Hlen & Hnone & Hother & Hsame).
      pose proof eps_pos as Heps.
      pose proof (whole_norm_nonneg (RandomDirections.value d0)) as Hnd.
      pose proof (whole_norm_nonneg (RandomDirections.value p0)) as Hnp.
      cbn [RandomDirections.normalize_direction]. unfold checked_div.
      destruct (Req_dec_T _ 0) as [Hz|_]; [exfalso; lra|].
      cbn [obind]. rewrite Hrest. cbn [obind].
      eexists. split; [reflexivity|]. split; [simpl; now rewrite Hlen|].
      split; [|split].
      * intros i d Hd Hp. destruct i; [discriminate|]. simpl in *.
        now apply Hnone.
      * intros i d p Hd Hp Hne. destruct i; simpl in *.
        -- injection Hd as <-. injection Hp as <-.
           destruct (RandomDirections.on d0), (RandomDirections.on p0);
             simpl; congruence.
        -- eapply Hother; eassumption.
      * intros i d p Hd Hp Heq. destruct i; simpl in *.
        -- injection Hd as <-. injection Hp as <-.
           replace (RandomDirections.device_eqb (RandomDirections.on d0)
                      (RandomDirections.on p0)) with true
             by (rewrite Heq; destruct (RandomDirections.on p0); reflexivity).
           eexists. split; [reflexivity|]. split; [reflexivity|].
           split; [reflexivity|].
           unfold RandomDirections.whole_norm, RandomDirections.scale in *.
           cbn [data RandomDirections.value].
           rewrite slice_norm_scale.
           ++ field. lra.
           ++ apply Rmult_le_pos; [assumption|].
              left. apply Rinv_0_lt_compat. lra.
        -- eapply Hsame; eassumption.
Qed.

Close Scope R_scope.

(** ** The projections of the linear chain *)

Section Projections.

Import LearnableProjections.

Variable activation : tensor Q -> tensor Q.
Hypothesis activation_keeps_shape : forall x, shape (activation x) = shape x.

Lemma matmul_shape (a b : tensor Q) (n k m : nat) :
  shape a = [n; k] -> shape b = [k; m] ->
  exists c, matmul a b = Ok c /\ shape c = [n; m].
Proof.
  intros Ha Hb. unfold matmul. rewrite Ha, Hb, Nat.eqb_refl.
  eexists. split; reflexivity.
Qed.

Lemma transposed_shape (w : tensor Q) (r c : nat) :
  shape w = [r; c] -> shape (transposed w) = [c; r].
Proof. intros H. unfold transposed. now rewrite H. Qed.

Lemma run_layers_cons (oriented : tensor Q -> tensor Q) (x w w' : tensor Q)
  (ws : list (tensor Q)) :
  run_layers oriented activation x (w :: w' :: ws)
  = obind (matmul x (oriented w))
          (fun y => run_layers oriented activation (activation y) (w' :: ws)).
Proof.
  unfold run_layers.
  change (removelast (w :: w' :: ws)) with (w :: removelast (w' :: ws)).
  cbn [hidden_layers].
  destruct (matmul x (oriented w)) as [y|e]; reflexivity.
Qed.

Lemma run_layers_shape (oriented : tensor Q -> tensor Q)
  (weights : list (tensor Q)) (x : tensor Q) (n k : nat) :
  weights <> [] ->
  links k (map oriented weights) ->
  shape x = [n; k] ->
  exists y,
    run_layers oriented activation x weights = Ok y /\
    shape y = [n; width k (map oriented weights)].
Proof.
  revert x k. induction weights as [|w ws IH]; intros x k Hne Hl Hx;
    [congruence|].
  destruct Hl as (c & Hw & Hl).
  destruct (matmul_shape x (oriented w) Hx Hw) as (y & Hy & Hsy).
  destruct ws as [|w' ws].
  - exists y. unfold run_layers. cbn [removelast hidden_layers obind last_item].
    rewrite Hy. split; [reflexivity|].
    rewrite Hsy. cbn [map width]. now rewrite Hw.
  - rewrite run_layers_cons, Hy. cbn [obind].
    destruct (IH (activation y) c) as (z & Hz & Hsz);
      [discriminate|exact Hl|now rewrite activation_keeps_shape|].
    exists z. split; [exact Hz|]. rewrite Hsz.
    cbn [map width]. reflexivity.
Qed.

Lemma telescopes_links_transposed (weights : list (tensor Q)) (F : nat) :
  telescopes F weights ->
  links F (map transposed weights) /\
  width F (map transposed weights) = bottleneck F weights.
Proof.
  revert F. induction weights as [|w ws IH]; intros F H; [split; reflexivity|].
  destruct H as (r & Hw & H). destruct (IH r H) as [Hl Hwd].
  cbn [map links width bottleneck].
  rewrite (transposed_shape w Hw), Hw. cbn [nth].
  split; [exists r; split; [reflexivity|exact Hl]|exact Hwd].
Qed.

Lemma links_app (a : nat) (l1 l2 : list (tensor Q)) :
  links a l1 -> links (width a l1) l2 ->
  links a (l1 ++ l2) /\ width a (l1 ++ l2) = width (width a l1) l2.
Proof.
  revert a. induction l1 as [|m l1 IH]; intros a H1 H2;
    [split; [exact H2|reflexivity]|].
  destruct H1 as (c & Hm & H1). cbn [app links width] in *.
  rewrite Hm in *. cbn [nth] in *.
  destruct (IH c H1 H2) as [Hl Hw].
  split; [exists c; split; [reflexivity|exact Hl]|exact Hw].
Qed.

Lemma telescopes_links_reversed (weights : list (tensor Q)) (F : nat) :
  telescopes F weights ->
  links (bottleneck F weights) (rev weights) /\
  width (bottleneck F weights) (rev weights) = F.
Proof.
  revert F. induction weights as [|w ws IH]; intros F H; [split; reflexivity|].
  destruct H as (r & Hw & H). destruct (IH r H) as [Hl Hwd].
  cbn [rev bottleneck]. rewrite Hw. cbn [nth].
  destruct (@links_app (bottleneck r ws) (rev ws) [w] Hl) as [Ha Hb].
  - rewrite Hwd. exists F. split; [exact Hw|exact I].
  - split; [exact Ha|]. rewrite Hb, Hwd. simpl. now rewrite Hw.
Qed.

Lemma projections_chain (x : tensor Q) (weights : list (tensor Q))
  (n F : nat) :
  weights <> [] ->
  telescopes F weights ->
  shape x = [n; F] ->
  exists projected reconstructed,
    project_to_visualization_space x weights activation = Ok projected /\
    shape projected = [n; bottleneck F weights] /\
    project_to_original_space projected weights activation
    = Ok reconstructed /\
    reconstruction x weights activation = Ok reconstructed /\
    shape reconstructed = [n; F].
Proof.
  intros Hne Ht Hx.
  destruct (@telescopes_links_transposed weights F Ht) as [Hl Hw].
  destruct (@run_layers_shape transposed weights x n F Hne Hl Hx)
    as (p & Hp & Hsp).
  rewrite Hw in Hsp.
  destruct (@telescopes_links_reversed weights F Ht) as [Hl' Hw'].
  assert (Hrev : rev weights <> []).
  { intros H. apply (f_equal (@length _)) in H. rewrite length_rev in H.
    destruct weights; [congruence|discriminate]. }
  destruct (@run_layers_shape (fun w => w) (rev weights) p n
              (bottleneck F weights) Hrev) as (r & Hr & Hsr).
  { now rewrite map_id. }
  { exact Hsp. }
  rewrite map_id, Hw' in Hsr.
  exists p, r. unfold reconstruction, project_to_visualization_space,
    project_to_original_space.
  rewrite Hp. cbn [obind]. rewrite Hr. repeat split; assumption.
Qed.

(** X21: Through weights that telescope from the feature dimension, an input
    of [n] rows is projected to [n] rows of the width of the last weight
    and reconstructed to [n] rows of the feature dimension; none of the
    matrix products fails. *)
Theorem projections_telescope (x : tensor Q) (weights : list (tensor Q))
  (n F : nat) :
  weights <> [] ->
  telescopes F weights ->
  shape x = [n; F] ->
  exists projected reconstructed,
    project_to_visualization_space x weights activation = Ok projected /\
    shape projected = [n; bottleneck F weights] /\
    project_to_original_space projected weights activation
    = Ok reconstructed /\
    reconstruction x weights activation = Ok reconstructed /\
    shape reconstructed = [n; F].
Proof.
  intros Hne Ht Hx.
  exact (@projections_chain x weights n F Hne Ht Hx).
Qed.

End Projections.

(** Without weights there is no last weight to multiply by: the three
    functions raise [IndexError]. *)
Theorem projections_need_a_weight (x : tensor Q)
  (activation : tensor Q -> tensor Q) :
  LearnableProjections.project_to_visualization_space x [] activation
  = Raise IndexError /\
  LearnableProjections.project_to_original_space x [] activation
  = Raise IndexError /\
  LearnableProjections.reconstruction x [] activation = Raise IndexError.
Proof. repeat split. Qed.

Lemma projections_telescope_witness :
  let activation := fun x : tensor Q => x in
  let x := {| shape := [1%nat; 3%nat]; data := [1; 2; 3] |} in
  let weights :=
    [{| shape := [2%nat; 3%nat]; data := [1; 0; 0; 0; 1; 0] |};
     {| shape := [2%nat; 2%nat]; data := [1; 0; 0; 1] |}] in
  exists projected reconstructed,
    LearnableProjections.project_to_visualization_space x weights activation
    = Ok projected /\
    shape projected = [1%nat; LearnableProjections.bottleneck 3 weights] /\
    LearnableProjections.project_to_original_space projected weights
      activation = Ok reconstructed /\
    LearnableProjections.reconstruction x weights activation
    = Ok reconstructed /\
    shape reconstructed = [1%nat; 3%nat].
Proof.
  intros activation x weights.
  apply (@projections_telescope activation (fun _ => eq_refl) x weights 1 3).
  - discriminate.
  - exists 2%nat. split; [reflexivity|].
    exists 2%nat. split; [reflexivity|exact I].
  - reflexivity.
Defined.

(** The products compute what they should: the row (1, 2, 3) projected
    through the first two unit vectors is (1, 2), and comes back as
    (1, 2, 0). *)
Example reconstruction_example :
  let x := {| shape := [1%nat; 3%nat]; data := [1; 2; 3] |} in
  let weights := [{| shape := [2%nat; 3%nat]; data := [1; 0; 0; 0; 1; 0] |}] in
  option_map (fun y => (shape y, map Qred (data y)))
    match LearnableProjections.project_to_visualization_space x weights
            (fun t => t) with
    | Ok y => Some y
    | Raise _ => None
    end
  = Some ([1%nat; 2%nat], [1; 2]) /\
  option_map (fun y => (shape y, map Qred (data y)))
    match LearnableProjections.reconstruction x weights (fun t => t) with
    | Ok y => Some y
    | Raise _ => None
    end
  = Some ([1%nat; 3%nat], [1; 2; 0]).
Proof. split; reflexivity. Qed.

(** ** The forward pass of the linear autoencoder *)

Lemma telescopes_from_chain (shapes : list (nat * nat))
  (weights : list (tensor Q)) (F : nat) :
  map (@shape Q) weights = map (fun s => [fst s; snd s]) shapes ->
  (forall k, (S k < length shapes)%nat ->
     snd (nth (S k) shapes (0, 0)%nat) = fst (nth k shapes (0, 0)%nat)) ->
  ((0 < length shapes)%nat -> snd (nth 0 shapes (0, 0)%nat) = F) ->
  LearnableProjections.telescopes F weights /\
  LearnableProjections.bottleneck F weights
  = match shapes with
    | [] => F
    | _ => fst (nth (length shapes - 1) shapes (0, 0)%nat)
    end.
Proof.
  revert weights F. induction shapes as [|s ss IH]; intros weights F Hm Hc H0.
  - destruct weights; [split; [exact I|reflexivity]|discriminate].
  - destruct weights as [|w ws]; [discriminate|].
    simpl in Hm. injection Hm as Hw Hm.
    assert (HF : snd s = F) by (apply H0; simpl; lia).
    destruct (IH ws (fst s) Hm) as [Ht Hb].
    + intros k Hk. apply (Hc (S k)). simpl. lia.
    + intros Hpos. apply (Hc 0%nat). simpl. lia.
    + cbn [LearnableProjections.telescopes LearnableProjections.bottleneck].
      rewrite Hw. cbn [nth]. split.
      * exists (fst s). rewrite HF. split; [reflexivity|exact Ht].
      * rewrite Hb. destruct ss as [|s' ss]; [reflexivity|].
        cbn [length]. replace (S (S (length ss)) - 1)%nat
          with (S (S (length ss) - 1)) by lia.
        reflexivity.
Qed.

(** X22: Weights of the shapes the linear autoencoder allocates take a dataset
    of [n] rows of [feature_dim] parameters to [n] points of the plane and
    back to [n] rows of [feature_dim] parameters: the forward pass of the
    autoencoder never fails on a shape. *)
Theorem linear_autoencoder_forward_pass_fits
  (number_of_layers : Z) (intermediate_basis_count : list nat)
  (feature_dim n : nat) (weights : list (tensor Q)) (x : tensor Q)
  (activation : tensor Q -> tensor Q) (shapes : list (nat * nat)) :
  (2 <= number_of_layers)%Z ->
  Z.of_nat (length intermediate_basis_count) = (number_of_layers - 1)%Z ->
  (forall y, shape (activation y) = shape y) ->
  shape x = [n; feature_dim] ->
  result (LearnableDirections.LearnableAutoEncoder number_of_layers
            feature_dim intermediate_basis_count) = Ok shapes ->
  map (@shape Q) weights = map (fun s => [fst s; snd s]) shapes ->
  exists projected reconstructed,
    LearnableProjections.project_to_visualization_space x weights activation
    = Ok projected /\
    shape projected = [n; 2%nat] /\
    LearnableProjections.reconstruction x weights activation
    = Ok reconstructed /\
    shape reconstructed = [n; feature_dim].
Proof.
  intros Hn Hlen Hact Hx Hshapes Hw.
  destruct (@linear_autoencoder_chain number_of_layers
              intermediate_basis_count feature_dim Hn Hlen)
    as (shapes' & Hres & Hl & Hfirst & Hlast & Hchain).
  rewrite Hres in Hshapes. injection Hshapes as ->.
  assert (Hn2 : (2 <= length shapes)%nat) by (rewrite Hl; lia).
  destruct (@telescopes_from_chain shapes weights feature_dim Hw)
    as [Ht Hb].
  { intros k Hk. apply Hchain. rewrite <- Hl. lia. }
  { intros _. exact Hfirst. }
  assert (Hne : weights <> []).
  { intros ->. destruct shapes; [simpl in Hn2; lia|discriminate]. }
  destruct (@projections_chain activation Hact x weights n feature_dim
              Hne Ht Hx) as (p & r & Hp & Hsp & _ & Hr & Hsr).
  exists p, r. split; [exact Hp|]. split; [|split; assumption].
  rewrite Hsp, Hb. destruct shapes as [|s ss]; [simpl in Hn2; lia|].
  rewrite Hl. now rewrite Hlast.
Qed.

Lemma linear_autoencoder_forward_pass_fits_witness :
  let activation := fun x : tensor Q => x in
  let x := {| shape := [1%nat; 3%nat]; data := [1; 2; 3] |} in
  let weights :=
    [{| shape := [3%nat; 3%nat]; data := [1; 0; 0; 0; 1; 0; 0; 0; 1] |};
     {| shape := [2%nat; 3%nat]; data := [1; 0; 0; 0; 1; 0] |}] in
  exists projected reconstructed,
    LearnableProjections.project_to_visualization_space x weights activation
    = Ok projected /\
    shape projected = [1%nat; 2%nat] /\
    LearnableProjections.reconstruction x weights activation
    = Ok reconstructed /\
    shape reconstructed = [1%nat; 3%nat].
Proof.
  intros activation x weights.
  apply (@linear_autoencoder_forward_pass_fits 2 [3%nat] 3 1 weights x
           activation [(3, 3); (2, 3)]%nat).
  - lia.
  - reflexivity.
  - reflexivity.
  - reflexivity.
  - reflexivity.
  - reflexivity.
Defined.

(** * The training loop inside the builders *)

Lemma bind_ret_run {A C} (m : traced A) (g : A -> C) :
  bind m (fun a => ret (g a)) = (trace m, obind (result m) (fun a => Ok (g a))).
Proof.
  destruct m as [t [a|e]]; simpl; [|reflexivity]. now rewrite app_nil_r.
Qed.

Lemma epochs_trained_per_snapshot {A} (calls : list torch_call) (l : list A) :
  epochs_trained calls = 0%nat ->
  epochs_trained (concat (map (fun _ => calls) l)) = 0%nat.
Proof.
  intros H. induction l as [|a l IH]; [reflexivity|].
  cbn [map concat]. now rewrite epochs_trained_app, H, IH.
Qed.

Lemma epochs_trained_layers (n : nat) :
  epochs_trained (repeat Tensor_call n ++ repeat kaiming_uniform_call n)
  = 0%nat.
Proof.
  apply epochs_trained_none. intros H. apply in_app_or in H.
  destruct H as [H|H]; apply repeat_spec in H; discriminate.
Qed.

Section BuilderRuns.

Variable B : backend.

Lemma linear_builder_run
  (intermediate_results : list ParameterSet) (parameters : ParameterSet)
  (dev : device) (early_stopping_epochs training_epochs : Z)
  (autoencoder_lr : Q) (number_of_layers : Z)
  (intermediate_basis_count : list nat) :
  intermediate_results <> [] ->
  parameters <> [] ->
  (forall r, In r intermediate_results ->
             r <> [] /\ length (flat r) = length (flat parameters)) ->
  (2 <= number_of_layers)%Z ->
  Z.of_nat (length intermediate_basis_count) = (number_of_layers - 1)%Z ->
  let dataset :=
    map (fun r => vminus (flat r) (flat parameters)) intermediate_results in
  exists shapes before,
    result (LearnableDirections.LearnableAutoEncoder number_of_layers
              (length (flat parameters)) intermediate_basis_count)
    = Ok shapes /\
    epochs_trained before = 0%nat /\
    LearnableDirections.create_learnable_directions B
      intermediate_results parameters dev early_stopping_epochs
      training_epochs autoencoder_lr number_of_layers
      intermediate_basis_count
    = (before ++ trace (fit B (new_net B linear_chain shapes autoencoder_lr)
                          dataset reduction_sum training_epochs
                          early_stopping_epochs),
       obind (result (fit B (new_net B linear_chain shapes autoencoder_lr)
                        dataset reduction_sum training_epochs
                        early_stopping_epochs))
             (fun m => Ok (weights B m))).
Proof.
  intros Hne Hpne Hsnap Hn Hlen dataset.
  pose proof (@linear_autoencoder_run number_of_layers
                intermediate_basis_count (length (flat parameters)) Hn Hlen)
    as Hrun. cbv zeta in Hrun.
  eexists.
  exists (parameters_to_vector_call
            :: concat (map (fun _ => [parameters_to_vector_call; sub_call;
                                      to_device_call]) intermediate_results)
            ++ stack_call
            :: (repeat Tensor_call (Z.to_nat number_of_layers)
                ++ repeat kaiming_uniform_call (Z.to_nat number_of_layers))
            ++ [to_device_call; Adam_call]).
  split; [rewrite Hrun; reflexivity|]. split.
  - change (parameters_to_vector_call :: ?l)
      with ([parameters_to_vector_call] ++ l).
    rewrite epochs_trained_app, epochs_trained_app.
    rewrite epochs_trained_per_snapshot by reflexivity.
    change (stack_call :: ?l) with ([stack_call] ++ l).
    rewrite epochs_trained_app, epochs_trained_app, epochs_trained_layers.
    reflexivity.
  - unfold LearnableDirections.create_learnable_directions.
    rewrite (nonempty_length_eqb Hne).
    rewrite parameters_to_vector_ok by assumption.
    rewrite bind_torch_ok.
    rewrite centred_run by assumption. rewrite bind_ok.
    rewrite (@stack_ok _ (length (flat parameters))).
    2:{ intros Hnil. apply map_eq_nil in Hnil. contradiction. }
    2:{ intros v Hv. eapply centred_rows_length; eassumption. }
    rewrite bind_torch_ok. fold dataset.
    assert (Hx0 : exists x0, item dataset 0 = Ok x0 /\
                             length x0 = length (flat parameters)).
    { unfold dataset. destruct intermediate_results as [|r0 rs]; [congruence|].
      eexists. split; [reflexivity|].
      rewrite length_vminus; apply (Hsnap r0); now left. }
    destruct Hx0 as (x0 & Hx0 & Hl0). rewrite Hx0, bind_lift_ok, Hl0, Hrun.
    rewrite bind_ok. cbn [result snd trace fst].
    rewrite bind_torch_ok. cbn [result snd trace fst].
    rewrite bind_torch_ok. cbn [result snd trace fst].
    rewrite bind_ret_run. cbn [result snd trace fst].
    f_equal. cbn [app]. f_equal. rewrite <- !app_assoc. cbn [app].
    rewrite <- !app_assoc. reflexivity.
Qed.

Lemma nonlinear_builder_run
  (intermediate_results : list ParameterSet) (parameters : ParameterSet)
  (dev : device) (early_stopping_epochs training_epochs : Z)
  (autoencoder_lr : Q) (number_of_layers : Z)
  (intermediate_basis_count : list nat) (F : nat) :
  intermediate_results <> [] ->
  parameters <> [] ->
  (forall r, In r intermediate_results -> r <> [] /\ length (flat r) = F) ->
  Z.of_nat (length intermediate_basis_count) = (number_of_layers - 1)%Z ->
  let dataset := transpose F (map flat intermediate_results) in
  exists shapes before,
    result (LearnableNonlinearDirections.LearnableAutoEncoder number_of_layers
              F intermediate_basis_count)
    = Ok shapes /\
    epochs_trained before = 0%nat /\
    LearnableNonlinearDirections.create_learnable_directions B
      intermediate_results parameters dev early_stopping_epochs
      training_epochs autoencoder_lr number_of_layers
      intermediate_basis_count
    = (before ++ trace (fit B (new_net B nonlinear_subspace shapes
                                 autoencoder_lr)
                          dataset reduction_mean training_epochs
                          early_stopping_epochs),
       obind (result (fit B (new_net B nonlinear_subspace shapes
                               autoencoder_lr)
                        dataset reduction_mean training_epochs
                        early_stopping_epochs))
             (fun m => Ok {| layers := weights B m;
                             origin := flat parameters |})).
Proof.
  intros Hne Hpne Hsnap Hlen dataset.
  pose proof (@nonlinear_autoencoder_run number_of_layers
                intermediate_basis_count F Hlen) as Hrun. cbv zeta in Hrun.
  eexists.
  exists (parameters_to_vector_call :: reshape_call
            :: concat (map (fun _ => [parameters_to_vector_call;
                                      to_device_call]) intermediate_results)
            ++ stack_call :: transpose_call
            :: (repeat Tensor_call (Z.to_nat number_of_layers)
                ++ repeat kaiming_uniform_call (Z.to_nat number_of_layers))
            ++ [to_device_call; Adam_call]).
  split; [rewrite Hrun; reflexivity|]. split.
  - change (parameters_to_vector_call :: reshape_call :: ?l)
      with ([parameters_to_vector_call; reshape_call] ++ l).
    rewrite epochs_trained_app, epochs_trained_app.
    rewrite epochs_trained_per_snapshot by reflexivity.
    change (stack_call :: transpose_call :: ?l)
      with ([stack_call; transpose_call] ++ l).
    rewrite epochs_trained_app, epochs_trained_app, epochs_trained_layers.
    reflexivity.
  - unfold LearnableNonlinearDirections.create_learnable_directions.
    rewrite (nonempty_length_eqb Hne).
    apply Z.eqb_eq in Hlen. rewrite Hlen. cbn [negb].
    rewrite parameters_to_vector_ok by assumption.
    rewrite !bind_torch_ok.
    rewrite (for_each_ok _
               (fun _ => [parameters_to_vector_call; to_device_call]) flat).
    2:{ intros r Hr. destruct (Hsnap r Hr) as [Hrne _].
        rewrite parameters_to_vector_ok by assumption.
        now rewrite bind_torch_ok. }
    rewrite bind_ok.
    rewrite (@stack_ok _ F).
    2:{ intros Hnil. apply map_eq_nil in Hnil. contradiction. }
    2:{ intros v Hv. apply in_map_iff in Hv. destruct Hv as (r & <- & Hr).
        apply (Hsnap r Hr). }
    rewrite bind_torch_ok.
    assert (Hobs : observations (map flat intermediate_results) = F).
    { destruct intermediate_results as [|r0 rs]; [congruence|].
      simpl. apply (Hsnap r0). now left. }
    rewrite Hobs. fold dataset. rewrite bind_torch_ok.
    assert (Hd : length dataset = F) by apply length_transpose.
    cbn [result snd trace fst]. rewrite Hd, Hrun.
    rewrite bind_ok. cbn [result snd trace fst].
    rewrite bind_torch_ok. cbn [result snd trace fst].
    rewrite bind_torch_ok. cbn [result snd trace fst].
    rewrite bind_ret_run. cbn [result snd trace fst].
    f_equal. cbn [app]. do 2 f_equal. rewrite <- !app_assoc. cbn [app].
    rewrite <- !app_assoc. reflexivity.
Qed.


(** C3: in both builders, on a trajectory whose snapshots have as many
    parameters as the optimized model, with at least two layers and one
    basis count per layer but the last, the number of training epochs the
    builder runs is the one of a loop that stops as soon as
    [epoch - best_epoch >= early_stopping_epochs], the best epoch being
    read off the losses the kernel returned; and what the builder returns
    holds the weights of the model with the checkpoint of the first epoch
    of lowest loss loaded (when no epoch recorded a loss there is nothing
    to load, and the builder raises). *)
Theorem early_stopping_returns_best_checkpoint
  (intermediate_results : list ParameterSet) (parameters : ParameterSet)
  (dev : device) (early_stopping_epochs training_epochs : Z)
  (autoencoder_lr : Q) (number_of_layers : Z)
  (intermediate_basis_count : list nat) :
  intermediate_results <> [] ->
  parameters <> [] ->
  (forall r, In r intermediate_results ->
             r <> [] /\ length (flat r) = length (flat parameters)) ->
  (2 <= number_of_layers)%Z ->
  Z.of_nat (length intermediate_basis_count) = (number_of_layers - 1)%Z ->
  let F := length (flat parameters) in
  exists linear_shapes nonlinear_shapes,
    result (LearnableDirections.LearnableAutoEncoder number_of_layers F
              intermediate_basis_count) = Ok linear_shapes /\
    result (LearnableNonlinearDirections.LearnableAutoEncoder
              number_of_layers F intermediate_basis_count)
    = Ok nonlinear_shapes /\
    early_stopped_at_best B
      (new_net B linear_chain linear_shapes autoencoder_lr)
      (map (fun r => vminus (flat r) (flat parameters)) intermediate_results)
      reduction_sum training_epochs early_stopping_epochs
      (fun w => w)
      (LearnableDirections.create_learnable_directions B
         intermediate_results parameters dev early_stopping_epochs
         training_epochs autoencoder_lr number_of_layers
         intermediate_basis_count) /\
    early_stopped_at_best B
      (new_net B nonlinear_subspace nonlinear_shapes autoencoder_lr)
      (transpose F (map flat intermediate_results))
      reduction_mean training_epochs early_stopping_epochs
      (fun w => {| layers := w; origin := flat parameters |})
      (LearnableNonlinearDirections.create_learnable_directions B
         intermediate_results parameters dev early_stopping_epochs
         training_epochs autoencoder_lr number_of_layers
         intermediate_basis_count).
Proof.
  intros Hne Hpne Hsnap Hn Hlen F.
  destruct (@linear_builder_run intermediate_results parameters dev
              early_stopping_epochs training_epochs autoencoder_lr
              number_of_layers intermediate_basis_count Hne Hpne Hsnap Hn Hlen)
    as (s1 & before1 & Hs1 & Hb1 & Hrun1).
  destruct (@nonlinear_builder_run intermediate_results parameters dev
              early_stopping_epochs training_epochs autoencoder_lr
              number_of_layers intermediate_basis_count F Hne Hpne Hsnap Hlen)
    as (s2 & before2 & Hs2 & Hb2 & Hrun2).
  exists s1, s2. split; [exact Hs1|]. split; [exact Hs2|]. split.
  - eapply trained_run_early_stopped; [exact Hb1|exact Hrun1].
  - eapply trained_run_early_stopped; [exact Hb2|exact Hrun2].
Qed.

(** C10: under the same conditions, in both builders the last call is
    the reload of the best checkpoint, and it fails exactly when none of
    the epochs run had a loss below infinity: so for
    [training_epochs <= 0] and when every loss is a nan; and a builder
    that returns has run an epoch with a loss below infinity. *)
Theorem reload_needs_a_recorded_loss
  (intermediate_results : list ParameterSet) (parameters : ParameterSet)
  (dev : device) (early_stopping_epochs training_epochs : Z)
  (autoencoder_lr : Q) (number_of_layers : Z)
  (intermediate_basis_count : list nat) :
  intermediate_results <> [] ->
  parameters <> [] ->
  (forall r, In r intermediate_results ->
             r <> [] /\ length (flat r) = length (flat parameters)) ->
  (2 <= number_of_layers)%Z ->
  Z.of_nat (length intermediate_basis_count) = (number_of_layers - 1)%Z ->
  let F := length (flat parameters) in
  exists linear_shapes nonlinear_shapes,
    result (LearnableDirections.LearnableAutoEncoder number_of_layers F
              intermediate_basis_count) = Ok linear_shapes /\
    result (LearnableNonlinearDirections.LearnableAutoEncoder
              number_of_layers F intermediate_basis_count)
    = Ok nonlinear_shapes /\
    reload_fails_without_a_loss B
      (new_net B linear_chain linear_shapes autoencoder_lr)
      (map (fun r => vminus (flat r) (flat parameters)) intermediate_results)
      reduction_sum training_epochs
      (LearnableDirections.create_learnable_directions B
         intermediate_results parameters dev early_stopping_epochs
         training_epochs autoencoder_lr number_of_layers
         intermediate_basis_count) /\
    reload_fails_without_a_loss B
      (new_net B nonlinear_subspace nonlinear_shapes autoencoder_lr)
      (transpose F (map flat intermediate_results))
      reduction_mean training_epochs
      (LearnableNonlinearDirections.create_learnable_directions B
         intermediate_results parameters dev early_stopping_epochs
         training_epochs autoencoder_lr number_of_layers
         intermediate_basis_count).
Proof.
  intros Hne Hpne Hsnap Hn Hlen F.
  destruct (@linear_builder_run intermediate_results parameters dev
              early_stopping_epochs training_epochs autoencoder_lr
              number_of_layers intermediate_basis_count Hne Hpne Hsnap Hn Hlen)
    as (s1 & before1 & Hs1 & Hb1 & Hrun1).
  destruct (@nonlinear_builder_run intermediate_results parameters dev
              early_stopping_epochs training_epochs autoencoder_lr
              number_of_layers intermediate_basis_count F Hne Hpne Hsnap Hlen)
    as (s2 & before2 & Hs2 & Hb2 & Hrun2).
  exists s1, s2. split; [exact Hs1|]. split; [exact Hs2|]. split.
  - eapply (@trained_run_reload B _ _ _ _ _ _ (fun w => w) _ before1);
      [exact Hb1|exact Hrun1].
  - eapply (@trained_run_reload B _ _ _ _ _ _
              (fun w => {| layers := w; origin := flat parameters |})
              _ before2);
      [exact Hb2|exact Hrun2].
Qed.

End BuilderRuns.

Lemma early_stopping_returns_best_checkpoint_witness :
  let B := scripted [Fin 5; Fin 3; Fin 4; Fin 4; Fin 4; Fin 1] in
  let intermediate_results :=
    [[{| shape := [2%nat]; data := [1; 2] |}];
     [{| shape := [2%nat]; data := [3; 4] |}]] in
  let parameters := [{| shape := [2%nat]; data := [1; 1] |}] in
  exists linear_shapes nonlinear_shapes,
    result (LearnableDirections.LearnableAutoEncoder 2 2 [3%nat])
    = Ok linear_shapes /\
    result (LearnableNonlinearDirections.LearnableAutoEncoder 2 2 [3%nat])
    = Ok nonlinear_shapes /\
    early_stopped_at_best B
      (new_net B linear_chain linear_shapes (1 # 100))
      (map (fun r => vminus (flat r) (flat parameters)) intermediate_results)
      reduction_sum 6 2
      (fun w => w)
      (LearnableDirections.create_learnable_directions B
         intermediate_results parameters cpu 2 6 (1 # 100) 2 [3%nat]) /\
    early_stopped_at_best B
      (new_net B nonlinear_subspace nonlinear_shapes (1 # 100))
      (transpose 2 (map flat intermediate_results))
      reduction_mean 6 2
      (fun w => {| layers := w; origin := flat parameters |})
      (LearnableNonlinearDirections.create_learnable_directions B
         intermediate_results parameters cpu 2 6 (1 # 100) 2 [3%nat]).
Proof.
  intros B intermediate_results parameters.
  apply (@early_stopping_returns_best_checkpoint B intermediate_results
           parameters cpu 2 6 (1 # 100) 2 [3%nat]).
  - discriminate.
  - discriminate.
  - intros r [<-|[<-|[]]]; split; try discriminate; reflexivity.
  - lia.
  - reflexivity.
Defined.

Lemma reload_needs_a_recorded_loss_witness :
  let B := scripted [NaN; NaN; NaN] in
  let intermediate_results :=
    [[{| shape := [2%nat]; data := [1; 2] |}];
     [{| shape := [2%nat]; data := [3; 4] |}]] in
  let parameters := [{| shape := [2%nat]; data := [1; 1] |}] in
  exists linear_shapes nonlinear_shapes,
    result (LearnableDirections.LearnableAutoEncoder 2 2 [3%nat])
    = Ok linear_shapes /\
    result (LearnableNonlinearDirections.LearnableAutoEncoder 2 2 [3%nat])
    = Ok nonlinear_shapes /\
    reload_fails_without_a_loss B
      (new_net B linear_chain linear_shapes (1 # 100))
      (map (fun r => vminus (flat r) (flat parameters)) intermediate_results)
      reduction_sum 3
      (LearnableDirections.create_learnable_directions B
         intermediate_results parameters cpu 250 3 (1 # 100) 2 [3%nat]) /\
    reload_fails_without_a_loss B
      (new_net B nonlinear_subspace nonlinear_shapes (1 # 100))
      (transpose 2 (map flat intermediate_results))
      reduction_mean 3
      (LearnableNonlinearDirections.create_learnable_directions B
         intermediate_results parameters cpu 250 3 (1 # 100) 2 [3%nat]).
Proof.
  intros B intermediate_results parameters.
  apply (@reload_needs_a_recorded_loss B intermediate_results
           parameters cpu 250 3 (1 # 100) 2 [3%nat]).
  - discriminate.
  - discriminate.
  - intros r [<-|[<-|[]]]; split; try discriminate; reflexivity.
  - lia.
  - reflexivity.
Defined.

(** The builders on scripted losses 5, 3, 4, 4, 4, 1 with a patience of
    2: four epochs are trained and the checkpoint of epoch 1 is returned;
    on nothing but nan the reload raises after three epochs. *)
Example builders_on_scripted_losses :
  let intermediate_results :=
    [[{| shape := [2%nat]; data := [1; 2] |}];
     [{| shape := [2%nat]; data := [3; 4] |}]] in
  let parameters := [{| shape := [2%nat]; data := [1; 1] |}] in
  let run := fun losses training_epochs =>
    LearnableDirections.create_learnable_directions (scripted losses)
      intermediate_results parameters cpu 2 training_epochs (1 # 100) 2
      [3%nat] in
  epochs_trained (trace (run [Fin 5; Fin 3; Fin 4; Fin 4; Fin 4; Fin 1] 6%Z))
  = 4%nat /\
  result (run [Fin 5; Fin 3; Fin 4; Fin 4; Fin 4; Fin 1] 6%Z)
  = Ok (weights (scripted []) 2%nat) /\
  epochs_trained (trace (run [NaN; NaN; NaN] 3%Z)) = 3%nat /\
  result (run [NaN; NaN; NaN] 3%Z) = Raise TypeError.
Proof. repeat split. Qed.
